(** * gitree: a conformance checker for trees of Git repositories

    A shallow embedding of the two programs of the repository:

    - [V2] is [src/gitree.c], the redesigned checker ("V2" in its header
      comment);
    - [V1] is the earlier, staged checker (the header comment's "V1").

    Both walk a directory tree with [opendir]/[readdir].  The file system is
    modelled as a finite tree of directory listings, the process state as a
    record of the global counters plus the text written so far, and [exit]
    as an outcome of its own. *)

From Stdlib Require Import ZArith List Bool Lia Permutation.
From Stdlib Require Import Ascii String DecimalString.
Import ListNotations.

Local Open Scope string_scope.
Local Open Scope list_scope.
Local Open Scope Z_scope.

(** ** C strings *)

(** [strcmp(a, b) == 0]. *)
Definition strcmp0 (a b : string) : bool := String.eqb a b.

(** [strncmp(a, b, n) == 0]: at most [n] characters are compared, and the
    comparison stops at the common end of the two strings. *)
Fixpoint strncmp0 (a b : string) (n : nat) {struct n} : bool :=
  match n with
  | O => true
  | S n' =>
      match a, b with
      | EmptyString, EmptyString => true
      | String x a', String y b' =>
          if Ascii.eqb x y then strncmp0 a' b' n' else false
      | _, _ => false
      end
  end.

(** [strlen]. *)
Definition strlen (s : string) : Z := Z.of_nat (String.length s).

(** [s + n] for a pointer [s] into a string and [0 <= n <= strlen(s)]. *)
Fixpoint ptr_add (s : string) (n : nat) {struct n} : string :=
  match n, s with
  | O, _ => s
  | S n', String _ s' => ptr_add s' n'
  | S _, EmptyString => EmptyString
  end.

(** [strrchr(s, c)]: the part of [s] that starts at the last [c], [None]
    for the null pointer. *)
Fixpoint strrchr (s : string) (c : ascii) : option string :=
  match s with
  | EmptyString => None
  | String x s' =>
      match strrchr s' c with
      | Some r => Some r
      | None => if Ascii.eqb x c then Some s else None
      end
  end.

(** The index at which a loop of the shape
    [for (i = 0; i < size; i++) if (p(table[i])) break;]
    stops: the first hit, or the size of the table. *)
Fixpoint scan_until (p : string -> bool) (table : list string) : nat :=
  match table with
  | [] => O
  | x :: rest => if p x then O else S (scan_until p rest)
  end.

(** A string that is made of slashes, and a string without a slash. *)
Fixpoint only_slashes (s : string) : bool :=
  match s with
  | EmptyString => true
  | String c s' => Ascii.eqb c "/"%char && only_slashes s'
  end.

Fixpoint slash_free (s : string) : bool :=
  match s with
  | EmptyString => true
  | String c s' => negb (Ascii.eqb c "/"%char) && slash_free s'
  end.

(** The newline, and [%d]. *)
Definition nl : string := String "010"%char EmptyString.

Definition print_int (n : Z) : string := NilZero.string_of_int (Z.to_int n).

(** ** The file system *)

(** [d_type] values of [<dirent.h>]. *)
Definition DT_UNKNOWN : Z := 0.
Definition DT_FIFO : Z := 1.
Definition DT_CHR : Z := 2.
Definition DT_DIR : Z := 4.
Definition DT_BLK : Z := 6.
Definition DT_REG : Z := 8.
Definition DT_LNK : Z := 10.
Definition DT_SOCK : Z := 12.

Unset Elimination Schemes.

(** What [opendir] gives for a path: nothing, or the entries that [readdir]
    returns, in the order it returns them.  Each entry carries what
    [opendir] would give for the entry itself. *)
Inductive dir : Type :=
| Unreadable
| Dir (ents : list dirent)
with dirent : Type :=
| Dirent (d_name : string) (d_type : Z) (target : dir).

Set Elimination Schemes.

Definition d_name (e : dirent) : string := let 'Dirent n _ _ := e in n.
Definition d_type (e : dirent) : Z := let 'Dirent _ t _ := e in t.
Definition target (e : dirent) : dir := let 'Dirent _ _ d := e in d.

(** Induction on a tree of listings. *)
Section dir_induction.
Variable P : dir -> Prop.
Hypothesis P_unreadable : P Unreadable.
Hypothesis P_dir :
  forall ents, Forall (fun e => P (target e)) ents -> P (Dir ents).

Fixpoint dir_ind (d : dir) : P d :=
  match d with
  | Unreadable => P_unreadable
  | Dir ents =>
      P_dir ents
        ((fix go (l : list dirent) : Forall (fun e => P (target e)) l :=
            match l with
            | [] => Forall_nil _
            | Dirent n t sub :: tl =>
                Forall_cons (Dirent n t sub) (dir_ind sub) (go tl)
            end) ents)
  end.
End dir_induction.

(** The two pseudo-entries both readdir loops skip. *)
Definition is_dot (name : string) : bool :=
  strcmp0 name "." || strcmp0 name "..".

(** [dirname "/" d_name], as built by strcpy and two strcat. *)
Definition child_path (dirname name : string) : string :=
  String.append dirname (String.append "/" name).

(** The entries a readdir loop takes for directories (it stores their
    paths in [subdir]), for regular files, and for entries it cannot tell
    the type of. *)
Definition is_subdir (e : dirent) : bool :=
  negb (is_dot (d_name e)) && (d_type e =? DT_DIR).

Definition is_subfile (e : dirent) : bool :=
  negb (is_dot (d_name e)) && (d_type e =? DT_REG).

Definition is_unknown (e : dirent) : bool :=
  negb (is_dot (d_name e)) && (d_type e =? DT_UNKNOWN).

(** The listing has an entry of that name and type. *)
Definition has_entry (name : string) (type : Z) (ents : list dirent) : bool :=
  existsb (fun e => strcmp0 (d_name e) name && (d_type e =? type)) ents.

(** ** Outcomes of a call *)

Inductive result (S : Type) : Type :=
| Ret (st : S)                    (* the call returned *)
| Exit (status : Z) (st : S)      (* exit(status) was called *)
| Undef.                          (* an access outside an object *)
Arguments Ret {S} st.
Arguments Exit {S} status st.
Arguments Undef {S}.

Definition cmd (S : Type) : Type := S -> result S.

Definition seq {S : Type} (c1 c2 : cmd S) : cmd S :=
  fun st => match c1 st with
            | Ret st' => c2 st'
            | Exit c st' => Exit c st'
            | Undef => Undef
            end.

Notation "c1 ;; c2" := (seq c1 c2) (at level 61, right associativity).

(** What the shell sees of [exit(status)]. *)
Definition wait_status (status : Z) : Z := Z.land status 255.

(** An array of [cap] pointers of which the slots below [length a] have been
    written; a store outside the array is [None]. *)
Definition array_store {A : Type} (cap : Z) (a : list A) (idx : Z) (v : A)
  : option (list A) :=
  if (0 <=? idx) && (idx <? cap)
  then Some (firstn (Z.to_nat idx) a ++ [v])
  else None.

(** * V2: src/gitree.c *)

Module V2.

Definition SUBDIRNO : Z := 4096.
Definition SUBFILENO : Z := 4096.

Definition git_files : list string :=
  [ (* git files *)
    "COMMIT_EDITMSG"; "config"; "description"; "FETCH_HEAD"; "HEAD"; "index";
    "packed-refs"; "ORIG_HEAD"; "MERGE_HEAD"; "MERGE_MODE"; "MERGE_MSG";
    "MERGE_RR"; "RENAMED-REF"; "gitk.cache";
    (* git dirs *)
    "hooks"; "info"; "logs"; "objects"; "rebase-apply"; "refs"; "branches";
    "remotes"; "shallow"; "rr-cache";
    (* getweb *)
    "cloneurl";
    (* repo files *)
    ".repopickle_config"; "clone.bundle";
    (* other files *)
    "config.bak"; "config_bak"; "config~"; "description~"; "hooks_bk";
    "hooks.bak"; "hooks-bak"; "COMMIT_EDITMSG~"; ".gitignore"; "pnt"; "svn";
    "temp.patch" ].

Definition exception_list : list string := [ "/git/android/.repo" ].

Definition git_files_array_size : nat := List.length git_files.
Definition exception_list_array_size : nat := List.length exception_list.

(** One constructor per [printf] of the program, and one for what goes to
    stderr (kept without its last newline); [render] gives the text. *)
Inductive event : Type :=
| Checking (dirname : string)
| BreaksLayout (dirname name : string)
| NameNotGit (dirname : string)
| NonBare (dirname : string)
| NotInGit (dirname subfile : string)
| CheckResult (layout name nonbare stray : Z)
| Stderr (msg : string).

Definition render (ev : event) : string :=
  match ev with
  | Checking dirname => String.concat "" ["Checking "; dirname; nl]
  | BreaksLayout dirname name =>
      String.concat "" ["WARNING: "; dirname; "/"; name;
                        " breaks Git repo layout rule"; nl]
  | NameNotGit dirname =>
      String.concat "" ["WARNING: "; dirname;
                        " name not terminated with .git"; nl]
  | NonBare dirname =>
      String.concat "" ["WARNING: "; dirname; " non-bare git tree"; nl]
  | NotInGit dirname name =>
      String.concat "" ["WARNING: "; dirname; "/"; name;
                        " not in a git tree"; nl]
  | CheckResult layout name nonbare stray =>
      String.concat ""
        [nl; "Check Result:"; nl;
         print_int layout; " files break Git repo layout rule"; nl;
         print_int name; " git dirs name not terminated with .git"; nl;
         print_int nonbare; " git dirs non-bare git tree"; nl;
         print_int stray; " files not in a git tree"; nl]
  | Stderr msg => String.append msg nl
  end.

(** The four global counters, and what has been written so far.  The
    counters are C ints; they are kept in [Z], which is exact as long as a
    run gives fewer than 2^31 warnings of a kind. *)
Record state : Type := mkState {
  sum_break_layout_rule : Z;
  sum_dir_name_not_with_git : Z;
  sum_non_bare_git : Z;
  sum_not_in_git : Z;
  trace : list event
}.

Definition emit (e : event) (st : state) : state :=
  mkState (sum_break_layout_rule st) (sum_dir_name_not_with_git st)
          (sum_non_bare_git st) (sum_not_in_git st) (trace st ++ [e]).

Definition incr_break_layout_rule (st : state) : state :=
  mkState (sum_break_layout_rule st + 1) (sum_dir_name_not_with_git st)
          (sum_non_bare_git st) (sum_not_in_git st) (trace st).

Definition incr_dir_name_not_with_git (st : state) : state :=
  mkState (sum_break_layout_rule st) (sum_dir_name_not_with_git st + 1)
          (sum_non_bare_git st) (sum_not_in_git st) (trace st).

Definition incr_non_bare_git (st : state) : state :=
  mkState (sum_break_layout_rule st) (sum_dir_name_not_with_git st)
          (sum_non_bare_git st + 1) (sum_not_in_git st) (trace st).

Definition incr_not_in_git (st : state) : state :=
  mkState (sum_break_layout_rule st) (sum_dir_name_not_with_git st)
          (sum_non_bare_git st) (sum_not_in_git st + 1) (trace st).

(** [static int in_exception_list(char *dirname)], as a boolean. *)
Definition in_exception_list (dirname : string) : bool :=
  let i :=
    scan_until (fun x => strncmp0 dirname x (String.length x)) exception_list
  in
  negb (Nat.eqb i exception_list_array_size).

(** [last_dir] of [check_gitree]: what follows the last slash. *)
Definition last_dir (dirname : string) : string :=
  match strrchr dirname "/"%char with
  | None => dirname
  | Some r => ptr_add r 1
  end.

(** [dir_name_with_git] of [check_gitree]. *)
Definition dir_name_with_git (dirname : string) : bool :=
  let dir_len := strlen (last_dir dirname) in
  (4 <=? dir_len)
  && strncmp0 (ptr_add (last_dir dirname) (Z.to_nat (dir_len - 4))) ".git" 4.

(** The two tests on the name, lines 142-153. *)
Definition check_name (dirname : string) (st : state) : state :=
  let dir_len := strlen (last_dir dirname) in
  let st :=
    if dir_name_with_git dirname && (dir_len =? 4) then
      if negb (in_exception_list dirname)
      then emit (NonBare dirname) (incr_non_bare_git st)
      else st
    else st in
  if negb (dir_name_with_git dirname)
  then emit (NameNotGit dirname) (incr_dir_name_not_with_git st)
  else st.

(** One turn of the readdir loop of [check_gitree]. *)
Definition check_entry (dirname : string) (st : state) (e : dirent) : state :=
  if strcmp0 (d_name e) "." then st
  else if strcmp0 (d_name e) ".." then st
  else
    let i := scan_until (strcmp0 (d_name e)) git_files in
    if negb (Nat.eqb i git_files_array_size) then st
    else emit (BreaksLayout dirname (d_name e)) (incr_break_layout_rule st).

(** [static void check_gitree(char *dirname)]; [d] is what [opendir(dirname)]
    gives. *)
Definition check_gitree (dirname : string) (d : dir) : cmd state :=
  fun st =>
    let st := check_name dirname st in
    match d with
    | Unreadable => Exit (-1) (emit (Stderr "check_gitree: opendir failed") st)
    | Dir ents => Ret (fold_left (check_entry dirname) ents st)
    end.

(** The locals of [gitree] that the readdir loop updates.  [subdir] and
    [subfile] hold the slots written so far. *)
Record locals : Type := mkLocals {
  subdir : list string;
  i : Z;
  has_dir_objects : bool;
  has_dir_refs : bool;
  has_file_HEAD : bool;
  subfile : list string;
  j : Z
}.

Definition locals0 : locals := mkLocals [] 0 false false false [] 0.

(** How the readdir loop of [gitree] goes on. *)
Inductive scan : Type :=
| Continue (l : locals)
| Fatal (status : Z) (msg : string)   (* fprintf(stderr, msg); exit(status) *)
| OutOfRange.                         (* a store outside subdir or subfile *)

(** One turn of the readdir loop of [gitree], lines 206-244. *)
Definition readdir_step (dirname : string) (l : locals) (e : dirent) : scan :=
  if strcmp0 (d_name e) "." then Continue l
  else if strcmp0 (d_name e) ".." then Continue l
  else if d_type e =? DT_DIR then
    let objects := if strcmp0 (d_name e) "objects" then true
                   else has_dir_objects l in
    let refs := if strcmp0 (d_name e) "refs" then true else has_dir_refs l in
    match array_store SUBDIRNO (subdir l) (i l)
                      (child_path dirname (d_name e)) with
    | None => OutOfRange
    | Some a =>
        let i' := i l + 1 in
        if SUBDIRNO <=? i' then Fatal (-1) "ERROR: gitree: reach max dir num"
        else Continue (mkLocals a i' objects refs (has_file_HEAD l)
                                (subfile l) (j l))
    end
  else if d_type e =? DT_REG then
    let head := if strcmp0 (d_name e) "HEAD" then true else has_file_HEAD l in
    match array_store SUBFILENO (subfile l) (j l) (d_name e) with
    | None => OutOfRange
    | Some a =>
        let j' := j l + 1 in
        if SUBFILENO <=? j' then Fatal (-1) "ERROR: gitree: reach max file num"
        else Continue (mkLocals (subdir l) (i l) (has_dir_objects l)
                                (has_dir_refs l) head a j')
    end
  else if d_type e =? DT_UNKNOWN then
    Fatal (-2) "ERROR: gitree: unknown file type"
  else Continue l.

(** [while ((direntp = readdir(dirp)) != NULL)]. *)
Fixpoint readdir_loop (dirname : string) (ents : list dirent) (l : locals)
  : scan :=
  match ents with
  | [] => Continue l
  | e :: rest =>
      match readdir_step dirname l e with
      | Continue l' => readdir_loop dirname rest l'
      | stop => stop
      end
  end.

(** One turn of the loop over [subfile], lines 259-266. *)
Definition report_file (dirname : string) (st : state) (name : string)
  : state :=
  if negb (in_exception_list dirname)
  then emit (NotInGit dirname name) (incr_not_in_git st)
  else st.

(** [static void gitree(char *dirname)]; [d] is what [opendir(dirname)]
    gives.  The loop over [subdir] is written over the listing, where the
    tree has what [opendir(subdir[i])] gives: it calls [gitree] for the
    entries the readdir loop stored, in the order it stored them, on the
    path it stored (lemma [subdir_paths] below).  A root is opened a second
    time by [check_gitree]; the tree is the same then.  [malloc] is taken
    to give the memory asked for. *)
Fixpoint gitree (dirname : string) (d : dir) (st : state) {struct d}
  : result state :=
  match d with
  | Unreadable => Exit (-1) (emit (Stderr "gitree: opendir failed") st)
  | Dir ents =>
      let st := emit (Checking dirname) st in
      match readdir_loop dirname ents locals0 with
      | OutOfRange => Undef
      | Fatal status msg => Exit status (emit (Stderr msg) st)
      | Continue l =>
          if has_dir_objects l && has_dir_refs l && has_file_HEAD l
          then check_gitree dirname d st
          else
            (fix subdirs (es : list dirent) (st : state) : result state :=
               match es with
               | [] => Ret st
               | Dirent name type sub :: rest =>
                   if is_subdir (Dirent name type sub) then
                     match gitree (child_path dirname name) sub st with
                     | Ret st' => subdirs rest st'
                     | stop => stop
                     end
                   else subdirs rest st
               end) ents (fold_left (report_file dirname) (subfile l) st)
      end
  end.

(** The loop of [main] that cuts the slashes at the end of [argv[1]];
    [n] is [dir_len + 1].  With nothing but slashes the loop reads
    [argv[1][-1]]. *)
Fixpoint strip_slashes (arg : string) (n : nat) : option string :=
  match n with
  | O => None
  | S dir_len =>
      match String.get dir_len arg with
      | Some c =>
          if Ascii.eqb c "/"%char
          then strip_slashes (String.substring 0 dir_len arg) dir_len
          else Some arg
      | None => None
      end
  end.

Definition usage_text : string :=
  String.concat nl
    ["Usage: ./gitree pathname";
     "Perform conformance check, give warnings when";
     "1. files break Git repo layout rule";
     "2. git dirs name not terminated with .git";
     "3. git dirs non-bare git tree";
     "4. files not in a git tree"].

(** [static void usage(void)]. *)
Definition usage : cmd state :=
  fun st => Exit (-1) (emit (Stderr usage_text) st).

(** The globals when [main] starts. *)
Definition state0 : state := mkState 0 0 0 0 [].

(** [int main(int argc, char *argv[])]; [root] is what [opendir] gives for
    the path of the command line.  Returning from [main] is [exit]. *)
Definition main (argv : list string) (root : dir) : result state :=
  match argv with
  | [_; arg] =>
      match strip_slashes arg (String.length arg) with
      | None => Undef
      | Some dirname =>
          match gitree dirname root state0 with
          | Ret st =>
              Exit 0 (emit (CheckResult (sum_break_layout_rule st)
                                        (sum_dir_name_not_with_git st)
                                        (sum_non_bare_git st)
                                        (sum_not_in_git st)) st)
          | stop => stop
          end
      end
  | _ => usage state0
  end.

(** ** The walk, read off the listing *)

(** No entry of unknown type, and fewer directories and fewer regular files
    than the two arrays have slots. *)
Definition scan_ok (ents : list dirent) : bool :=
  negb (existsb is_unknown ents)
  && (Z.of_nat (List.length (filter is_subdir ents)) <? SUBDIRNO)
  && (Z.of_nat (List.length (filter is_subfile ents)) <? SUBFILENO).

(** The three flags of line 252. *)
Definition is_git_tree (ents : list dirent) : bool :=
  has_entry "objects" DT_DIR ents && has_entry "refs" DT_DIR ents
  && has_entry "HEAD" DT_REG ents.

(** The locals after a readdir loop that went through. *)
Definition scanned (dirname : string) (ents : list dirent) : locals :=
  mkLocals (map (fun e => child_path dirname (d_name e))
                (filter is_subdir ents))
           (Z.of_nat (List.length (filter is_subdir ents)))
           (has_entry "objects" DT_DIR ents)
           (has_entry "refs" DT_DIR ents)
           (has_entry "HEAD" DT_REG ents)
           (map d_name (filter is_subfile ents))
           (Z.of_nat (List.length (filter is_subfile ents))).

(** [gitree] on one path after the other, as far as they return. *)
Fixpoint gitree_each (calls : list (string * dir)) (st : state)
  : result state :=
  match calls with
  | [] => Ret st
  | (path, d) :: rest =>
      match gitree path d st with
      | Ret st' => gitree_each rest st'
      | stop => stop
      end
  end.

(** The directory children of a listing, with their paths. *)
Definition subdir_calls (dirname : string) (ents : list dirent)
  : list (string * dir) :=
  map (fun e => (child_path dirname (d_name e), target e))
      (filter is_subdir ents).

(** An entry the layout check warns about. *)
Definition breaks_layout (e : dirent) : bool :=
  negb (is_dot (d_name e))
  && negb (existsb (String.eqb (d_name e)) git_files).

(** The three outcomes of the test on the name. *)
Definition name_is_dot_git (dirname : string) : bool :=
  dir_name_with_git dirname && (strlen (last_dir dirname) =? 4).

Definition name_without_git (dirname : string) : bool :=
  negb (dir_name_with_git dirname).

Definition name_extends_git (dirname : string) : bool :=
  dir_name_with_git dirname && negb (strlen (last_dir dirname) =? 4).

(** Kinds of events. *)
Definition is_layout (ev : event) : bool :=
  match ev with BreaksLayout _ _ => true | _ => false end.
Definition is_name (ev : event) : bool :=
  match ev with NameNotGit _ => true | _ => false end.
Definition is_non_bare (ev : event) : bool :=
  match ev with NonBare _ => true | _ => false end.
Definition is_stray (ev : event) : bool :=
  match ev with NotInGit _ _ => true | _ => false end.
Definition is_stray_of (dirname : string) (ev : event) : bool :=
  match ev with NotInGit d _ => String.eqb d dirname | _ => false end.
Definition is_checking (ev : event) : bool :=
  match ev with Checking _ => true | _ => false end.

Definition count (p : event -> bool) (evs : list event) : Z :=
  Z.of_nat (List.length (filter p evs)).

(** [st'] is [st] after the events [evs], each warning counted once. *)
Definition advances (st st' : state) (evs : list event) : Prop :=
  trace st' = trace st ++ evs
  /\ sum_break_layout_rule st' = sum_break_layout_rule st + count is_layout evs
  /\ sum_dir_name_not_with_git st'
     = sum_dir_name_not_with_git st + count is_name evs
  /\ sum_non_bare_git st' = sum_non_bare_git st + count is_non_bare evs
  /\ sum_not_in_git st' = sum_not_in_git st + count is_stray evs.

(** What the test on the name, the layout check and the loop over the
    regular files write. *)
Definition name_warnings (dirname : string) : list event :=
  (if name_is_dot_git dirname && negb (in_exception_list dirname)
   then [NonBare dirname] else [])
  ++ (if name_without_git dirname then [NameNotGit dirname] else []).

Definition layout_warnings (dirname : string) (ents : list dirent)
  : list event :=
  map (fun e => BreaksLayout dirname (d_name e)) (filter breaks_layout ents).

Definition stray_warnings (dirname : string) (ents : list dirent)
  : list event :=
  if in_exception_list dirname then []
  else map (fun e => NotInGit dirname (d_name e)) (filter is_subfile ents).

(** The statuses and messages [gitree] stops the run with. *)
Definition fatal (status : Z) (msg : string) : Prop :=
  (status = -1 /\ msg = "gitree: opendir failed")
  \/ (status = -1 /\ msg = "ERROR: gitree: reach max dir num")
  \/ (status = -1 /\ msg = "ERROR: gitree: reach max file num")
  \/ (status = -2 /\ msg = "ERROR: gitree: unknown file type").

(** A file reported at [dirname] or in a directory with a longer path, and
    one reported in a directory with a longer path. *)
Definition stray_below (dirname : string) (ev : event) : Prop :=
  match ev with
  | NotInGit d _ => (String.length dirname <= String.length d)%nat
  | _ => True
  end.

Definition stray_deeper (dirname : string) (ev : event) : Prop :=
  match ev with
  | NotInGit d _ => (String.length dirname < String.length d)%nat
  | _ => True
  end.

(** A call that started in [st] returned, or stopped the run with a message
    on stderr, and until then wrote events that satisfy [ok]. *)
Definition outcome (ok : event -> Prop) (st : state) (r : result state)
  : Prop :=
  match r with
  | Ret st' => exists evs, advances st st' evs /\ Forall ok evs
  | Exit status st' =>
      exists evs msg,
        advances st st' (evs ++ [Stderr msg]) /\ Forall ok evs
        /\ fatal status msg
  | Undef => False
  end.

(** A walk that starts at [dirname], where [opendir] gives [d], calls
    [gitree] on [path], where the listing is [l]: [path] is [dirname]
    itself, or the walk gets there through a child of a listing that was
    read to its end and is no Git tree. *)
Inductive enters : string -> dir -> string -> list dirent -> Prop :=
| enters_here (dirname : string) (ents : list dirent) :
    enters dirname (Dir ents) dirname ents
| enters_child (dirname : string) (ents : list dirent) (e : dirent)
               (path : string) (l : list dirent) :
    scan_ok ents = true -> is_git_tree ents = false ->
    In e ents -> is_subdir e = true ->
    enters (child_path dirname (d_name e)) (target e) path l ->
    enters dirname (Dir ents) path l.

(** A file is reported from a directory the walk has entered, which is no
    Git tree and has the file in its listing. *)
Definition reported_from (dirname : string) (d : dir) (ev : event) : Prop :=
  match ev with
  | NotInGit path name =>
      exists l, enters dirname d path l
                /\ scan_ok l = true /\ is_git_tree l = false
                /\ In name (map d_name (filter is_subfile l))
  | _ => True
  end.

(** A line about a directory is about a directory the walk has entered; a
    warning of [check_gitree] is about a Git tree, and it is true of the
    tree. *)
Definition warned_from (dirname : string) (d : dir) (ev : event) : Prop :=
  match ev with
  | Checking path => exists l, enters dirname d path l
  | BreaksLayout path name =>
      exists l, enters dirname d path l
                /\ scan_ok l = true /\ is_git_tree l = true
                /\ exists e, In e l /\ d_name e = name
                             /\ breaks_layout e = true
  | NameNotGit path =>
      exists l, enters dirname d path l
                /\ scan_ok l = true /\ is_git_tree l = true
                /\ name_without_git path = true
  | NonBare path =>
      exists l, enters dirname d path l
                /\ scan_ok l = true /\ is_git_tree l = true
                /\ name_is_dot_git path = true
                /\ in_exception_list path = false
  | NotInGit _ _ | CheckResult _ _ _ _ | Stderr _ => True
  end.

(** The directory an event is about, and an event about a directory whose
    path begins with [top]. *)
Definition event_dir (ev : event) : option string :=
  match ev with
  | Checking d | BreaksLayout d _ | NameNotGit d | NonBare d | NotInGit d _ =>
      Some d
  | CheckResult _ _ _ _ | Stderr _ => None
  end.

Definition below (top : string) (ev : event) : Prop :=
  match event_dir ev with
  | Some d => exists t, d = String.append top t
  | None => True
  end.

(** [st] and after it what [s] has counted and written, and the same for
    the outcome of a call. *)
Definition merge (st s : state) : state :=
  mkState (sum_break_layout_rule st + sum_break_layout_rule s)
          (sum_dir_name_not_with_git st + sum_dir_name_not_with_git s)
          (sum_non_bare_git st + sum_non_bare_git s)
          (sum_not_in_git st + sum_not_in_git s)
          (trace st ++ trace s).

Definition lift (st : state) (r : result state) : result state :=
  match r with
  | Ret s => Ret (merge st s)
  | Exit status s => Exit status (merge st s)
  | Undef => Undef
  end.

Definition counters (st : state) : Z * Z * Z * Z :=
  (sum_break_layout_rule st, sum_dir_name_not_with_git st,
   sum_non_bare_git st, sum_not_in_git st).

(** Two states with the same counters and the same text up to the order of
    what was written. *)
Definition similar (a b : state) : Prop :=
  counters a = counters b /\ Permutation (trace a) (trace b).

(** Two trees that differ in nothing but the order of their listings, in
    the directories a walk can enter. *)
#[warnings="-register-all"]
Inductive reordered : dir -> dir -> Prop :=
| reordered_unreadable : reordered Unreadable Unreadable
| reordered_dir (es es' es'' : list dirent) :
    Forall2 (fun e e' =>
               d_name e = d_name e' /\ d_type e = d_type e'
               /\ (is_subdir e = true ->
                   reordered (target e) (target e'))) es es' ->
    Permutation es' es'' ->
    reordered (Dir es) (Dir es'').

(** Two trees with the same listings, in the same order, in every directory
    a walk can enter. *)
#[warnings="-register-all"]
Inductive same_listings : dir -> dir -> Prop :=
| same_unreadable : same_listings Unreadable Unreadable
| same_dir (es1 es2 : list dirent) :
    Forall2 (fun e1 e2 =>
               d_name e1 = d_name e2 /\ d_type e1 = d_type e2
               /\ (is_subdir e1 = true ->
                   same_listings (target e1) (target e2))) es1 es2 ->
    same_listings (Dir es1) (Dir es2).

(** ** How a run ends, read off the tree *)

(** A tree a walk goes through: every directory the walk enters opens, has
    no entry of unknown type and has room in both arrays.  The walk enters
    the directories of a listing that is no Git tree, and none of a Git
    tree. *)
Fixpoint completes (d : dir) : bool :=
  match d with
  | Unreadable => false
  | Dir ents =>
      scan_ok ents
      && (is_git_tree ents
          || (fix all (es : list dirent) : bool :=
                match es with
                | [] => true
                | Dirent name type sub :: rest =>
                    (negb (is_subdir (Dirent name type sub)) || completes sub)
                    && all rest
                end) ents)
  end.

(** A walk that starts at [dirname], where [opendir] gives [d], gets as far
    as calling [gitree] on [path], where [opendir] gives [d']: [path] is
    [dirname] itself, or a directory [e] of a listing that was read to its
    end and is no Git tree leads there, and the walks of the directories
    listed before [e] went through. *)
Inductive reaches : string -> dir -> string -> dir -> Prop :=
| reaches_here (dirname : string) (d : dir) : reaches dirname d dirname d
| reaches_child (dirname : string) (before : list dirent) (e : dirent)
                (after : list dirent) (path : string) (d' : dir) :
    scan_ok (before ++ e :: after) = true ->
    is_git_tree (before ++ e :: after) = false ->
    Forall (fun b => is_subdir b = true -> completes (target b) = true)
           before ->
    is_subdir e = true ->
    reaches (child_path dirname (d_name e)) (target e) path d' ->
    reaches dirname (Dir (before ++ e :: after)) path d'.

(** A directory at which a walk stops the run. *)
Definition stops_walk (d : dir) : Prop :=
  d = Unreadable \/ exists l, d = Dir l /\ scan_ok l = false.

(** ** The walk over the arrays as a call finds them *)

(** [subdir] and [subfile] are arrays of the stack frame of [gitree], and
    the code does not initialise them: a call finds in them what the memory
    held.  An array is given by what each of its slots holds.  A slot of
    [subdir] holds a path; the model keeps with the path what [opendir]
    gives for it. *)
Record junk : Type := mkJunk {
  junk_subdir : Z -> string * dir;
  junk_subfile : Z -> string
}.

(** What the stack holds where a call [gitree(dirname)] that starts in
    the state [st] gets its frame. *)
Definition stack : Type := string -> state -> junk.

(** The locals of [gitree], with the arrays whole. *)
Record frame : Type := mkFrame {
  f_subdir : Z -> string * dir;
  f_i : Z;
  f_has_dir_objects : bool;
  f_has_dir_refs : bool;
  f_has_file_HEAD : bool;
  f_subfile : Z -> string;
  f_j : Z
}.

(** The locals when the readdir loop starts: [i], [j] and the three flags
    are initialised, the arrays are not. *)
Definition frame0 (m : junk) : frame :=
  mkFrame (junk_subdir m) 0 false false false (junk_subfile m) 0.

(** [a[idx] = v] and [a[idx]] for an array of [cap] slots; outside the
    array both are [None]. *)
Definition store {A : Type} (cap : Z) (a : Z -> A) (idx : Z) (v : A)
  : option (Z -> A) :=
  if (0 <=? idx) && (idx <? cap)
  then Some (fun k => if k =? idx then v else a k)
  else None.

Definition fetch {A : Type} (cap : Z) (a : Z -> A) (idx : Z) : option A :=
  if (0 <=? idx) && (idx <? cap) then Some (a idx) else None.

Inductive frame_scan : Type :=
| Scanned (f : frame)
| Stopped (status : Z) (msg : string)  (* fprintf(stderr, msg); exit(status) *)
| Outside.                             (* a store outside subdir or subfile *)

(** One turn of the readdir loop of [gitree], lines 206-244. *)
Definition readdir_step_mem (dirname : string) (f : frame) (e : dirent)
  : frame_scan :=
  if strcmp0 (d_name e) "." then Scanned f
  else if strcmp0 (d_name e) ".." then Scanned f
  else if d_type e =? DT_DIR then
    let objects := if strcmp0 (d_name e) "objects" then true
                   else f_has_dir_objects f in
    let refs := if strcmp0 (d_name e) "refs" then true
                else f_has_dir_refs f in
    match store SUBDIRNO (f_subdir f) (f_i f)
                (child_path dirname (d_name e), target e) with
    | None => Outside
    | Some a =>
        let i' := f_i f + 1 in
        if SUBDIRNO <=? i' then Stopped (-1) "ERROR: gitree: reach max dir num"
        else Scanned (mkFrame a i' objects refs (f_has_file_HEAD f)
                              (f_subfile f) (f_j f))
    end
  else if d_type e =? DT_REG then
    let head := if strcmp0 (d_name e) "HEAD" then true
                else f_has_file_HEAD f in
    match store SUBFILENO (f_subfile f) (f_j f) (d_name e) with
    | None => Outside
    | Some a =>
        let j' := f_j f + 1 in
        if SUBFILENO <=? j'
        then Stopped (-1) "ERROR: gitree: reach max file num"
        else Scanned (mkFrame (f_subdir f) (f_i f) (f_has_dir_objects f)
                              (f_has_dir_refs f) head a j')
    end
  else if d_type e =? DT_UNKNOWN then
    Stopped (-2) "ERROR: gitree: unknown file type"
  else Scanned f.

Fixpoint readdir_loop_mem (dirname : string) (ents : list dirent) (f : frame)
  : frame_scan :=
  match ents with
  | [] => Scanned f
  | e :: rest =>
      match readdir_step_mem dirname f e with
      | Scanned f' => readdir_loop_mem dirname rest f'
      | stop => stop
      end
  end.

(** [for (j = 0; j < subfilen; j++)], lines 259-266, with [n] turns to go:
    [subfile[j]] is read from the array. *)
Fixpoint report_files_mem (dirname : string) (f : frame) (n : nat) (j : Z)
         (st : state) : result state :=
  match n with
  | O => Ret st
  | S n' =>
      match fetch SUBFILENO (f_subfile f) j with
      | None => Undef
      | Some name =>
          report_files_mem dirname f n' (j + 1) (report_file dirname st name)
      end
  end.

(** [for (i = 0; i < subdirn; i++)], lines 267-270, with [n] turns to go:
    [subdir[i]] is read from the array, and [walk] is the call of
    [gitree].  A call that has not the fuel to end is [None]. *)
Fixpoint subdirs_mem (walk : string -> dir -> state -> option (result state))
         (f : frame) (n : nat) (i : Z) (st : state)
  : option (result state) :=
  match n with
  | O => Some (Ret st)
  | S n' =>
      match fetch SUBDIRNO (f_subdir f) i with
      | None => Some Undef
      | Some (path, sub) =>
          match walk path sub st with
          | Some (Ret st') => subdirs_mem walk f n' (i + 1) st'
          | stop => stop
          end
      end
  end.

(** [static void gitree(char *dirname)] once more, every call with the
    arrays as the stack [m] gives them, and with the two loops over the
    arrays reading the slots below [subfilen] and [subdirn].  The directory
    a slot leads to is whatever the slot holds, so the calls are counted
    down by [fuel]: one for every level of the tree.  [free] is not
    modelled. *)
Fixpoint gitree_mem (fuel : nat) (m : stack) (dirname : string) (d : dir)
         (st : state) {struct fuel} : option (result state) :=
  match fuel with
  | O => None
  | S fuel' =>
      match d with
      | Unreadable =>
          Some (Exit (-1) (emit (Stderr "gitree: opendir failed") st))
      | Dir ents =>
          let st1 := emit (Checking dirname) st in
          match readdir_loop_mem dirname ents (frame0 (m dirname st)) with
          | Outside => Some Undef
          | Stopped status msg => Some (Exit status (emit (Stderr msg) st1))
          | Scanned f =>
              let subdirn := f_i f in
              let subfilen := f_j f in
              if f_has_dir_objects f && f_has_dir_refs f
                 && f_has_file_HEAD f
              then Some (check_gitree dirname d st1)
              else
                match report_files_mem dirname f (Z.to_nat subfilen) 0 st1
                with
                | Ret st2 =>
                    subdirs_mem (gitree_mem fuel' m) f (Z.to_nat subdirn) 0
                                st2
                | stop => Some stop
                end
          end
      end
  end.

(** [main] over [gitree_mem]. *)
Definition main_mem (fuel : nat) (m : stack) (argv : list string)
           (root : dir) : option (result state) :=
  match argv with
  | [_; arg] =>
      match strip_slashes arg (String.length arg) with
      | None => Some Undef
      | Some dirname =>
          match gitree_mem fuel m dirname root state0 with
          | Some (Ret st) =>
              Some (Exit 0 (emit (CheckResult (sum_break_layout_rule st)
                                              (sum_dir_name_not_with_git st)
                                              (sum_non_bare_git st)
                                              (sum_not_in_git st)) st))
          | stop => stop
          end
      end
  | _ => Some (usage state0)
  end.

(** The levels of a tree. *)
Fixpoint height (d : dir) : nat :=
  match d with
  | Unreadable => O
  | Dir ents =>
      S ((fix deepest (es : list dirent) : nat :=
            match es with
            | [] => O
            | Dirent _ _ sub :: rest => Nat.max (height sub) (deepest rest)
            end) ents)
  end.

(** The frame [f] holds what the readdir loop has stored: [l] are the
    locals of the loop with the slots written so far, and [calls] are the
    directories stored, each with what [opendir] gives for it. *)
Definition stored (f : frame) (l : locals) (calls : list (string * dir))
  : Prop :=
  f_i f = i l /\ f_j f = j l
  /\ f_has_dir_objects f = has_dir_objects l
  /\ f_has_dir_refs f = has_dir_refs l
  /\ f_has_file_HEAD f = has_file_HEAD l
  /\ i l = Z.of_nat (List.length (subdir l)) /\ i l < SUBDIRNO
  /\ j l = Z.of_nat (List.length (subfile l)) /\ j l < SUBFILENO
  /\ map fst calls = subdir l
  /\ (forall k c, nth_error calls k = Some c -> f_subdir f (Z.of_nat k) = c)
  /\ (forall k n, nth_error (subfile l) k = Some n ->
                  f_subfile f (Z.of_nat k) = n).

(** ** The range of the counters *)

Definition INT_MAX : Z := 2147483647.

(** No counter is negative, and no counter is above [INT_MAX]. *)
Definition counted (st : state) : Prop :=
  0 <= sum_break_layout_rule st /\ 0 <= sum_dir_name_not_with_git st
  /\ 0 <= sum_non_bare_git st /\ 0 <= sum_not_in_git st.

Definition in_int (st : state) : Prop :=
  sum_break_layout_rule st <= INT_MAX
  /\ sum_dir_name_not_with_git st <= INT_MAX
  /\ sum_non_bare_git st <= INT_MAX /\ sum_not_in_git st <= INT_MAX.

(** The state a call ends in, when it ends in one, satisfies [P]. *)
Definition ends_in (P : state -> Prop) (r : result state) : Prop :=
  match r with
  | Ret st | Exit _ st => P st
  | Undef => True
  end.

End V2.

(** * V1: the staged checker *)

Module V1.

Definition SUBDIRNO : Z := 4096.

Definition git_files : list string :=
  [ (* git files *)
    "COMMIT_EDITMSG"; "config"; "description"; "FETCH_HEAD"; "HEAD"; "index";
    "packed-refs"; "ORIG_HEAD"; "MERGE_HEAD"; "MERGE_MODE"; "MERGE_MSG";
    "RENAMED-REF"; "gitk.cache";
    (* git dirs *)
    "hooks"; "info"; "logs"; "objects"; "rebase-apply"; "refs"; "branches";
    "remotes"; "shallow"; "rr-cache";
    (* getweb *)
    "cloneurl";
    (* repo files *)
    ".repopickle_config"; "clone.bundle";
    (* other files *)
    "config.bak"; "config_bak"; "config~"; "description~"; "hooks_bk";
    "hooks.bak"; "hooks-bak"; "COMMIT_EDITMSG~"; ".gitignore"; "pnt"; "svn";
    "temp.patch" ].

Definition git_tree_nonbare : list string := [ "manifests"; "repo" ].

Definition git_files_array_size : nat := List.length git_files.
Definition git_tree_nonbare_array_size : nat := List.length git_tree_nonbare.

Inductive event : Type :=
| Checking (dirname : string)        (* check_gitree: "Checking %s" *)
| BreaksLayout (name : string)       (* check_gitree: the entry's name only *)
| NameNotGit (dirname : string)
| NonBareTree (dirname : string)     (* check_gitree_nonbare: "%s" *)
| FileLine (dirname name : string)   (* stage 3: "%s/%s" *)
| CheckResult (sum sum2 : Z)
| Stderr (msg : string).

Definition render (ev : event) : string :=
  match ev with
  | Checking dirname => String.concat "" ["Checking "; dirname; nl]
  | BreaksLayout name =>
      String.concat "" ["WARNING: "; name; " breaks Git repo layout rule"; nl]
  | NameNotGit dirname =>
      String.concat "" ["WARNING: "; dirname;
                        " name not terminated with .git"; nl]
  | NonBareTree dirname => String.append dirname nl
  | FileLine dirname name => String.concat "" [dirname; "/"; name; nl]
  | CheckResult sum sum2 =>
      String.concat ""
        [nl; "Check Result:"; nl;
         print_int sum; " files break Git repo layout rule"; nl;
         print_int sum2; " dirs name not terminated with .git"; nl]
  | Stderr msg => String.append msg nl
  end.

(** The globals: the stage chosen by [main], the two counters, and what has
    been written so far. *)
Record state : Type := mkState {
  stage1 : bool;
  stage2 : bool;
  stage3 : bool;
  sum : Z;
  sum2 : Z;
  trace : list event
}.

Definition emit (e : event) (st : state) : state :=
  mkState (stage1 st) (stage2 st) (stage3 st) (sum st) (sum2 st)
          (trace st ++ [e]).

Definition incr_sum (st : state) : state :=
  mkState (stage1 st) (stage2 st) (stage3 st) (sum st + 1) (sum2 st)
          (trace st).

Definition incr_sum2 (st : state) : state :=
  mkState (stage1 st) (stage2 st) (stage3 st) (sum st) (sum2 st + 1)
          (trace st).

(** One turn of the readdir loop of [check_gitree]. *)
Definition check_entry (st : state) (e : dirent) : state :=
  if strcmp0 (d_name e) "." then st
  else if strcmp0 (d_name e) ".." then st
  else
    let i := scan_until (strcmp0 (d_name e)) git_files in
    if negb (Nat.eqb i git_files_array_size) then st
    else emit (BreaksLayout (d_name e)) (incr_sum st).

(** [static void check_gitree(char *dirname)]. *)
Definition check_gitree (dirname : string) (d : dir) : cmd state :=
  fun st =>
    if negb (stage1 st) then Ret st
    else
      let st := emit (Checking dirname) st in
      match d with
      | Unreadable =>
          Exit (-1) (emit (Stderr "check_gitree: opendir failed") st)
      | Dir ents => Ret (fold_left check_entry ents st)
      end.

(** [static int in_nonbare_exp_list(char *dirname)].  Without a slash in
    [dirname], [last_dir] is the null pointer plus one and [strcmp] reads
    there: [None]. *)
Definition in_nonbare_exp_list (dirname : string) : option bool :=
  match strrchr dirname "/"%char with
  | None => None
  | Some r =>
      let last_dir := ptr_add r 1 in
      let i := scan_until (strcmp0 last_dir) git_tree_nonbare in
      Some (negb (Nat.eqb i git_tree_nonbare_array_size))
  end.

(** [static void check_gitree_nonbare(char *dirname)]. *)
Definition check_gitree_nonbare (dirname : string) : cmd state :=
  fun st =>
    if negb (stage2 st) then Ret st
    else
      match in_nonbare_exp_list dirname with
      | None => Undef
      | Some true => Ret st
      | Some false => Ret (emit (NonBareTree dirname) st)
      end.

(** [!strncmp(direntp->d_name + subdir_len - 4, ".git", 4)].  For a name of
    fewer than four characters the four bytes compared start before
    [d_name], inside the same [struct dirent]; the byte just before [d_name]
    is [d_type], which is [DT_DIR] = 4 on this path and is no character of
    [".git"], so the comparison fails. *)
Definition git_flag (name : string) : bool :=
  let subdir_len := strlen name in
  if subdir_len <? 4 then false
  else strncmp0 (ptr_add name (Z.to_nat (subdir_len - 4))) ".git" 4.

(** [git_bare[i]]. *)
Definition git_bare_flag (name : string) : bool :=
  git_flag name && negb (strlen name =? 4).

Record locals : Type := mkLocals {
  subdir : list string;
  i : Z;
  git : list bool;
  git_bare : list bool;
  has_dir_objects : bool;
  has_dir_refs : bool
}.

Definition locals0 : locals := mkLocals [] 0 [] [] false false.

(** One turn of the readdir loop of [gitree]; stage 3 writes the regular
    files from inside the loop. *)
Definition readdir_step (dirname : string) (e : dirent)
  : cmd (locals * state) :=
  fun '(l, st) =>
    if strcmp0 (d_name e) "." then Ret (l, st)
    else if strcmp0 (d_name e) ".." then Ret (l, st)
    else if d_type e =? DT_DIR then
      match array_store SUBDIRNO (subdir l) (i l)
                        (child_path dirname (d_name e)),
            array_store SUBDIRNO (git l) (i l) (git_flag (d_name e)),
            array_store SUBDIRNO (git_bare l) (i l)
                        (git_bare_flag (d_name e)) with
      | Some a, Some g, Some b =>
          let objects := if strcmp0 (d_name e) "objects" then true
                         else has_dir_objects l in
          let refs := if strcmp0 (d_name e) "refs" then true
                      else has_dir_refs l in
          let i' := i l + 1 in
          if SUBDIRNO <=? i'
          then Exit (-1) (l, emit (Stderr "ERROR: gitree: reach max dir num") st)
          else Ret (mkLocals a i' g b objects refs, st)
      | _, _, _ => Undef
      end
    else if d_type e =? DT_REG then
      if stage3 st then
        match in_nonbare_exp_list dirname with
        | None => Undef
        | Some true => Ret (l, st)
        | Some false => Ret (l, emit (FileLine dirname (d_name e)) st)
        end
      else Ret (l, st)
    else if d_type e =? DT_UNKNOWN then
      Exit (-2) (l, emit (Stderr "ERROR: gitree: unknown file type") st)
    else Ret (l, st).

Fixpoint readdir_loop (dirname : string) (ents : list dirent)
  : cmd (locals * state) :=
  match ents with
  | [] => fun s => Ret s
  | e :: rest => readdir_step dirname e ;; readdir_loop dirname rest
  end.

(** [!stage3 || !in_nonbare_exp_list(dirname)], the guard of the recursive
    call. *)
Definition may_descend (dirname : string) (st : state) : option bool :=
  if negb (stage3 st) then Some true
  else match in_nonbare_exp_list dirname with
       | None => None
       | Some b => Some (negb b)
       end.

(** [static void gitree(char *dirname)].  As in [V2], the second loop is
    written over the listing; [git[i]] and [git_bare[i]] are the flags the
    readdir loop computed from the name stored in [subdir[i]]. *)
Fixpoint gitree (dirname : string) (d : dir) (st : state) {struct d}
  : result state :=
  match d with
  | Unreadable => Exit (-1) (emit (Stderr "gitree: opendir failed") st)
  | Dir ents =>
      match readdir_loop dirname ents (locals0, st) with
      | Undef => Undef
      | Exit status (_, st) => Exit status st
      | Ret (l, st) =>
          if has_dir_objects l && has_dir_refs l then
            match check_gitree dirname d st with
            | Ret st =>
                Ret (if stage1 st
                     then incr_sum2 (emit (NameNotGit dirname) st)
                     else st)
            | stop => stop
            end
          else
            (fix subdirs (es : list dirent) (st : state) : result state :=
               match es with
               | [] => Ret st
               | Dirent name type sub :: rest =>
                   if is_subdir (Dirent name type sub) then
                     if git_flag name then
                       match (check_gitree (child_path dirname name) sub ;;
                              if negb (git_bare_flag name)
                              then check_gitree_nonbare dirname
                              else Ret) st with
                       | Ret st' => subdirs rest st'
                       | stop => stop
                       end
                     else
                       match may_descend dirname st with
                       | None => Undef
                       | Some true =>
                           match gitree (child_path dirname name) sub st with
                           | Ret st' => subdirs rest st'
                           | stop => stop
                           end
                       | Some false => subdirs rest st
                       end
                   else subdirs rest st
               end) ents st
      end
  end.

(** What the second loop of [gitree] does with [subdir[i]]. *)
Definition visit (dirname name : string) (sub : dir) : cmd state :=
  if git_flag name then
    check_gitree (child_path dirname name) sub ;;
    (if negb (git_bare_flag name) then check_gitree_nonbare dirname else Ret)
  else
    fun st =>
      match may_descend dirname st with
      | None => Undef
      | Some true => gitree (child_path dirname name) sub st
      | Some false => Ret st
      end.

Fixpoint visit_each (dirname : string) (es : list dirent) : cmd state :=
  match es with
  | [] => Ret
  | e :: rest => visit dirname (d_name e) (target e) ;; visit_each dirname rest
  end.

Definition usage_text : string :=
  String.concat nl
    ["Usage:";
     "./gitree -1 pathname";
     "./gitree -2 pathname";
     "./gitree -3 pathname";
     "1 - Perform Git repository layout conformance check";
     "2 - Search for all non-bare Git trees";
     "3 - Find all files not in a bare Git tree";
     "Please perform the check in 1, 2, 3 order"].

(** [static void usage(void)]. *)
Definition usage : cmd state :=
  fun st => Exit (-1) (emit (Stderr usage_text) st).

(** The globals once [main] has set the stage. *)
Definition state0 (s1 s2 s3 : bool) : state := mkState s1 s2 s3 0 0 [].

(** [int main(int argc, char *argv[])]. *)
Definition main (argv : list string) (root : dir) : result state :=
  match argv with
  | [_; opt; path] =>
      let run (st : state) :=
        match gitree path root st with
        | Ret st =>
            Exit 0 (if stage1 st then emit (CheckResult (sum st) (sum2 st)) st
                    else st)
        | stop => stop
        end in
      if strncmp0 opt "-1" 2 then run (state0 true false false)
      else if strncmp0 opt "-2" 2 then run (state0 false true false)
      else if strncmp0 opt "-3" 2 then run (state0 false false true)
      else usage (state0 false false false)
  | _ => usage (state0 false false false)
  end.

(** ** The walk of the staged checker, read off its events *)

Definition is_layout (ev : event) : bool :=
  match ev with BreaksLayout _ => true | _ => false end.
Definition is_name (ev : event) : bool :=
  match ev with NameNotGit _ => true | _ => false end.
Definition is_file_line (ev : event) : bool :=
  match ev with FileLine _ _ => true | _ => false end.

Definition count (p : event -> bool) (evs : list event) : Z :=
  Z.of_nat (List.length (filter p evs)).

(** An entry the layout check of the staged checker warns about. *)
Definition breaks_layout (e : dirent) : bool :=
  negb (is_dot (d_name e))
  && negb (existsb (String.eqb (d_name e)) git_files).

(** The stage a line belongs to is the stage that runs. *)
Definition in_stage (st : state) (ev : event) : bool :=
  match ev with
  | Checking _ | BreaksLayout _ | NameNotGit _ | CheckResult _ _ => stage1 st
  | NonBareTree _ => stage2 st
  | FileLine _ _ => stage3 st
  | Stderr _ => true
  end.

(** [st'] is [st] after the events [evs]: the stage is the same, each of
    the two warnings is counted once, and every line belongs to the stage
    that runs. *)
Definition advances (st st' : state) (evs : list event) : Prop :=
  stage1 st' = stage1 st /\ stage2 st' = stage2 st
  /\ stage3 st' = stage3 st
  /\ trace st' = trace st ++ evs
  /\ sum st' = sum st + count is_layout evs
  /\ sum2 st' = sum2 st + count is_name evs
  /\ Forall (fun ev => in_stage st ev = true) evs.

(** The statuses and messages the staged checker stops the run with. *)
Definition fatal (status : Z) (msg : string) : Prop :=
  (status = -1 /\ msg = "gitree: opendir failed")
  \/ (status = -1 /\ msg = "check_gitree: opendir failed")
  \/ (status = -1 /\ msg = "ERROR: gitree: reach max dir num")
  \/ (status = -2 /\ msg = "ERROR: gitree: unknown file type").

(** [in_nonbare_exp_list] is not called, or it finds a slash in the path. *)
Definition safe (dirname : string) (st : state) : Prop :=
  slash_free dirname = false \/ (stage2 st = false /\ stage3 st = false).

(** The three arrays of [gitree] are filled up to [i], and [i] is in
    range. *)
Definition filled (l : locals) : Prop :=
  i l = Z.of_nat (List.length (subdir l))
  /\ List.length (git l) = List.length (subdir l)
  /\ List.length (git_bare l) = List.length (subdir l)
  /\ i l < SUBDIRNO.

(** A call on [dirname] that started in [st] returned, or stopped the run
    with a message on stderr; it is undefined only when it was not [safe]. *)
Definition outcome (dirname : string) (st : state) (r : result state)
  : Prop :=
  match r with
  | Ret st' => exists evs, advances st st' evs
  | Exit status st' =>
      exists evs msg,
        advances st st' (evs ++ [Stderr msg]) /\ fatal status msg
  | Undef => ~ safe dirname st
  end.

(** [path] is the path of a directory of the tree that [opendir] gives at
    [dirname], and [l] is its listing. *)
Inductive holds : string -> dir -> string -> list dirent -> Prop :=
| holds_here (dirname : string) (ents : list dirent) :
    holds dirname (Dir ents) dirname ents
| holds_child (dirname : string) (ents : list dirent) (e : dirent)
              (path : string) (l : list dirent) :
    In e ents -> is_subdir e = true ->
    holds (child_path dirname (d_name e)) (target e) path l ->
    holds dirname (Dir ents) path l.

(** A line of stage 2 names a directory of the tree that is no Git tree
    by its content, has a directory ".git", and is not in the list of
    allowed non-bare trees. *)
Definition found_from (dirname : string) (d : dir) (ev : event) : Prop :=
  match ev with
  | NonBareTree path =>
      exists l, holds dirname d path l
                /\ has_entry ".git" DT_DIR l = true
                /\ has_entry "objects" DT_DIR l && has_entry "refs" DT_DIR l
                   = false
                /\ in_nonbare_exp_list path = Some false
  | _ => True
  end.

Definition is_non_bare_tree (ev : event) : bool :=
  match ev with NonBareTree _ => true | _ => false end.

(** What a call has written when it returned or stopped the run. *)
Definition writes (ok : event -> Prop) (st : state) (r : result state)
  : Prop :=
  match r with
  | Ret st' | Exit _ st' =>
      exists evs, trace st' = trace st ++ evs /\ Forall ok evs
  | Undef => True
  end.

End V1.

(** * Facts about C strings *)

Lemma length_append (a b : string) :
  String.length (String.append a b)
  = (String.length a + String.length b)%nat.
Proof.
  induction a as [|c a IH]; simpl; [reflexivity|].
  now rewrite IH.
Qed.

Lemma ptr_add_append (p t : string) :
  ptr_add (String.append p t) (String.length p) = t.
Proof.
  induction p as [|c p IH]; simpl.
  - now destruct t.
  - exact IH.
Qed.

Lemma ptr_add_split (n : nat) :
  forall s, (n <= String.length s)%nat ->
  exists p, s = String.append p (ptr_add s n) /\ String.length p = n.
Proof.
  induction n as [|n IH]; intros s Hn.
  - exists EmptyString. split; [now destruct s|reflexivity].
  - destruct s as [|c s]; simpl in Hn; [lia|].
    destruct (IH s) as [p [Hs Hp]]; [lia|].
    exists (String c p). simpl. split; [now rewrite <- Hs|now rewrite Hp].
Qed.

Lemma strncmp0_refl (s : string) (n : nat) : strncmp0 s s n = true.
Proof.
  revert s. induction n as [|n IH]; intros s; simpl; [reflexivity|].
  destruct s as [|c s]; [reflexivity|].
  now rewrite Ascii.eqb_refl.
Qed.

(** On two strings of [n] characters [strncmp] is equality. *)
Lemma strncmp0_eq (n : nat) :
  forall a b, String.length a = n -> String.length b = n ->
  strncmp0 a b n = true -> a = b.
Proof.
  induction n as [|n IH]; intros a b Ha Hb H.
  - destruct a, b; simpl in *; congruence.
  - destruct a as [|x a], b as [|y b]; simpl in *; try discriminate.
    destruct (Ascii.eqb_spec x y) as [->|]; [|discriminate].
    f_equal. apply IH; congruence.
Qed.

(** [strncmp(a, b, strlen(b)) == 0] says that [a] starts with [b]. *)
Lemma strncmp0_prefix (b : string) :
  forall a, strncmp0 a b (String.length b) = true <->
            exists t, a = String.append b t.
Proof.
  induction b as [|y b IH]; intros a; simpl.
  - split; [intros _; now exists a|reflexivity].
  - destruct a as [|x a].
    + split; [discriminate|intros [t Ht]; discriminate].
    + destruct (Ascii.eqb_spec x y) as [->|Hne].
      * rewrite IH. split; intros [t Ht]; exists t; congruence.
      * split; [discriminate|intros [t Ht]; congruence].
Qed.

Lemma scan_until_le (p : string -> bool) (table : list string) :
  (scan_until p table <= List.length table)%nat.
Proof.
  induction table as [|x rest IH]; simpl; [lia|].
  destruct (p x); lia.
Qed.

(** The loop runs to the end of the table when nothing in it is hit. *)
Lemma scan_until_all (p : string -> bool) (table : list string) :
  Nat.eqb (scan_until p table) (List.length table) = negb (existsb p table).
Proof.
  induction table as [|x rest IH]; simpl; [reflexivity|].
  destruct (p x); simpl; [reflexivity|exact IH].
Qed.

Lemma existsb_eqb_In (x : string) (l : list string) :
  existsb (String.eqb x) l = true <-> In x l.
Proof.
  rewrite existsb_exists. split.
  - intros [y [Hin Hy]]. apply String.eqb_eq in Hy. now subst.
  - intros Hin. exists x. split; [exact Hin|apply String.eqb_refl].
Qed.

(** A child's path is longer than its parent's. *)
Lemma child_path_length (dirname name : string) :
  (String.length dirname < String.length (child_path dirname name))%nat.
Proof.
  unfold child_path. rewrite !length_append. simpl. lia.
Qed.

(** * Facts about V2 *)

Section V2_readdir.
Import V2.

Lemma is_dot_split (n : string) :
  is_dot n = false -> strcmp0 n "." = false /\ strcmp0 n ".." = false.
Proof. unfold is_dot. intros H. now apply orb_false_elim in H. Qed.

Lemma is_dot_not (n m : string) :
  is_dot m = false -> is_dot n = true -> strcmp0 n m = false.
Proof.
  unfold is_dot, strcmp0. intros Hm Hn.
  apply orb_false_elim in Hm. destruct Hm as [Hm1 Hm2].
  apply orb_true_iff in Hn.
  destruct Hn as [Hn|Hn]; apply String.eqb_eq in Hn; subst n;
    now rewrite String.eqb_sym.
Qed.

(** The turn of the readdir loop, by the kind of the entry. *)
Lemma readdir_step_kind (dirname : string) (l : locals) (e : dirent) :
  readdir_step dirname l e =
  if is_subdir e then
    match array_store SUBDIRNO (subdir l) (i l)
                      (child_path dirname (d_name e)) with
    | None => OutOfRange
    | Some a =>
        if SUBDIRNO <=? i l + 1
        then Fatal (-1) "ERROR: gitree: reach max dir num"
        else Continue
               (mkLocals a (i l + 1)
                  (strcmp0 (d_name e) "objects" || has_dir_objects l)
                  (strcmp0 (d_name e) "refs" || has_dir_refs l)
                  (has_file_HEAD l) (subfile l) (j l))
    end
  else if is_subfile e then
    match array_store SUBFILENO (subfile l) (j l) (d_name e) with
    | None => OutOfRange
    | Some a =>
        if SUBFILENO <=? j l + 1
        then Fatal (-1) "ERROR: gitree: reach max file num"
        else Continue
               (mkLocals (subdir l) (i l) (has_dir_objects l)
                  (has_dir_refs l)
                  (strcmp0 (d_name e) "HEAD" || has_file_HEAD l) a (j l + 1))
    end
  else if is_unknown e then Fatal (-2) "ERROR: gitree: unknown file type"
  else Continue l.
Proof.
  destruct e as [n t d].
  unfold readdir_step, is_subdir, is_subfile, is_unknown, is_dot; simpl.
  destruct (strcmp0 n "."); simpl; [reflexivity|].
  destruct (strcmp0 n ".."); simpl; [reflexivity|].
  destruct (Z.eqb_spec t DT_DIR) as [->|Hd]; simpl.
  - destruct (array_store _ _ _ _); [|reflexivity].
    destruct (SUBDIRNO <=? i l + 1); [reflexivity|].
    now destruct (strcmp0 n "objects"), (strcmp0 n "refs").
  - destruct (Z.eqb_spec t DT_REG) as [->|Hr]; simpl.
    + destruct (array_store _ _ _ _); [|reflexivity].
      destruct (SUBFILENO <=? j l + 1); [reflexivity|].
      now destruct (strcmp0 n "HEAD").
    + reflexivity.
Qed.

Lemma array_store_next {A : Type} (cap : Z) (a : list A) (v : A) :
  Z.of_nat (List.length a) < cap ->
  array_store cap a (Z.of_nat (List.length a)) v = Some (a ++ [v]).
Proof.
  intros H. unfold array_store.
  replace (0 <=? Z.of_nat (List.length a)) with true
    by (symmetry; apply Z.leb_le; lia).
  replace (Z.of_nat (List.length a) <? cap) with true
    by (symmetry; apply Z.ltb_lt; lia).
  simpl. now rewrite Nat2Z.id, firstn_all.
Qed.

(** A store at the next free slot is in range exactly when there is one. *)
Lemma array_store_full {A : Type} (cap : Z) (a : list A) (v : A) :
  cap <= Z.of_nat (List.length a) ->
  array_store cap a (Z.of_nat (List.length a)) v = None.
Proof.
  intros H. unfold array_store.
  replace (Z.of_nat (List.length a) <? cap) with false
    by (symmetry; apply Z.ltb_ge; lia).
  now rewrite andb_false_r.
Qed.

Lemma has_entry_cons (name : string) (type : Z) (e : dirent)
      (ents : list dirent) :
  has_entry name type (e :: ents)
  = (strcmp0 (d_name e) name && (d_type e =? type)) || has_entry name type ents.
Proof. reflexivity. Qed.

(** A readdir loop over a listing without an entry of unknown type and with
    room in both arrays goes through, and adds to the locals what the
    listing holds. *)
Lemma readdir_loop_from (dirname : string) (ents : list dirent) :
  forall l,
    i l = Z.of_nat (List.length (subdir l)) ->
    j l = Z.of_nat (List.length (subfile l)) ->
    existsb is_unknown ents = false ->
    i l + Z.of_nat (List.length (filter is_subdir ents)) < SUBDIRNO ->
    j l + Z.of_nat (List.length (filter is_subfile ents)) < SUBFILENO ->
    readdir_loop dirname ents l
    = Continue
        (mkLocals
           (subdir l ++ map (fun e => child_path dirname (d_name e))
                            (filter is_subdir ents))
           (i l + Z.of_nat (List.length (filter is_subdir ents)))
           (has_dir_objects l || has_entry "objects" DT_DIR ents)
           (has_dir_refs l || has_entry "refs" DT_DIR ents)
           (has_file_HEAD l || has_entry "HEAD" DT_REG ents)
           (subfile l ++ map d_name (filter is_subfile ents))
           (j l + Z.of_nat (List.length (filter is_subfile ents)))).
Proof.
  induction ents as [|e ents IH]; intros l Hi Hj Hu Hd Hf.
  - simpl. rewrite !app_nil_r, !orb_false_r, !Z.add_0_r. now destruct l.
  - simpl in Hu. apply orb_false_elim in Hu. destruct Hu as [Hue Hu].
    assert (Hno : forall name type,
               is_dot name = false -> is_dot (d_name e) = true ->
               strcmp0 (d_name e) name && (d_type e =? type) = false).
    { intros name type Hname Edot. now rewrite (is_dot_not _ _ Hname Edot). }
    cbn [readdir_loop]. rewrite readdir_step_kind.
    rewrite !has_entry_cons. cbn [filter] in *.
    destruct (is_subdir e) eqn:Ed.
    + assert (Ef : is_subfile e = false).
      { unfold is_subdir, is_subfile in *. destruct (negb _); [|reflexivity].
        simpl in *. apply Z.eqb_eq in Ed. rewrite Ed. reflexivity. }
      rewrite Ef in *. cbn [List.length map] in *.
      rewrite Hi, array_store_next by lia.
      replace (SUBDIRNO <=? Z.of_nat (List.length (subdir l)) + 1) with false
        by (symmetry; apply Z.leb_gt; lia).
      rewrite IH; cbn [subdir i j subfile has_dir_objects has_dir_refs
                       has_file_HEAD]; try rewrite length_app;
        cbn [List.length]; try lia; try assumption.
      unfold is_subdir in Ed. apply andb_true_iff in Ed. destruct Ed as [_ Ed].
      rewrite Ed. apply Z.eqb_eq in Ed. rewrite Ed.
      change (DT_DIR =? DT_REG) with false.
      rewrite !andb_true_r, andb_false_r, orb_false_l.
      rewrite <- !app_assoc. cbn [app].
      f_equal. f_equal; try lia.
      * now rewrite orb_assoc, (orb_comm (has_dir_objects l)).
      * now rewrite orb_assoc, (orb_comm (has_dir_refs l)).
    + destruct (is_subfile e) eqn:Ef.
      * cbn [List.length map] in *.
        rewrite Hj, array_store_next by lia.
        replace (SUBFILENO <=? Z.of_nat (List.length (subfile l)) + 1)
          with false by (symmetry; apply Z.leb_gt; lia).
        rewrite IH; cbn [subdir i j subfile has_dir_objects has_dir_refs
                         has_file_HEAD]; try rewrite length_app;
          cbn [List.length]; try lia; try assumption.
        unfold is_subfile in Ef. apply andb_true_iff in Ef.
        destruct Ef as [_ Ef].
        rewrite Ef. apply Z.eqb_eq in Ef. rewrite Ef.
        change (DT_REG =? DT_DIR) with false.
        rewrite !andb_true_r, !andb_false_r, !orb_false_l.
        rewrite <- !app_assoc. cbn [app].
        f_equal. f_equal; try lia.
        now rewrite orb_assoc, (orb_comm (has_file_HEAD l)).
      * rewrite Hue. rewrite IH by assumption.
        assert (Hno' : forall name type,
                   is_dot name = false -> (type = DT_DIR \/ type = DT_REG) ->
                   strcmp0 (d_name e) name && (d_type e =? type) = false).
        { intros name type Hname Htype.
          unfold is_subdir, is_subfile in *.
          destruct (is_dot (d_name e)) eqn:Edot.
          - now apply Hno.
          - simpl in *. destruct Htype as [->| ->].
            + rewrite Ed. apply andb_false_r.
            + rewrite Ef. apply andb_false_r. }
        rewrite !Hno'; auto.
Qed.

Lemma readdir_loop_ok (dirname : string) (ents : list dirent) :
  scan_ok ents = true ->
  readdir_loop dirname ents locals0 = Continue (scanned dirname ents).
Proof.
  unfold scan_ok. intros H.
  apply andb_true_iff in H. destruct H as [H Hf].
  apply andb_true_iff in H. destruct H as [Hu Hd].
  apply negb_true_iff in Hu. apply Z.ltb_lt in Hd, Hf.
  rewrite readdir_loop_from; try assumption; try reflexivity.
Qed.

(** Otherwise the loop stops the run, with one of its three messages. *)
Lemma readdir_loop_stops (dirname : string) (ents : list dirent) :
  forall l,
    i l = Z.of_nat (List.length (subdir l)) ->
    j l = Z.of_nat (List.length (subfile l)) ->
    i l < SUBDIRNO -> j l < SUBFILENO ->
    existsb is_unknown ents = true
    \/ SUBDIRNO <= i l + Z.of_nat (List.length (filter is_subdir ents))
    \/ SUBFILENO <= j l + Z.of_nat (List.length (filter is_subfile ents)) ->
    exists status msg,
      readdir_loop dirname ents l = Fatal status msg
      /\ ((status = -1 /\ msg = "ERROR: gitree: reach max dir num")
          \/ (status = -1 /\ msg = "ERROR: gitree: reach max file num")
          \/ (status = -2 /\ msg = "ERROR: gitree: unknown file type")).
Proof.
  induction ents as [|e ents IH]; intros l Hi Hj Hil Hjl H.
  - simpl in H. destruct H as [H|[H|H]]; [discriminate|lia|lia].
  - cbn [readdir_loop]. rewrite readdir_step_kind.
    cbn [existsb filter] in H.
    destruct (is_subdir e) eqn:Ed.
    + assert (Ef : is_subfile e = false).
      { unfold is_subdir, is_subfile in *. destruct (negb _); [|reflexivity].
        simpl in *. apply Z.eqb_eq in Ed. rewrite Ed. reflexivity. }
      assert (Eu : is_unknown e = false).
      { unfold is_subdir, is_unknown in *. destruct (negb _); [|reflexivity].
        simpl in *. apply Z.eqb_eq in Ed. rewrite Ed. reflexivity. }
      rewrite Ef, Eu in H. cbn [List.length orb] in H.
      rewrite Hi, array_store_next by lia.
      destruct (Z.leb_spec SUBDIRNO (Z.of_nat (List.length (subdir l)) + 1)).
      * eauto 6.
      * apply IH; cbn [subdir i j subfile]; try rewrite length_app;
          cbn [List.length]; try lia.
        destruct H as [H|[H|H]]; [now left|right; left; lia|right; right; lia].
    + destruct (is_subfile e) eqn:Ef.
      * assert (Eu : is_unknown e = false).
        { unfold is_subfile, is_unknown in *.
          destruct (negb _); [|reflexivity].
          simpl in *. apply Z.eqb_eq in Ef. rewrite Ef. reflexivity. }
        rewrite Eu in H. cbn [List.length orb] in H.
        rewrite Hj, array_store_next by lia.
        destruct (Z.leb_spec SUBFILENO
                             (Z.of_nat (List.length (subfile l)) + 1)).
        -- eauto 7.
        -- apply IH; cbn [subdir i j subfile]; try rewrite length_app;
             cbn [List.length]; try lia.
           destruct H as [H|[H|H]];
             [now left|right; left; lia|right; right; lia].
      * destruct (is_unknown e) eqn:Eu.
        -- eauto 8.
        -- apply IH; assumption.
Qed.

Lemma readdir_loop_not_ok (dirname : string) (ents : list dirent) :
  scan_ok ents = false ->
  exists status msg,
    readdir_loop dirname ents locals0 = Fatal status msg
    /\ ((status = -1 /\ msg = "ERROR: gitree: reach max dir num")
        \/ (status = -1 /\ msg = "ERROR: gitree: reach max file num")
        \/ (status = -2 /\ msg = "ERROR: gitree: unknown file type")).
Proof.
  unfold scan_ok. intros H.
  apply readdir_loop_stops; try reflexivity.
  apply andb_false_iff in H. destruct H as [H|H].
  - apply andb_false_iff in H. destruct H as [H|H].
    + left. now apply negb_false_iff in H.
    + right; left. apply Z.ltb_ge in H. exact H.
  - right; right. apply Z.ltb_ge in H. exact H.
Qed.
End V2_readdir.

Section V2_walk.
Import V2.

(** [gitree] on a directory that opens: the loop over [subdir] calls
    [gitree] on every directory child, in the order of the listing. *)
Lemma gitree_dir (dirname : string) (ents : list dirent) (st : state) :
  gitree dirname (Dir ents) st =
  match readdir_loop dirname ents locals0 with
  | OutOfRange => Undef
  | Fatal status msg =>
      Exit status (emit (Stderr msg) (emit (Checking dirname) st))
  | Continue l =>
      if has_dir_objects l && has_dir_refs l && has_file_HEAD l
      then check_gitree dirname (Dir ents) (emit (Checking dirname) st)
      else gitree_each (subdir_calls dirname ents)
             (fold_left (report_file dirname) (subfile l)
                        (emit (Checking dirname) st))
  end.
Proof.
  cbn [gitree].
  destruct (readdir_loop dirname ents locals0) as [l| |]; try reflexivity.
  destruct (has_dir_objects l && has_dir_refs l && has_file_HEAD l);
    [reflexivity|].
  generalize (fold_left (report_file dirname) (subfile l)
                        (emit (Checking dirname) st)).
  clear. induction ents as [|[n t sub] ents IH]; intros s; [reflexivity|].
  unfold subdir_calls. cbn [filter].
  destruct (is_subdir (Dirent n t sub)); cbn [map gitree_each target d_name].
  - destruct (gitree (child_path dirname n) sub s); try reflexivity.
    apply IH.
  - apply IH.
Qed.

(** The paths of the calls are the strings the readdir loop stored. *)
Lemma subdir_paths (dirname : string) (ents : list dirent) :
  map fst (subdir_calls dirname ents) = subdir (scanned dirname ents).
Proof.
  unfold subdir_calls, scanned. cbn [subdir]. now rewrite map_map.
Qed.

Lemma gitree_each_app (c1 c2 : list (string * dir)) (st : state) :
  gitree_each (c1 ++ c2) st =
  match gitree_each c1 st with
  | Ret st' => gitree_each c2 st'
  | stop => stop
  end.
Proof.
  revert st. induction c1 as [|[p d] c1 IH]; intros st; [reflexivity|].
  cbn [app gitree_each].
  destruct (gitree p d st); try reflexivity. apply IH.
Qed.
End V2_walk.

Section V2_events.
Import V2.

Lemma count_app (p : event -> bool) (a b : list event) :
  count p (a ++ b) = count p a + count p b.
Proof. unfold count. rewrite filter_app, length_app. lia. Qed.

Lemma advances_refl (st : state) : advances st st [].
Proof.
  unfold advances, count. simpl. rewrite app_nil_r. repeat split; lia.
Qed.

Lemma advances_trans (a b c : state) (e1 e2 : list event) :
  advances a b e1 -> advances b c e2 -> advances a c (e1 ++ e2).
Proof.
  unfold advances. intros (T1 & L1 & N1 & B1 & S1) (T2 & L2 & N2 & B2 & S2).
  rewrite !count_app, T2, T1, app_assoc. repeat split; lia.
Qed.

Lemma advances_emit (ev : event) (st : state) :
  is_layout ev = false -> is_name ev = false -> is_non_bare ev = false ->
  is_stray ev = false ->
  advances st (emit ev st) [ev].
Proof.
  intros H1 H2 H3 H4. unfold advances, count. cbn [filter].
  rewrite H1, H2, H3, H4. simpl. repeat split; lia.
Qed.

Lemma check_name_advances (dirname : string) (st : state) :
  advances st (check_name dirname st) (name_warnings dirname).
Proof.
  unfold check_name, name_warnings, name_is_dot_git, name_without_git.
  destruct (dir_name_with_git dirname); simpl.
  - destruct (strlen (last_dir dirname) =? 4); simpl;
      [|apply advances_refl].
    destruct (in_exception_list dirname); simpl; [apply advances_refl|].
    unfold advances, count. simpl. repeat split; lia.
  - unfold advances, count. simpl. repeat split; lia.
Qed.

Lemma check_entry_advances (dirname : string) (st : state) (e : dirent) :
  advances st (check_entry dirname st e) (layout_warnings dirname [e]).
Proof.
  unfold check_entry, git_files_array_size.
  rewrite scan_until_all, negb_involutive.
  unfold layout_warnings, breaks_layout, is_dot. cbn [filter].
  change (strcmp0 (d_name e)) with (String.eqb (d_name e)).
  destruct (String.eqb (d_name e) "."); cbn [orb negb andb map];
    [apply advances_refl|].
  destruct (String.eqb (d_name e) ".."); cbn [orb negb andb map];
    [apply advances_refl|].
  destruct (existsb (String.eqb (d_name e)) git_files); cbn [negb map];
    [apply advances_refl|].
  unfold advances, count. simpl. repeat split; lia.
Qed.

Lemma layout_warnings_cons (dirname : string) (e : dirent)
      (ents : list dirent) :
  layout_warnings dirname (e :: ents)
  = layout_warnings dirname [e] ++ layout_warnings dirname ents.
Proof.
  unfold layout_warnings. cbn [filter].
  now destruct (breaks_layout e).
Qed.

Lemma check_entries_advances (dirname : string) (ents : list dirent) :
  forall st,
    advances st (fold_left (check_entry dirname) ents st)
             (layout_warnings dirname ents).
Proof.
  induction ents as [|e ents IH]; intros st.
  - apply advances_refl.
  - rewrite layout_warnings_cons. cbn [fold_left].
    eapply advances_trans; [apply check_entry_advances|apply IH].
Qed.

(** [check_gitree] on a directory that opens returns, after the warnings
    about the name and the warnings about the layout. *)
Lemma check_gitree_dir (dirname : string) (ents : list dirent) (st : state) :
  exists st',
    check_gitree dirname (Dir ents) st = Ret st'
    /\ advances st st'
         (name_warnings dirname ++ layout_warnings dirname ents).
Proof.
  eexists. split; [reflexivity|].
  eapply advances_trans;
    [apply check_name_advances|apply check_entries_advances].
Qed.

Lemma report_files_advances (dirname : string) (names : list string) :
  forall st,
    advances st (fold_left (report_file dirname) names st)
             (if in_exception_list dirname then []
              else map (NotInGit dirname) names).
Proof.
  induction names as [|n names IH]; intros st.
  - destruct (in_exception_list dirname); apply advances_refl.
  - cbn [fold_left]. specialize (IH (report_file dirname st n)).
    unfold report_file in *.
    destruct (in_exception_list dirname); simpl in *; [exact IH|].
    change (NotInGit dirname n :: map (NotInGit dirname) names)
      with ([NotInGit dirname n] ++ map (NotInGit dirname) names).
    eapply advances_trans; [|exact IH].
    unfold advances, count. simpl. repeat split; lia.
Qed.

Lemma stray_warnings_scanned (dirname : string) (ents : list dirent) :
  (if in_exception_list dirname then []
   else map (NotInGit dirname) (subfile (scanned dirname ents)))
  = stray_warnings dirname ents.
Proof.
  unfold stray_warnings, scanned. cbn [subfile]. now rewrite map_map.
Qed.
End V2_events.

Section V2_outcome.
Import V2.

Lemma gitree_root (dirname : string) (ents : list dirent) (st : state) :
  scan_ok ents = true -> is_git_tree ents = true ->
  gitree dirname (Dir ents) st
  = check_gitree dirname (Dir ents) (emit (Checking dirname) st).
Proof.
  intros Hs Hr. rewrite gitree_dir, readdir_loop_ok by exact Hs.
  unfold is_git_tree in Hr. unfold scanned.
  cbn [has_dir_objects has_dir_refs has_file_HEAD]. now rewrite Hr.
Qed.

Lemma gitree_non_root (dirname : string) (ents : list dirent) (st : state) :
  scan_ok ents = true -> is_git_tree ents = false ->
  gitree dirname (Dir ents) st
  = gitree_each (subdir_calls dirname ents)
      (fold_left (report_file dirname) (subfile (scanned dirname ents))
                 (emit (Checking dirname) st)).
Proof.
  intros Hs Hr. rewrite gitree_dir, readdir_loop_ok by exact Hs.
  unfold is_git_tree in Hr. unfold scanned at 1 2 3.
  cbn [has_dir_objects has_dir_refs has_file_HEAD]. now rewrite Hr.
Qed.

Lemma gitree_fatal (dirname : string) (ents : list dirent) (st : state) :
  scan_ok ents = false ->
  exists status msg,
    gitree dirname (Dir ents) st
    = Exit status (emit (Stderr msg) (emit (Checking dirname) st))
    /\ ((status = -1 /\ msg = "ERROR: gitree: reach max dir num")
        \/ (status = -1 /\ msg = "ERROR: gitree: reach max file num")
        \/ (status = -2 /\ msg = "ERROR: gitree: unknown file type")).
Proof.
  intros Hs. destruct (readdir_loop_not_ok dirname ents Hs)
    as (status & msg & Hl & Hk).
  exists status, msg. split; [|exact Hk].
  now rewrite gitree_dir, Hl.
Qed.

Lemma outcome_weaken (ok ok' : event -> Prop) (st : state)
      (r : result state) :
  (forall ev, ok ev -> ok' ev) -> outcome ok st r -> outcome ok' st r.
Proof.
  intros Himp. destruct r as [st'|c st'|]; simpl; [| |exact (fun H => H)].
  - intros (evs & Ha & Hf). exists evs. split; [exact Ha|].
    eapply Forall_impl; [exact Himp|exact Hf].
  - intros (evs & msg & Ha & Hf & Hk). exists evs, msg.
    split; [exact Ha|]. split; [|exact Hk].
    eapply Forall_impl; [exact Himp|exact Hf].
Qed.

(** What was written before a call is written before its outcome. *)
Lemma outcome_after (ok : event -> Prop) (st0 st : state)
      (evs0 : list event) (r : result state) :
  advances st0 st evs0 -> Forall ok evs0 ->
  outcome ok st r -> outcome ok st0 r.
Proof.
  intros Ha0 Hf0. destruct r as [st'|c st'|]; simpl; [| |exact (fun H => H)].
  - intros (evs & Ha & Hf). exists (evs0 ++ evs). split.
    + eapply advances_trans; eassumption.
    + apply Forall_app. now split.
  - intros (evs & msg & Ha & Hf & Hk). exists (evs0 ++ evs), msg.
    split; [|split; [|exact Hk]].
    + rewrite <- app_assoc. eapply advances_trans; eassumption.
    + apply Forall_app. now split.
Qed.

Lemma gitree_each_outcome (dirname : string) (calls : list (string * dir)) :
  Forall (fun c =>
            (String.length dirname < String.length (fst c))%nat
            /\ forall st, outcome (stray_below (fst c)) st
                                  (gitree (fst c) (snd c) st)) calls ->
  forall st, outcome (stray_deeper dirname) st (gitree_each calls st).
Proof.
  induction 1 as [|[p d] calls [Hlen Hc] _ IH]; intros st.
  - simpl. exists []. split; [apply advances_refl|constructor].
  - cbn [gitree_each]. cbn [fst snd] in *.
    assert (Hdeeper : forall ev, stray_below p ev -> stray_deeper dirname ev).
    { intros [] Hev; simpl in *; try exact I. lia. }
    specialize (Hc st). apply (outcome_weaken _ _ _ _ Hdeeper) in Hc.
    destruct (gitree p d st) as [st'|c st'|]; [|exact Hc|exact Hc].
    destruct Hc as (evs & Ha & Hf).
    eapply outcome_after; [exact Ha|exact Hf|apply IH].
Qed.

Lemma no_stray_below (dirname : string) (evs : list event) :
  filter is_stray evs = [] -> Forall (stray_below dirname) evs.
Proof.
  induction evs as [|ev evs IH]; intros H; [constructor|].
  cbn [filter] in H. destruct (is_stray ev) eqn:E; [discriminate|].
  constructor; [|now apply IH]. now destruct ev.
Qed.

Lemma name_warnings_no_stray (dirname : string) :
  filter is_stray (name_warnings dirname) = [].
Proof.
  unfold name_warnings.
  now destruct (name_is_dot_git dirname && negb (in_exception_list dirname)),
      (name_without_git dirname).
Qed.

Lemma layout_warnings_no_stray (dirname : string) (ents : list dirent) :
  filter is_stray (layout_warnings dirname ents) = [].
Proof.
  unfold layout_warnings.
  induction (filter breaks_layout ents) as [|e l IH]; [reflexivity|exact IH].
Qed.

Lemma stray_warnings_below (dirname : string) (ents : list dirent) :
  Forall (stray_below dirname) (stray_warnings dirname ents).
Proof.
  unfold stray_warnings. destruct (in_exception_list dirname); [constructor|].
  induction (filter is_subfile ents) as [|e l IH]; [constructor|].
  constructor; [simpl; lia|exact IH].
Qed.

(** Every call of [gitree] returns or stops the run with one of the four
    messages; no store leaves the arrays; each warning is counted once; and
    the files reported are files of the directory itself or of directories
    below it. *)
Lemma gitree_outcome (d : dir) :
  forall dirname st, outcome (stray_below dirname) st (gitree dirname d st).
Proof.
  induction d as [|ents IH] using dir_ind; intros dirname st.
  - simpl. exists [], "gitree: opendir failed".
    split; [|split; [constructor|]].
    + apply advances_emit; reflexivity.
    + unfold fatal. tauto.
  - assert (Hchk : advances st (emit (Checking dirname) st)
                            [Checking dirname])
      by (apply advances_emit; reflexivity).
    destruct (scan_ok ents) eqn:Hs.
    + destruct (is_git_tree ents) eqn:Hr.
      * rewrite gitree_root by assumption.
        destruct (check_gitree_dir dirname ents (emit (Checking dirname) st))
          as (st' & -> & Ha).
        simpl. eexists. split; [eapply advances_trans; eassumption|].
        apply no_stray_below. rewrite !filter_app.
        now rewrite name_warnings_no_stray, layout_warnings_no_stray.
      * rewrite gitree_non_root by assumption.
        eapply outcome_after.
        -- eapply advances_trans; [exact Hchk|].
           apply (report_files_advances dirname
                    (subfile (scanned dirname ents))).
        -- rewrite stray_warnings_scanned. apply Forall_app. split.
           ++ now repeat constructor.
           ++ apply stray_warnings_below.
        -- apply (outcome_weaken (stray_deeper dirname));
             [|apply gitree_each_outcome].
           ++ intros [] Hev; simpl in *; try exact I. lia.
           ++ unfold subdir_calls. clear -IH.
              induction IH as [|e ents He _ IHe]; [constructor|].
              cbn [filter]. destruct (is_subdir e); [|exact IHe].
              cbn [map]. constructor; [|exact IHe].
              cbn [fst snd]. split; [apply child_path_length|].
              intros st. apply He.
    + destruct (gitree_fatal dirname ents st Hs) as (c & msg & -> & Hk).
      simpl. exists [Checking dirname], msg. split; [|split].
      * eapply advances_trans; [exact Hchk|].
        apply advances_emit; reflexivity.
      * now repeat constructor.
      * unfold fatal. tauto.
Qed.
End V2_outcome.

Section V2_names.
Import V2.

(** The test of line 139 says that the last component ends in ".git". *)
Lemma dir_name_with_git_suffix (dirname : string) :
  dir_name_with_git dirname = true
  <-> exists p, last_dir dirname = String.append p ".git".
Proof.
  unfold dir_name_with_git, strlen.
  set (b := last_dir dirname). split.
  - intros H. apply andb_true_iff in H. destruct H as [Hlen Hcmp].
    apply Z.leb_le in Hlen.
    set (n := Z.to_nat (Z.of_nat (String.length b) - 4)) in *.
    assert (Hn : (n + 4 = String.length b)%nat) by (unfold n; lia).
    destruct (ptr_add_split n b) as [p [Hb Hp]]; [lia|].
    exists p. rewrite Hb at 1. f_equal.
    apply (strncmp0_eq 4); [|reflexivity|exact Hcmp].
    apply (f_equal String.length) in Hb. rewrite length_append in Hb. lia.
  - intros [p Hb]. rewrite Hb, length_append. simpl String.length.
    apply andb_true_iff. split; [apply Z.leb_le; lia|].
    replace (Z.to_nat (Z.of_nat (String.length p + 4) - 4))
      with (String.length p) by lia.
    rewrite ptr_add_append. reflexivity.
Qed.

Lemma append_empty_length (p t : string) :
  String.length (String.append p t) = String.length t -> p = EmptyString.
Proof.
  rewrite length_append. destruct p; [reflexivity|simpl; lia].
Qed.

(** ... and the test of line 142, that it is ".git" itself. *)
Lemma name_is_dot_git_eq (dirname : string) :
  name_is_dot_git dirname = true <-> last_dir dirname = ".git".
Proof.
  unfold name_is_dot_git. rewrite andb_true_iff, dir_name_with_git_suffix.
  unfold strlen. split.
  - intros [[p Hp] Hlen]. apply Z.eqb_eq in Hlen.
    rewrite Hp in Hlen |- *.
    rewrite (append_empty_length p ".git"); [reflexivity|simpl; lia].
  - intros H. rewrite H. split; [now exists EmptyString|reflexivity].
Qed.

Lemma name_extends_git_eq (dirname : string) :
  name_extends_git dirname = true
  <-> exists c p, last_dir dirname = String.append (String c p) ".git".
Proof.
  unfold name_extends_git.
  rewrite andb_true_iff, dir_name_with_git_suffix, negb_true_iff.
  unfold strlen. split.
  - intros [[p Hp] Hlen]. apply Z.eqb_neq in Hlen.
    destruct p as [|c p]; [rewrite Hp in Hlen; simpl in Hlen; lia|].
    now exists c, p.
  - intros (c & p & Hp). split; [now exists (String c p)|].
    apply Z.eqb_neq. rewrite Hp, length_append. simpl. lia.
Qed.

(** C6.  The test on the name of a Git tree has three outcomes: the last
    component is ".git" itself (the non-bare warning), it does not end in
    ".git" (the warning about the name), or it is longer than ".git" and
    ends in it (no warning).  Exactly one of the three holds for a path,
    and one run of the test writes at most one of the two warnings. *)
Theorem name_outcomes_exclusive (dirname : string) :
  (name_is_dot_git dirname = true <-> last_dir dirname = ".git")
  /\ (name_without_git dirname = true
      <-> ~ exists p, last_dir dirname = String.append p ".git")
  /\ (name_extends_git dirname = true
      <-> exists c p, last_dir dirname = String.append (String c p) ".git")
  /\ ((name_is_dot_git dirname = true /\ name_without_git dirname = false
       /\ name_extends_git dirname = false)
      \/ (name_is_dot_git dirname = false /\ name_without_git dirname = true
          /\ name_extends_git dirname = false)
      \/ (name_is_dot_git dirname = false /\ name_without_git dirname = false
          /\ name_extends_git dirname = true))
  /\ (forall st,
        advances st (check_name dirname st) (name_warnings dirname)
        /\ name_warnings dirname
           = if name_is_dot_git dirname
             then if in_exception_list dirname then [] else [NonBare dirname]
             else if name_without_git dirname then [NameNotGit dirname]
                  else []).
Proof.
  split; [apply name_is_dot_git_eq|].
  split.
  { unfold name_without_git. rewrite negb_true_iff.
    rewrite <- dir_name_with_git_suffix.
    destruct (dir_name_with_git dirname); split; congruence. }
  split; [apply name_extends_git_eq|].
  split.
  { unfold name_is_dot_git, name_without_git, name_extends_git.
    destruct (dir_name_with_git dirname),
             (strlen (last_dir dirname) =? 4); simpl; tauto. }
  intros st. split; [apply check_name_advances|].
  unfold name_warnings, name_is_dot_git, name_without_git.
  destruct (dir_name_with_git dirname),
           (strlen (last_dir dirname) =? 4),
           (in_exception_list dirname); reflexivity.
Qed.
End V2_names.

Section V2_warnings.
Import V2.

Lemma filter_layout_warnings (p : event -> bool) (dirname : string)
      (ents : list dirent) :
  (forall name, p (BreaksLayout dirname name) = false) ->
  filter p (layout_warnings dirname ents) = [].
Proof.
  intros Hp. unfold layout_warnings.
  induction (filter breaks_layout ents) as [|e l IH]; [reflexivity|].
  cbn [map filter]. now rewrite Hp.
Qed.

Lemma filter_all_layout (dirname : string) (ents : list dirent) :
  filter is_layout (layout_warnings dirname ents)
  = layout_warnings dirname ents.
Proof.
  unfold layout_warnings.
  induction (filter breaks_layout ents) as [|e l IH]; [reflexivity|].
  cbn [map filter is_layout]. now rewrite IH.
Qed.

Lemma breaks_layout_spec (e : dirent) :
  breaks_layout e = true
  <-> d_name e <> "." /\ d_name e <> ".." /\ ~ In (d_name e) git_files.
Proof.
  unfold breaks_layout, is_dot, strcmp0.
  rewrite andb_true_iff, !negb_true_iff, orb_false_iff.
  rewrite !String.eqb_neq, <- existsb_eqb_In.
  destruct (existsb (String.eqb (d_name e)) git_files);
    intuition congruence.
Qed.

(** A Git tree: what [gitree] writes and counts. *)
Lemma gitree_root_report (dirname : string) (ents : list dirent)
      (st : state) :
  scan_ok ents = true -> is_git_tree ents = true ->
  exists st',
    gitree dirname (Dir ents) st = Ret st'
    /\ advances st st'
         ([Checking dirname] ++ name_warnings dirname
          ++ layout_warnings dirname ents).
Proof.
  intros Hs Hr. rewrite gitree_root by assumption.
  destruct (check_gitree_dir dirname ents (emit (Checking dirname) st))
    as (st' & Hc & Ha).
  exists st'. split; [exact Hc|].
  eapply advances_trans; [|exact Ha].
  apply advances_emit; reflexivity.
Qed.

(** C3, as the code has it.  For a Git tree whose last path component does
    not end in ".git", [gitree] writes the warning about the name once and
    adds one to its counter, whether or not the path is in the exception
    list. *)
Theorem name_warning_unconditional (dirname : string) (ents : list dirent)
        (st : state) :
  scan_ok ents = true -> is_git_tree ents = true ->
  name_without_git dirname = true ->
  exists st' evs,
    gitree dirname (Dir ents) st = Ret st'
    /\ advances st st' evs
    /\ filter is_name evs = [NameNotGit dirname]
    /\ sum_dir_name_not_with_git st' = sum_dir_name_not_with_git st + 1.
Proof.
  intros Hs Hr Hn.
  destruct (gitree_root_report dirname ents st Hs Hr) as (st' & Hg & Ha).
  assert (Hf : filter is_name
                 ([Checking dirname] ++ name_warnings dirname
                  ++ layout_warnings dirname ents) = [NameNotGit dirname]).
  { rewrite !filter_app, filter_layout_warnings by reflexivity.
    unfold name_warnings, name_is_dot_git. rewrite Hn.
    unfold name_without_git in Hn. apply negb_true_iff in Hn.
    now rewrite Hn. }
  exists st'. eexists. split; [exact Hg|]. split; [exact Ha|].
  split; [exact Hf|].
  destruct Ha as (_ & _ & Hc & _). rewrite Hc. unfold count. now rewrite Hf.
Qed.

Lemma name_warning_unconditional_witness :
  exists st' evs,
    gitree "/srv/git/project"
           (Dir [Dirent "objects" DT_DIR (Dir []);
                 Dirent "refs" DT_DIR (Dir []);
                 Dirent "HEAD" DT_REG Unreadable]) state0 = Ret st'
    /\ advances state0 st' evs
    /\ filter is_name evs = [NameNotGit "/srv/git/project"]
    /\ sum_dir_name_not_with_git st' = sum_dir_name_not_with_git state0 + 1.
Proof.
  apply name_warning_unconditional; reflexivity.
Defined.

(** C3, as the claim has it, fails: the path below is in the exception
    list, and the warning about its name is written and counted all the
    same. *)
Lemma name_warning_in_exception_list :
  let dirname := "/git/android/.repo/manifests" in
  let ents := [Dirent "objects" DT_DIR (Dir []);
               Dirent "refs" DT_DIR (Dir []);
               Dirent "HEAD" DT_REG Unreadable] in
  in_exception_list dirname = true
  /\ name_without_git dirname = true
  /\ scan_ok ents = true /\ is_git_tree ents = true
  /\ gitree dirname (Dir ents) state0
     = Ret (mkState 0 1 0 0 [Checking dirname; NameNotGit dirname]).
Proof. repeat split. Qed.

(** C4.  For a Git tree, the entries of the listing other than "." and ".."
    whose name is not in [git_files] (compared with [strcmp]) give one
    warning about the layout each, in the order of the listing, and one
    step of the counter each; a name that is in [git_files] gives none.
    Nothing but the names of the entries is used. *)
Theorem layout_check (dirname : string) (ents : list dirent) (st : state) :
  scan_ok ents = true -> is_git_tree ents = true ->
  exists st' evs,
    gitree dirname (Dir ents) st = Ret st'
    /\ advances st st' evs
    /\ filter is_layout evs
       = map (fun e => BreaksLayout dirname (d_name e))
             (filter breaks_layout ents)
    /\ sum_break_layout_rule st'
       = sum_break_layout_rule st
         + Z.of_nat (List.length (filter breaks_layout ents))
    /\ (forall e, breaks_layout e = true
                  <-> d_name e <> "." /\ d_name e <> ".."
                      /\ ~ In (d_name e) git_files)
    /\ (forall name, In name git_files ->
                     ~ In (BreaksLayout dirname name) evs).
Proof.
  intros Hs Hr.
  destruct (gitree_root_report dirname ents st Hs Hr) as (st' & Hg & Ha).
  assert (Hf : filter is_layout
                 ([Checking dirname] ++ name_warnings dirname
                  ++ layout_warnings dirname ents)
               = layout_warnings dirname ents).
  { rewrite !filter_app, filter_all_layout.
    unfold name_warnings.
    now destruct (name_is_dot_git dirname && negb (in_exception_list dirname)),
        (name_without_git dirname). }
  exists st'. eexists. split; [exact Hg|]. split; [exact Ha|].
  split; [exact Hf|]. split.
  { destruct Ha as (_ & Hc & _). rewrite Hc. unfold count. rewrite Hf.
    unfold layout_warnings. now rewrite length_map. }
  split; [exact breaks_layout_spec|].
  intros name Hin Hev.
  assert (Hl : In (BreaksLayout dirname name) (layout_warnings dirname ents)).
  { rewrite <- Hf. apply filter_In. now split. }
  unfold layout_warnings in Hl. apply in_map_iff in Hl.
  destruct Hl as (e & He & Hine). apply filter_In in Hine.
  destruct Hine as [_ Hb]. apply breaks_layout_spec in Hb.
  injection He as He. subst name. tauto.
Qed.

Lemma layout_check_witness :
  exists st' evs,
    gitree "/r/proj/.git"
           (Dir [Dirent "." DT_DIR Unreadable;
                 Dirent ".." DT_DIR Unreadable;
                 Dirent "objects" DT_DIR (Dir []);
                 Dirent "refs" DT_DIR (Dir []);
                 Dirent "HEAD" DT_REG Unreadable;
                 Dirent "config" DT_REG Unreadable;
                 Dirent "junk.bin" DT_REG Unreadable]) state0 = Ret st'
    /\ advances state0 st' evs
    /\ filter is_layout evs = [BreaksLayout "/r/proj/.git" "junk.bin"]
    /\ sum_break_layout_rule st' = 1.
Proof.
  destruct (layout_check "/r/proj/.git"
              [Dirent "." DT_DIR Unreadable;
               Dirent ".." DT_DIR Unreadable;
               Dirent "objects" DT_DIR (Dir []);
               Dirent "refs" DT_DIR (Dir []);
               Dirent "HEAD" DT_REG Unreadable;
               Dirent "config" DT_REG Unreadable;
               Dirent "junk.bin" DT_REG Unreadable] state0)
    as (st' & evs & Hg & Ha & Hf & Hc & _); [reflexivity|reflexivity|].
  exists st', evs. repeat split; try apply Ha; assumption.
Defined.
End V2_warnings.

Section V2_stray.
Import V2.

Lemma subdir_calls_outcome (dirname : string) (ents : list dirent) :
  Forall (fun c =>
            (String.length dirname < String.length (fst c))%nat
            /\ forall st, outcome (stray_below (fst c)) st
                                  (gitree (fst c) (snd c) st))
         (subdir_calls dirname ents).
Proof.
  unfold subdir_calls. apply Forall_forall. intros c Hc.
  apply in_map_iff in Hc. destruct Hc as (e & <- & _). cbn [fst snd].
  split; [apply child_path_length|]. intros st. apply gitree_outcome.
Qed.

Lemma filter_stray_of_deeper (dirname : string) (evs : list event) :
  Forall (stray_deeper dirname) evs ->
  filter (is_stray_of dirname) evs = [].
Proof.
  induction 1 as [|ev evs Hev _ IH]; [reflexivity|].
  cbn [filter]. rewrite IH.
  destruct ev as [| | | |d f| |]; try reflexivity.
  simpl in *. destruct (String.eqb_spec d dirname) as [->|]; [lia|reflexivity].
Qed.

Lemma filter_stray_of_warnings (dirname : string) (ents : list dirent) :
  filter (is_stray_of dirname) (stray_warnings dirname ents)
  = stray_warnings dirname ents.
Proof.
  unfold stray_warnings. destruct (in_exception_list dirname); [reflexivity|].
  induction (filter is_subfile ents) as [|e l IH]; [reflexivity|].
  cbn [map filter is_stray_of]. now rewrite String.eqb_refl, IH.
Qed.

(** A directory that is no Git tree: what [gitree] has written when the
    walk below it is over or has stopped the run. *)
Lemma gitree_non_root_report (dirname : string) (ents : list dirent)
      (st : state) :
  scan_ok ents = true -> is_git_tree ents = false ->
  exists st' evs,
    (gitree dirname (Dir ents) st = Ret st'
     \/ exists status, gitree dirname (Dir ents) st = Exit status st')
    /\ advances st st'
         ([Checking dirname] ++ stray_warnings dirname ents ++ evs)
    /\ filter (is_stray_of dirname) evs = [].
Proof.
  intros Hs Hr. rewrite gitree_non_root by assumption.
  set (st2 := fold_left (report_file dirname)
                (subfile (scanned dirname ents))
                (emit (Checking dirname) st)).
  assert (Ha2 : advances st st2
                  ([Checking dirname] ++ stray_warnings dirname ents)).
  { eapply advances_trans; [apply advances_emit; reflexivity|].
    rewrite <- stray_warnings_scanned. apply report_files_advances. }
  pose proof (gitree_each_outcome dirname _
                (subdir_calls_outcome dirname ents) st2) as Ho.
  destruct (gitree_each (subdir_calls dirname ents) st2) as [st'|c st'|];
    simpl in Ho; [| |contradiction].
  - destruct Ho as (evs & Ha & Hf). exists st', evs. split; [now left|].
    split; [|now apply filter_stray_of_deeper].
    rewrite app_assoc. eapply advances_trans; eassumption.
  - destruct Ho as (evs & msg & Ha & Hf & _).
    exists st', (evs ++ [Stderr msg]). split; [right; now exists c|].
    split.
    + rewrite app_assoc. eapply advances_trans; eassumption.
    + rewrite filter_app, filter_stray_of_deeper by exact Hf. reflexivity.
Qed.

Lemma gitree_each_ok (ok : event -> Prop) (calls : list (string * dir)) :
  Forall (fun c => forall st, outcome ok st (gitree (fst c) (snd c) st))
         calls ->
  forall st, outcome ok st (gitree_each calls st).
Proof.
  induction 1 as [|[p d] calls Hc _ IH]; intros st.
  - simpl. exists []. split; [apply advances_refl|constructor].
  - cbn [gitree_each]. cbn [fst snd] in Hc. specialize (Hc st).
    destruct (gitree p d st) as [st'|c st'|]; [|exact Hc|exact Hc].
    destruct Hc as (evs & Ha & Hf).
    eapply outcome_after; [exact Ha|exact Hf|apply IH].
Qed.

Lemma no_stray_reported (dirname : string) (d : dir) (evs : list event) :
  filter is_stray evs = [] -> Forall (reported_from dirname d) evs.
Proof.
  induction evs as [|ev evs IH]; intros H; [constructor|].
  cbn [filter] in H. destruct (is_stray ev) eqn:E; [discriminate|].
  constructor; [|now apply IH]. now destruct ev.
Qed.

(** The files a walk reports are regular files of directories that are no
    Git trees and that the walk reaches through directories that are no
    Git trees. *)
Lemma gitree_reports (d : dir) :
  forall dirname st,
    outcome (reported_from dirname d) st (gitree dirname d st).
Proof.
  induction d as [|ents IH] using dir_ind; intros dirname st.
  - simpl. exists [], "gitree: opendir failed".
    split; [|split; [constructor|]].
    + apply advances_emit; reflexivity.
    + unfold fatal. tauto.
  - assert (Hchk : advances st (emit (Checking dirname) st)
                            [Checking dirname])
      by (apply advances_emit; reflexivity).
    destruct (scan_ok ents) eqn:Hs.
    + destruct (is_git_tree ents) eqn:Hr.
      * destruct (gitree_root_report dirname ents st Hs Hr)
          as (st' & -> & Ha).
        simpl. eexists. split; [exact Ha|].
        apply no_stray_reported. rewrite !filter_app.
        now rewrite name_warnings_no_stray, layout_warnings_no_stray.
      * rewrite gitree_non_root by assumption.
        eapply outcome_after.
        -- eapply advances_trans; [exact Hchk|].
           apply (report_files_advances dirname
                    (subfile (scanned dirname ents))).
        -- rewrite stray_warnings_scanned. apply Forall_app. split.
           ++ now repeat constructor.
           ++ unfold stray_warnings.
              destruct (in_exception_list dirname); [constructor|].
              apply Forall_forall. intros ev Hev.
              apply in_map_iff in Hev. destruct Hev as (e & <- & He).
              simpl. exists ents. repeat split; try assumption.
              ** constructor.
              ** now apply in_map.
        -- apply gitree_each_ok. unfold subdir_calls.
           apply Forall_forall. intros c Hc.
           apply in_map_iff in Hc. destruct Hc as (e & <- & He).
           apply filter_In in He. destruct He as [Hin He].
           cbn [fst snd]. intros s.
           eapply outcome_weaken;
             [|exact (proj1 (Forall_forall _ _) IH e Hin _ s)].
           intros [] Hev; try exact I. simpl in *.
           destruct Hev as (l & Hen & Hl).
           exists l. split; [|exact Hl].
           now apply (enters_child dirname ents e).
    + destruct (gitree_fatal dirname ents st Hs) as (c & msg & -> & Hk).
      simpl. exists [Checking dirname], msg. split; [|split].
      * eapply advances_trans; [exact Hchk|].
        apply advances_emit; reflexivity.
      * now repeat constructor.
      * unfold fatal. tauto.
Qed.

(** C5.  In a directory that is no Git tree, each regular file of the
    listing gives one warning "not in a git tree" and one step of the
    counter, unless the path of the directory is in the exception list,
    and then none does; nothing else a walk from there writes is a warning
    about a file of this directory.  A walk that starts at a Git tree
    writes no such warning at all and leaves the counter as it is.  And in
    any walk, a file that is reported is a regular file of a directory
    that is no Git tree and that the walk has reached through directories
    that are no Git trees: nothing below a Git tree is reported. *)
Theorem stray_files (dirname : string) (ents : list dirent) (st : state) :
  outcome (reported_from dirname (Dir ents)) st
          (gitree dirname (Dir ents) st)
  /\ (scan_ok ents = true -> is_git_tree ents = false ->
      exists st' evs,
        (gitree dirname (Dir ents) st = Ret st'
         \/ exists status, gitree dirname (Dir ents) st = Exit status st')
        /\ advances st st' evs
        /\ filter (is_stray_of dirname) evs
           = (if in_exception_list dirname then []
              else map (fun e => NotInGit dirname (d_name e))
                       (filter is_subfile ents))
        /\ sum_not_in_git st' = sum_not_in_git st + count is_stray evs)
  /\ (scan_ok ents = true -> is_git_tree ents = true ->
      exists st' evs,
        gitree dirname (Dir ents) st = Ret st'
        /\ advances st st' evs
        /\ filter is_stray evs = []
        /\ sum_not_in_git st' = sum_not_in_git st).
Proof.
  split; [apply gitree_reports|]. split; intros Hs Hr.
  - destruct (gitree_non_root_report dirname ents st Hs Hr)
      as (st' & evs & Hg & Ha & Hf).
    exists st'. eexists. split; [exact Hg|]. split; [exact Ha|]. split.
    + rewrite !filter_app, Hf, app_nil_r. cbn [filter is_stray_of app].
      apply filter_stray_of_warnings.
    + apply Ha.
  - destruct (gitree_root_report dirname ents st Hs Hr) as (st' & Hg & Ha).
    assert (Hf : filter is_stray
                   ([Checking dirname] ++ name_warnings dirname
                    ++ layout_warnings dirname ents) = []).
    { rewrite !filter_app, name_warnings_no_stray, layout_warnings_no_stray.
      reflexivity. }
    exists st'. eexists. split; [exact Hg|]. split; [exact Ha|].
    split; [exact Hf|].
    destruct Ha as (_ & _ & _ & _ & Hc). rewrite Hc. unfold count.
    rewrite Hf. simpl. lia.
Qed.

Lemma stray_files_witness :
  (exists st' evs,
     gitree "/r/proj"
            (Dir [Dirent ".git" DT_DIR
                    (Dir [Dirent "objects" DT_DIR (Dir []);
                          Dirent "refs" DT_DIR (Dir []);
                          Dirent "HEAD" DT_REG Unreadable;
                          Dirent "junk.bin" DT_REG Unreadable]);
                  Dirent "README.md" DT_REG Unreadable]) state0 = Ret st'
     /\ advances state0 st' evs
     /\ filter (is_stray_of "/r/proj") evs = [NotInGit "/r/proj" "README.md"]
     /\ sum_not_in_git st' = 1)
  /\ (exists st' evs,
        gitree "/r/proj/.git"
               (Dir [Dirent "objects" DT_DIR (Dir []);
                     Dirent "refs" DT_DIR (Dir []);
                     Dirent "HEAD" DT_REG Unreadable;
                     Dirent "junk.bin" DT_REG Unreadable]) state0 = Ret st'
        /\ advances state0 st' evs
        /\ filter is_stray evs = []
        /\ sum_not_in_git st' = 0).
Proof.
  split.
  - destruct (stray_files "/r/proj"
                [Dirent ".git" DT_DIR
                   (Dir [Dirent "objects" DT_DIR (Dir []);
                         Dirent "refs" DT_DIR (Dir []);
                         Dirent "HEAD" DT_REG Unreadable;
                         Dirent "junk.bin" DT_REG Unreadable]);
                 Dirent "README.md" DT_REG Unreadable] state0)
      as (_ & H & _).
    destruct H as (st' & evs & Hg & Ha & Hf & Hc);
      [reflexivity|reflexivity|].
    exists st', evs. destruct Hg as [Hg|[c Hg]]; [|discriminate Hg].
    split; [exact Hg|]. split; [exact Ha|]. split; [exact Hf|].
    injection Hg as <-. reflexivity.
  - destruct (stray_files "/r/proj/.git"
                [Dirent "objects" DT_DIR (Dir []);
                 Dirent "refs" DT_DIR (Dir []);
                 Dirent "HEAD" DT_REG Unreadable;
                 Dirent "junk.bin" DT_REG Unreadable] state0)
      as (_ & _ & H).
    destruct H as (st' & evs & Hg & Ha & Hf & Hc);
      [reflexivity|reflexivity|].
    exists st', evs. repeat split; try apply Ha; assumption.
Defined.
End V2_stray.

(** ** Paths *)

Section paths.

Lemma append_assoc (a b c : string) :
  String.append (String.append a b) c = String.append a (String.append b c).
Proof. induction a as [|x a IH]; simpl; [reflexivity|now rewrite IH]. Qed.

Lemma append_nil_r (a : string) : String.append a EmptyString = a.
Proof. induction a as [|x a IH]; simpl; [reflexivity|now rewrite IH]. Qed.

Lemma only_slashes_append (a b : string) :
  only_slashes (String.append a b) = only_slashes a && only_slashes b.
Proof.
  induction a as [|x a IH]; simpl; [reflexivity|].
  now rewrite IH, andb_assoc.
Qed.

(** A string that is not empty is a string and one last character. *)
Lemma string_last (s : string) :
  forall n, String.length s = S n ->
  exists c, String.get n s = Some c
            /\ s = String.append (String.substring 0 n s) (String c EmptyString)
            /\ String.length (String.substring 0 n s) = n.
Proof.
  induction s as [|a s IH]; intros n Hlen; [discriminate|].
  destruct n as [|m].
  - destruct s; [|discriminate]. exists a. now repeat split.
  - simpl in Hlen. injection Hlen as Hlen.
    destruct (IH m Hlen) as (c & Hget & Hs & Hl).
    exists c. simpl. repeat split; [exact Hget|now rewrite <- Hs|now rewrite Hl].
Qed.

Lemma append_last_inj (a b : string) (x y : ascii) :
  String.append a (String x EmptyString)
  = String.append b (String y EmptyString) ->
  a = b /\ x = y.
Proof.
  revert b. induction a as [|c a IH]; intros [|d b] H; simpl in H.
  - injection H as ->. now split.
  - injection H as _ H. destruct b; discriminate.
  - injection H as _ H. destruct a; discriminate.
  - injection H as -> H. destruct (IH _ H) as [-> ->]. now split.
Qed.

Lemma slash_free_strrchr (s : string) :
  slash_free s = true <-> strrchr s "/"%char = None.
Proof.
  induction s as [|c s IH]; simpl; [tauto|].
  rewrite andb_true_iff, negb_true_iff, IH.
  destruct (strrchr s "/"%char); destruct (Ascii.eqb c "/"%char);
    split; try tauto; try discriminate; intros [? ?]; discriminate.
Qed.

(** What [strrchr] points to begins with the character, has no other
    occurrence of it, and is the end of the string. *)
Lemma strrchr_some (c : ascii) (s : string) :
  forall r, strrchr s c = Some r ->
  exists p r', s = String.append p r /\ r = String c r'
               /\ strrchr r' c = None.
Proof.
  induction s as [|x s IH]; intros r H; simpl in H; [discriminate|].
  destruct (strrchr s c) as [r0|] eqn:E.
  - injection H as <-. destruct (IH r0 eq_refl) as (p & r' & Hs & Hr & Hn).
    exists (String x p), r'. simpl. now rewrite <- Hs.
  - destruct (Ascii.eqb_spec x c) as [->|]; [|discriminate].
    injection H as <-. exists EmptyString, s. now repeat split.
Qed.

Lemma strrchr_child (dirname name : string) :
  slash_free name = true ->
  strrchr (child_path dirname name) "/"%char
  = Some (String "/"%char name).
Proof.
  intros Hn. apply slash_free_strrchr in Hn. unfold child_path.
  induction dirname as [|x d IH]; simpl.
  - now rewrite Hn.
  - simpl in IH. now rewrite IH.
Qed.

Lemma strip_slashes_end (n : nat) :
  forall s, String.length s = n ->
  match V2.strip_slashes s n with
  | Some dirname =>
      (exists t, s = String.append dirname t /\ only_slashes t = true)
      /\ dirname <> EmptyString
      /\ forall p, dirname <> String.append p "/"
  | None => only_slashes s = true
  end.
Proof.
  induction n as [|m IH]; intros s Hlen.
  - destruct s; [reflexivity|discriminate].
  - destruct (string_last s m Hlen) as (c & Hget & Hs & Hl).
    cbn [V2.strip_slashes]. rewrite Hget.
    destruct (Ascii.eqb_spec c "/"%char) as [->|Hc].
    + specialize (IH _ Hl).
      destruct (V2.strip_slashes (String.substring 0 m s) m) as [d|].
      * destruct IH as ((t & Ht & Hsl) & Hne & Hend).
        split; [|now split].
        exists (String.append t "/"). rewrite Hs at 1. rewrite Ht at 1.
        rewrite append_assoc. split; [reflexivity|].
        now rewrite only_slashes_append, Hsl.
      * rewrite Hs, only_slashes_append, IH. reflexivity.
    + split; [|split].
      * exists EmptyString. now rewrite append_nil_r.
      * intros ->. discriminate.
      * intros p Hp. rewrite Hs in Hp. apply append_last_inj in Hp.
        now destruct Hp.
Qed.
End paths.

Section V2_exit.
Import V2.

(** The loop of [main] over the end of its argument is defined exactly on
    the arguments that are not made of slashes. *)
Lemma only_slashes_last (d : string) :
  only_slashes d = true -> d <> EmptyString ->
  exists p, d = String.append p "/".
Proof.
  intros Hd Hne. destruct (String.length d) as [|m] eqn:Hlen.
  - destruct d; [congruence|discriminate].
  - destruct (string_last d m Hlen) as (c & _ & Hs & _).
    rewrite Hs, only_slashes_append in Hd.
    apply andb_true_iff in Hd. destruct Hd as [_ Hc]. simpl in Hc.
    rewrite andb_true_r in Hc. apply Ascii.eqb_eq in Hc. subst c.
    now exists (String.substring 0 m d).
Qed.

Lemma strip_slashes_defined (arg : string) :
  if only_slashes arg
  then strip_slashes arg (String.length arg) = None
  else exists dirname, strip_slashes arg (String.length arg) = Some dirname.
Proof.
  pose proof (strip_slashes_end _ arg eq_refl) as H.
  destruct (strip_slashes arg (String.length arg)) as [d|].
  - destruct H as ((t & Ht & Hsl) & Hne & Hend).
    destruct (only_slashes arg) eqn:E; [|now exists d].
    rewrite Ht, only_slashes_append in E.
    apply andb_true_iff in E. destruct E as [Hd _].
    destruct (only_slashes_last d Hd Hne) as [p Hp].
    now destruct (Hend p).
  - now rewrite H.
Qed.

Lemma completes_dir (ents : list dirent) :
  completes (Dir ents)
  = scan_ok ents
    && (is_git_tree ents
        || forallb (fun e => negb (is_subdir e) || completes (target e))
                   ents).
Proof.
  cbn [completes]. do 2 f_equal.
  induction ents as [|[n t sub] ents IH]; [reflexivity|].
  cbn [forallb target]. now rewrite IH.
Qed.

Lemma subdir_calls_app (dirname : string) (a b : list dirent) :
  subdir_calls dirname (a ++ b)
  = subdir_calls dirname a ++ subdir_calls dirname b.
Proof. unfold subdir_calls. now rewrite filter_app, map_app. Qed.

(** The calls for the directories of a listing return when the walk of
    each goes through, and stop the run at the first that does not. *)
Lemma gitree_each_completes (dirname : string) (ents : list dirent) :
  Forall (fun e =>
            forall path st,
              if completes (target e)
              then exists st', gitree path (target e) st = Ret st'
              else exists c st', gitree path (target e) st = Exit c st')
         ents ->
  forall st,
    if forallb (fun e => negb (is_subdir e) || completes (target e)) ents
    then exists st', gitree_each (subdir_calls dirname ents) st = Ret st'
    else exists c st',
           gitree_each (subdir_calls dirname ents) st = Exit c st'.
Proof.
  induction 1 as [|e ents He _ IH]; intros st.
  - now exists st.
  - unfold subdir_calls. cbn [forallb filter].
    destruct (is_subdir e); cbn [negb orb map gitree_each]; [|apply IH].
    specialize (He (child_path dirname (d_name e)) st).
    destruct (completes (target e)); cbn [andb].
    + destruct He as [st' ->]. apply IH.
    + destruct He as (c & st' & ->). now exists c, st'.
Qed.

(** A walk returns on the trees it goes through, and on no other. *)
Lemma completes_spec (d : dir) :
  forall dirname st,
    if completes d
    then exists st', gitree dirname d st = Ret st'
    else exists c st', gitree dirname d st = Exit c st'.
Proof.
  induction d as [|ents IH] using dir_ind; intros dirname st.
  - cbn [completes gitree]. eauto.
  - rewrite completes_dir. destruct (scan_ok ents) eqn:Hs; cbn [andb].
    + destruct (is_git_tree ents) eqn:Hr; cbn [orb].
      * rewrite gitree_root by assumption.
        destruct (check_gitree_dir dirname ents (emit (Checking dirname) st))
          as (st' & -> & _).
        now exists st'.
      * rewrite gitree_non_root by assumption.
        apply gitree_each_completes. exact IH.
    + destruct (gitree_fatal dirname ents st Hs) as (c & msg & -> & _).
      eauto.
Qed.

Lemma gitree_each_before (dirname : string) (before : list dirent) :
  Forall (fun b => is_subdir b = true -> completes (target b) = true)
         before ->
  forall st,
  exists st', gitree_each (subdir_calls dirname before) st = Ret st'.
Proof.
  induction 1 as [|b before Hb _ IH]; intros st; [now exists st|].
  unfold subdir_calls. cbn [filter].
  destruct (is_subdir b); [|apply IH]. cbn [map gitree_each].
  pose proof (completes_spec (target b) (child_path dirname (d_name b)) st)
    as Hc.
  rewrite (Hb eq_refl) in Hc. destruct Hc as [st' ->]. apply IH.
Qed.

(** Where the walk gets to a call that stops the run, the run stops there,
    with that call's status and message. *)
Lemma reaches_stops (dirname : string) (d : dir) (path : string) (d' : dir) :
  reaches dirname d path d' ->
  forall st,
  exists st1,
    forall c s, gitree path d' st1 = Exit c s ->
                gitree dirname d st = Exit c s.
Proof.
  induction 1 as [dirname d|dirname before e after path d' Hs Hr Hb He _ IH];
    intros st.
  - now exists st.
  - rewrite gitree_non_root by assumption.
    rewrite subdir_calls_app, gitree_each_app.
    destruct (gitree_each_before dirname before Hb
                (fold_left (report_file dirname)
                   (subfile (scanned dirname (before ++ e :: after)))
                   (emit (Checking dirname) st))) as [sb ->].
    destruct (IH sb) as [st1 H1]. exists st1. intros c s Hx.
    unfold subdir_calls. cbn [filter]. rewrite He. cbn [map gitree_each].
    now rewrite (H1 c s Hx).
Qed.

Lemma readdir_loop_app (dirname : string) (a b : list dirent) :
  forall l,
    readdir_loop dirname (a ++ b) l
    = match readdir_loop dirname a l with
      | Continue l' => readdir_loop dirname b l'
      | stop => stop
      end.
Proof.
  induction a as [|e a IH]; intros l; [reflexivity|].
  cbn [app readdir_loop].
  destruct (readdir_step dirname l e); try reflexivity. apply IH.
Qed.

(** An entry of unknown type stops the loop with status -2 when the loop
    gets to it. *)
Lemma readdir_loop_unknown_first (dirname : string) (before : list dirent)
      (e : dirent) (after : list dirent) :
  scan_ok before = true -> is_unknown e = true ->
  readdir_loop dirname (before ++ e :: after) locals0
  = Fatal (-2) "ERROR: gitree: unknown file type".
Proof.
  intros Hs Hu. rewrite readdir_loop_app, (readdir_loop_ok _ _ Hs).
  cbn [readdir_loop]. rewrite readdir_step_kind, Hu.
  unfold is_unknown in Hu. apply andb_true_iff in Hu.
  destruct Hu as [Hdot Ht]. apply Z.eqb_eq in Ht.
  unfold is_subdir, is_subfile. rewrite Hdot, Ht. reflexivity.
Qed.

Lemma forallb_first {A : Type} (p : A -> bool) (l : list A) :
  forallb p l = false ->
  exists before x after,
    l = before ++ x :: after /\ forallb p before = true /\ p x = false.
Proof.
  induction l as [|x l IH]; intros H; [discriminate|].
  cbn [forallb] in H. destruct (p x) eqn:Hx.
  - destruct (IH H) as (before & y & after & -> & Hb & Hy).
    exists (x :: before), y, after. cbn [forallb]. now rewrite Hx, Hb.
  - now exists [], x, l.
Qed.

(** A walk that does not go through gets to a directory that does not
    open, or to a listing the readdir loop stops at. *)
Lemma not_completes_reaches (d : dir) :
  completes d = false ->
  forall dirname,
  exists path d', reaches dirname d path d' /\ stops_walk d'.
Proof.
  induction d as [|ents IH] using dir_ind; intros Hc dirname.
  - exists dirname, Unreadable. split; [constructor|now left].
  - rewrite completes_dir in Hc.
    destruct (scan_ok ents) eqn:Hs; cbn [andb] in Hc.
    + apply orb_false_elim in Hc. destruct Hc as [Hr Hall].
      destruct (forallb_first _ _ Hall)
        as (before & e & after & -> & Hb & He).
      apply orb_false_elim in He. destruct He as [He Hce].
      apply negb_false_iff in He.
      assert (Hin : In e (before ++ e :: after))
        by (apply in_elt).
      destruct (proj1 (Forall_forall _ _) IH e Hin Hce
                  (child_path dirname (d_name e)))
        as (path & d' & Hreach & Hstop).
      exists path, d'. split; [|exact Hstop].
      apply reaches_child; try assumption.
      apply Forall_forall. intros b Hinb Hsub.
      rewrite forallb_forall in Hb. specialize (Hb b Hinb).
      now rewrite Hsub in Hb.
    + exists dirname, (Dir ents). split; [constructor|].
      right. now exists ents.
Qed.

(** C7.  A run on an argument that is not made of slashes ends by its
    tree.  When the walk goes through (every directory it enters opens,
    none has an entry of unknown type or fills an array) the run ends with
    status 0, whatever the counters hold.  When the walk gets to a
    directory that does not open, at any depth, the run ends there with
    status -1 and [gitree: opendir failed].  When the walk gets to a
    listing whose readdir loop comes to an entry of unknown type, the run
    ends there with status -2 and [ERROR: gitree: unknown file type].  A
    walk that does not go through gets to a directory that does not open
    or to a listing the readdir loop stops at, and the run ends with -1 or
    -2.  The shell sees 0, 255 and 254.  On an argument made of slashes
    the loop of [main] reads [argv[1][-1]]. *)
Theorem exit_status (prog arg : string) (root : dir) :
  (only_slashes arg = true -> main [prog; arg] root = Undef)
  /\ (only_slashes arg = false ->
      exists dirname,
        strip_slashes arg (String.length arg) = Some dirname
        /\ (completes root = true ->
            exists st,
              gitree dirname root state0 = Ret st
              /\ main [prog; arg] root
                 = Exit 0 (emit (CheckResult (sum_break_layout_rule st)
                                             (sum_dir_name_not_with_git st)
                                             (sum_non_bare_git st)
                                             (sum_not_in_git st)) st))
        /\ (forall path,
              reaches dirname root path Unreadable ->
              exists st,
                main [prog; arg] root
                = Exit (-1) (emit (Stderr "gitree: opendir failed") st))
        /\ (forall path before e after,
              reaches dirname root path (Dir (before ++ e :: after)) ->
              scan_ok before = true -> is_unknown e = true ->
              exists st,
                main [prog; arg] root
                = Exit (-2)
                    (emit (Stderr "ERROR: gitree: unknown file type")
                          (emit (Checking path) st)))
        /\ (completes root = false ->
            (exists path d, reaches dirname root path d /\ stops_walk d)
            /\ exists status st,
                 main [prog; arg] root = Exit status st
                 /\ (status = -1 \/ status = -2)))
  /\ wait_status 0 = 0 /\ wait_status (-1) = 255 /\ wait_status (-2) = 254.
Proof.
  pose proof (strip_slashes_defined arg) as Hstrip.
  split; [|split; [|now repeat split]].
  - intros Hsl. rewrite Hsl in Hstrip. unfold main. now rewrite Hstrip.
  - intros Hsl. rewrite Hsl in Hstrip. destruct Hstrip as [dirname Hstrip].
    exists dirname. split; [exact Hstrip|].
    unfold main. rewrite Hstrip.
    pose proof (completes_spec root dirname state0) as Hc.
    split; [|split; [|split]].
    + intros Hok. rewrite Hok in Hc. destruct Hc as [st Hst].
      exists st. now rewrite Hst.
    + intros path Hreach.
      destruct (reaches_stops _ _ _ _ Hreach state0) as [st1 H1].
      exists st1. now rewrite (H1 _ _ eq_refl).
    + intros path before e after Hreach Hs Hu.
      destruct (reaches_stops _ _ _ _ Hreach state0) as [st1 H1].
      exists st1. rewrite (H1 (-2) (emit (Stderr "ERROR: gitree: unknown file type")
                                         (emit (Checking path) st1)));
        [reflexivity|].
      now rewrite gitree_dir, readdir_loop_unknown_first.
    + intros Hno. split; [now apply not_completes_reaches|].
      rewrite Hno in Hc. destruct Hc as (c & st & Hst).
      exists c, st. rewrite Hst. split; [reflexivity|].
      pose proof (gitree_outcome root dirname state0) as Ho.
      rewrite Hst in Ho. destruct Ho as (evs & msg & _ & _ & Hk).
      destruct Hk as [[-> _]|[[-> _]|[[-> _]|[-> _]]]]; auto.
Qed.

Lemma exit_status_witness :
  main ["gitree"; "/x/work//"]
       (Dir [Dirent "notes" DT_REG Unreadable;
             Dirent "a" DT_DIR (Dir [Dirent "f" DT_REG Unreadable]);
             Dirent ".git" DT_DIR
               (Dir [Dirent "objects" DT_DIR (Dir []);
                     Dirent "refs" DT_DIR (Dir []);
                     Dirent "HEAD" DT_REG Unreadable])])
  = Exit 0 (mkState 0 0 1 2
              [Checking "/x/work"; NotInGit "/x/work" "notes";
               Checking "/x/work/a"; NotInGit "/x/work/a" "f";
               Checking "/x/work/.git"; NonBare "/x/work/.git";
               CheckResult 0 0 1 2])
  /\ (exists st,
        main ["gitree"; "/x"]
             (Dir [Dirent "a" DT_DIR (Dir [Dirent "f" DT_REG Unreadable]);
                   Dirent "b" DT_DIR
                     (Dir [Dirent "lost" DT_DIR Unreadable;
                           Dirent "g" DT_REG Unreadable])])
        = Exit (-1) (emit (Stderr "gitree: opendir failed") st))
  /\ (exists st,
        main ["gitree"; "/x"]
             (Dir [Dirent "a" DT_DIR (Dir [Dirent "f" DT_REG Unreadable]);
                   Dirent "b" DT_DIR
                     (Dir [Dirent "g" DT_REG Unreadable;
                           Dirent "odd" DT_UNKNOWN Unreadable;
                           Dirent "lost" DT_DIR Unreadable])])
        = Exit (-2) (emit (Stderr "ERROR: gitree: unknown file type")
                          (emit (Checking "/x/b") st)))
  /\ main ["gitree"; "//"] (Dir []) = Undef.
Proof.
  split; [|split; [|split]].
  - match goal with
    | |- main [_; ?arg] ?r = _ =>
        destruct (proj1 (proj2 (exit_status "gitree" arg r)) eq_refl)
          as (dirname & Hd & Hok & _)
    end.
    injection Hd as <-.
    destruct (Hok eq_refl) as (st & Hst & ->).
    vm_compute in Hst. injection Hst as <-. reflexivity.
  - match goal with
    | |- exists _, main [_; ?arg] ?r = _ =>
        destruct (proj1 (proj2 (exit_status "gitree" arg r)) eq_refl)
          as (dirname & Hd & _ & Hlost & _)
    end.
    injection Hd as <-. apply (Hlost "/x/b/lost").
    apply (reaches_child "/x"
             [Dirent "a" DT_DIR (Dir [Dirent "f" DT_REG Unreadable])]
             (Dirent "b" DT_DIR
                (Dir [Dirent "lost" DT_DIR Unreadable;
                      Dirent "g" DT_REG Unreadable])) []);
      try reflexivity.
    + constructor; [reflexivity|constructor].
    + apply (reaches_child "/x/b" [] (Dirent "lost" DT_DIR Unreadable)
               [Dirent "g" DT_REG Unreadable]);
        try reflexivity; constructor.
  - match goal with
    | |- exists _, main [_; ?arg] ?r = _ =>
        destruct (proj1 (proj2 (exit_status "gitree" arg r)) eq_refl)
          as (dirname & Hd & _ & _ & Hodd & _)
    end.
    injection Hd as <-.
    apply (Hodd "/x/b" [Dirent "g" DT_REG Unreadable]
                (Dirent "odd" DT_UNKNOWN Unreadable)
                [Dirent "lost" DT_DIR Unreadable]); try reflexivity.
    apply (reaches_child "/x"
             [Dirent "a" DT_DIR (Dir [Dirent "f" DT_REG Unreadable])]
             (Dirent "b" DT_DIR
                (Dir [Dirent "g" DT_REG Unreadable;
                      Dirent "odd" DT_UNKNOWN Unreadable;
                      Dirent "lost" DT_DIR Unreadable])) []);
      try reflexivity.
    + constructor; [reflexivity|constructor].
    + constructor.
  - apply (proj1 (exit_status "gitree" "//" (Dir []))). reflexivity.
Defined.
End V2_exit.

Section V2_capacity.
Import V2.

(** The loop stops with status -2 only at an entry of unknown type. *)
Lemma readdir_loop_unknown (dirname : string) (ents : list dirent) :
  forall l msg,
    readdir_loop dirname ents l = Fatal (-2) msg ->
    existsb is_unknown ents = true.
Proof.
  induction ents as [|e ents IH]; intros l msg H; [discriminate|].
  cbn [readdir_loop existsb] in *. rewrite readdir_step_kind in H.
  destruct (is_unknown e); [reflexivity|]. cbn [orb].
  destruct (is_subdir e).
  - destruct (array_store _ _ _ _); [|discriminate].
    destruct (SUBDIRNO <=? i l + 1); [discriminate|]. eapply IH, H.
  - destruct (is_subfile e); [|eapply IH, H].
    destruct (array_store _ _ _ _); [|discriminate].
    destruct (SUBFILENO <=? j l + 1); [discriminate|]. eapply IH, H.
Qed.

(** C8.  No store of the readdir loop leaves [subdir] or [subfile].  When
    the loop goes through, both arrays hold fewer entries than they have
    slots (4096), and they hold every directory and every regular file of
    the listing.  A listing with 4096 directories or 4096 regular files
    stops the run, with status -1 when no entry has an unknown type. *)
Theorem array_bounds (dirname : string) (ents : list dirent) :
  readdir_loop dirname ents locals0 <> OutOfRange
  /\ (forall l,
        readdir_loop dirname ents locals0 = Continue l ->
        l = scanned dirname ents
        /\ i l = Z.of_nat (List.length (subdir l)) /\ i l < SUBDIRNO
        /\ j l = Z.of_nat (List.length (subfile l)) /\ j l < SUBFILENO
        /\ List.length (subdir l) = List.length (filter is_subdir ents)
        /\ List.length (subfile l) = List.length (filter is_subfile ents))
  /\ (SUBDIRNO <= Z.of_nat (List.length (filter is_subdir ents))
      \/ SUBFILENO <= Z.of_nat (List.length (filter is_subfile ents)) ->
      forall st,
      exists status msg,
        gitree dirname (Dir ents) st
        = Exit status (emit (Stderr msg) (emit (Checking dirname) st))
        /\ (status = -1 \/ status = -2)
        /\ (existsb is_unknown ents = false ->
            status = -1
            /\ (msg = "ERROR: gitree: reach max dir num"
                \/ msg = "ERROR: gitree: reach max file num"))).
Proof.
  destruct (scan_ok ents) eqn:Hs.
  - rewrite (readdir_loop_ok dirname ents Hs).
    split; [discriminate|]. split.
    + intros l Hl. injection Hl as <-. unfold scanned.
      cbn [subdir i subfile j]. rewrite !length_map.
      unfold scan_ok in Hs.
      apply andb_true_iff in Hs. destruct Hs as [Hs Hf].
      apply andb_true_iff in Hs. destruct Hs as [_ Hd].
      apply Z.ltb_lt in Hd, Hf. repeat split; assumption.
    + intros Hfull. unfold scan_ok in Hs.
      apply andb_true_iff in Hs. destruct Hs as [Hs Hf].
      apply andb_true_iff in Hs. destruct Hs as [_ Hd].
      apply Z.ltb_lt in Hd, Hf. lia.
  - destruct (readdir_loop_not_ok dirname ents Hs)
      as (status & msg & Hl & Hk).
    split; [rewrite Hl; discriminate|]. split.
    + intros l Hc. rewrite Hl in Hc. discriminate.
    + intros _ st. exists status, msg.
      split; [now rewrite gitree_dir, Hl|].
      split; [intuition|].
      intros Hu. destruct Hk as [[-> ->]|[[-> ->]|[-> ->]]]; auto.
      apply readdir_loop_unknown in Hl. congruence.
Qed.

Lemma array_bounds_witness :
  exists msg,
    gitree "/big" (Dir (repeat (Dirent "d" DT_DIR (Dir [])) 4096)) state0
    = Exit (-1) (emit (Stderr msg) (emit (Checking "/big") state0))
    /\ (msg = "ERROR: gitree: reach max dir num"
        \/ msg = "ERROR: gitree: reach max file num").
Proof.
  destruct (proj2 (proj2 (array_bounds "/big"
                            (repeat (Dirent "d" DT_DIR (Dir [])) 4096))))
    with (st := state0) as (status & msg & Hg & _ & Hk).
  { left. vm_compute. discriminate. }
  destruct Hk as [-> Hmsg]; [vm_compute; reflexivity|].
  exists msg. split; [exact Hg|exact Hmsg].
Defined.
End V2_capacity.

Section V2_determinism.
Import V2.

Lemma readdir_step_names (dirname : string) (l : locals) (e1 e2 : dirent) :
  d_name e1 = d_name e2 -> d_type e1 = d_type e2 ->
  readdir_step dirname l e1 = readdir_step dirname l e2.
Proof.
  destruct e1, e2. simpl. intros -> ->. reflexivity.
Qed.

Lemma readdir_loop_names (dirname : string) (es1 es2 : list dirent) :
  Forall2 (fun e1 e2 => d_name e1 = d_name e2 /\ d_type e1 = d_type e2)
          es1 es2 ->
  forall l, readdir_loop dirname es1 l = readdir_loop dirname es2 l.
Proof.
  induction 1 as [|e1 e2 es1 es2 [Hn Ht] _ IH]; intros l; [reflexivity|].
  cbn [readdir_loop]. rewrite (readdir_step_names _ _ e1 e2 Hn Ht).
  destruct (readdir_step dirname l e2); try reflexivity. apply IH.
Qed.

Lemma check_entries_names (dirname : string) (es1 es2 : list dirent) :
  Forall2 (fun e1 e2 => d_name e1 = d_name e2 /\ d_type e1 = d_type e2)
          es1 es2 ->
  forall st, fold_left (check_entry dirname) es1 st
             = fold_left (check_entry dirname) es2 st.
Proof.
  induction 1 as [|e1 e2 es1 es2 [Hn Ht] _ IH]; intros st; [reflexivity|].
  cbn [fold_left]. unfold check_entry at 2 4. rewrite Hn. apply IH.
Qed.

(** [gitree] sees of a tree the listings of the directories it enters. *)
Lemma same_listings_gitree (d1 : dir) :
  forall d2, same_listings d1 d2 ->
  forall dirname st, gitree dirname d1 st = gitree dirname d2 st.
Proof.
  induction d1 as [|es1 IH] using dir_ind; intros d2 Hsame dirname st.
  - inversion Hsame. reflexivity.
  - inversion Hsame as [|? es2 Hall]; subst.
    assert (Hnames : Forall2 (fun e1 e2 => d_name e1 = d_name e2
                                           /\ d_type e1 = d_type e2)
                             es1 es2).
    { eapply Forall2_impl; [|exact Hall]. simpl. tauto. }
    rewrite !gitree_dir, (readdir_loop_names _ _ _ Hnames).
    destruct (readdir_loop dirname es2 locals0) as [l| |]; try reflexivity.
    destruct (has_dir_objects l && has_dir_refs l && has_file_HEAD l).
    + unfold check_gitree. now rewrite (check_entries_names _ _ _ Hnames).
    + generalize (fold_left (report_file dirname) (subfile l)
                            (emit (Checking dirname) st)).
      clear -IH Hall. unfold subdir_calls.
      induction Hall as [|e1 e2 es1 es2 (Hn & Ht & Hsub) _ IHall];
        intros s; [reflexivity|].
      inversion IH as [|? ? He IHes]; subst.
      assert (Hd : is_subdir e2 = is_subdir e1)
        by (unfold is_subdir; now rewrite Hn, Ht).
      cbn [filter]. rewrite Hd.
      destruct (is_subdir e1) eqn:E; [|now apply IHall].
      cbn [map gitree_each]. rewrite <- Hn.
      rewrite (He (target e2) (Hsub eq_refl)).
      destruct (gitree (child_path dirname (d_name e1)) (target e2) s);
        try reflexivity.
      now apply IHall.
Qed.

Lemma same_listings_refl (d : dir) : same_listings d d.
Proof.
  induction d as [|ents IH] using dir_ind; constructor.
  induction IH as [|e ents He _ IHe]; constructor; [|exact IHe].
  repeat split. intros _. exact He.
Qed.

(** *** The walk over the arrays as it finds them *)

Lemma readdir_step_mem_kind (dirname : string) (f : frame) (e : dirent) :
  readdir_step_mem dirname f e =
  if is_subdir e then
    match store SUBDIRNO (f_subdir f) (f_i f)
                (child_path dirname (d_name e), target e) with
    | None => Outside
    | Some a =>
        if SUBDIRNO <=? f_i f + 1
        then Stopped (-1) "ERROR: gitree: reach max dir num"
        else Scanned
               (mkFrame a (f_i f + 1)
                  (strcmp0 (d_name e) "objects" || f_has_dir_objects f)
                  (strcmp0 (d_name e) "refs" || f_has_dir_refs f)
                  (f_has_file_HEAD f) (f_subfile f) (f_j f))
    end
  else if is_subfile e then
    match store SUBFILENO (f_subfile f) (f_j f) (d_name e) with
    | None => Outside
    | Some a =>
        if SUBFILENO <=? f_j f + 1
        then Stopped (-1) "ERROR: gitree: reach max file num"
        else Scanned
               (mkFrame (f_subdir f) (f_i f) (f_has_dir_objects f)
                  (f_has_dir_refs f)
                  (strcmp0 (d_name e) "HEAD" || f_has_file_HEAD f) a
                  (f_j f + 1))
    end
  else if is_unknown e then Stopped (-2) "ERROR: gitree: unknown file type"
  else Scanned f.
Proof.
  destruct e as [n t d].
  unfold readdir_step_mem, is_subdir, is_subfile, is_unknown, is_dot; simpl.
  destruct (strcmp0 n "."); simpl; [reflexivity|].
  destruct (strcmp0 n ".."); simpl; [reflexivity|].
  destruct (Z.eqb_spec t DT_DIR) as [->|Hd]; simpl.
  - destruct (store _ _ _ _); [|reflexivity].
    destruct (SUBDIRNO <=? f_i f + 1); [reflexivity|].
    now destruct (strcmp0 n "objects"), (strcmp0 n "refs").
  - destruct (Z.eqb_spec t DT_REG) as [->|Hr]; simpl.
    + destruct (store _ _ _ _); [|reflexivity].
      destruct (SUBFILENO <=? f_j f + 1); [reflexivity|].
      now destruct (strcmp0 n "HEAD").
    + reflexivity.
Qed.

Lemma store_in_range {A : Type} (cap : Z) (a : Z -> A) (idx : Z) (v : A) :
  0 <= idx < cap ->
  store cap a idx v = Some (fun k => if k =? idx then v else a k).
Proof.
  intros H. unfold store.
  replace (0 <=? idx) with true by (symmetry; apply Z.leb_le; lia).
  replace (idx <? cap) with true by (symmetry; apply Z.ltb_lt; lia).
  reflexivity.
Qed.

Lemma fetch_in_range {A : Type} (cap : Z) (a : Z -> A) (idx : Z) :
  0 <= idx < cap -> fetch cap a idx = Some (a idx).
Proof.
  intros H. unfold fetch.
  replace (0 <=? idx) with true by (symmetry; apply Z.leb_le; lia).
  replace (idx <? cap) with true by (symmetry; apply Z.ltb_lt; lia).
  reflexivity.
Qed.

(** A slot that is written holds what was written, and the others hold
    what they held. *)
Lemma nth_error_slot {A : Type} (a : Z -> A) (written : list A) (v : A) :
  (forall k c, nth_error written k = Some c -> a (Z.of_nat k) = c) ->
  forall k c,
    nth_error (written ++ [v]) k = Some c ->
    (if Z.of_nat k =? Z.of_nat (List.length written)
     then v else a (Z.of_nat k)) = c.
Proof.
  intros Ha k c Hk.
  destruct (Nat.lt_ge_cases k (List.length written)) as [Hlt|Hge].
  - rewrite nth_error_app1 in Hk by exact Hlt.
    replace (Z.of_nat k =? Z.of_nat (List.length written)) with false
      by (symmetry; apply Z.eqb_neq; lia).
    now apply Ha.
  - rewrite nth_error_app2 in Hk by exact Hge.
    destruct (k - List.length written)%nat as [|x] eqn:E.
    + injection Hk as <-.
      replace (Z.of_nat k =? Z.of_nat (List.length written)) with true
        by (symmetry; apply Z.eqb_eq; lia).
      reflexivity.
    + simpl in Hk. destruct x; discriminate.
Qed.

(** One turn of the loop does to the frame what it does to the slots
    written so far. *)
Lemma readdir_step_stored (dirname : string) (e : dirent) (f : frame)
      (l : locals) (calls : list (string * dir)) :
  stored f l calls ->
  match readdir_step dirname l e with
  | Continue l' =>
      exists f',
        readdir_step_mem dirname f e = Scanned f'
        /\ stored f' l' (calls ++ subdir_calls dirname [e])
  | Fatal status msg => readdir_step_mem dirname f e = Stopped status msg
  | OutOfRange => readdir_step_mem dirname f e = Outside
  end.
Proof.
  intros (Hi & Hj & Ho & Hr & Hh & Hil & Hib & Hjl & Hjb & Hp & Hd & Hf).
  rewrite readdir_step_kind, readdir_step_mem_kind.
  unfold subdir_calls. cbn [filter].
  assert (Hlen : List.length calls = List.length (subdir l))
    by (rewrite <- Hp; symmetry; apply length_map).
  assert (Hsd : forall v, array_store SUBDIRNO (subdir l) (i l) v
                             = Some (subdir l ++ [v]))
    by (intros v; rewrite Hil; apply array_store_next; lia).
  assert (Hsf : forall v, array_store SUBFILENO (subfile l) (j l) v
                             = Some (subfile l ++ [v]))
    by (intros v; rewrite Hjl; apply array_store_next; lia).
  destruct (is_subdir e).
  - rewrite Hsd, Hi. rewrite store_in_range by lia.
    destruct (SUBDIRNO <=? i l + 1) eqn:Hfull; [reflexivity|].
    apply Z.leb_gt in Hfull.
    eexists. split; [reflexivity|].
    unfold stored.
    cbn [f_i f_j f_has_dir_objects f_has_dir_refs f_has_file_HEAD f_subdir
         f_subfile i j has_dir_objects has_dir_refs has_file_HEAD subdir
         subfile map].
    rewrite Ho, Hr, map_app, Hp, length_app. cbn [map fst List.length].
    repeat split; try assumption; try lia.
    intros k c Hk. rewrite Hil, <- Hlen. now apply nth_error_slot.
  - destruct (is_subfile e).
    + rewrite Hsf, Hj. rewrite store_in_range by lia.
      destruct (SUBFILENO <=? j l + 1) eqn:Hfull; [reflexivity|].
      apply Z.leb_gt in Hfull.
      eexists. split; [reflexivity|].
      unfold stored.
      cbn [f_i f_j f_has_dir_objects f_has_dir_refs f_has_file_HEAD
           f_subdir f_subfile i j has_dir_objects has_dir_refs
           has_file_HEAD subdir subfile map].
      rewrite Hh, app_nil_r, length_app. cbn [List.length].
      repeat split; try assumption; try lia.
      intros k n Hk. rewrite Hjl. now apply nth_error_slot.
    + destruct (is_unknown e); [reflexivity|].
      exists f. split; [reflexivity|]. rewrite app_nil_r.
      unfold stored. repeat split; assumption.
Qed.

Lemma readdir_loop_stored (dirname : string) (ents : list dirent) :
  forall f l calls,
    stored f l calls ->
    match readdir_loop dirname ents l with
    | Continue l' =>
        exists f',
          readdir_loop_mem dirname ents f = Scanned f'
          /\ stored f' l' (calls ++ subdir_calls dirname ents)
    | Fatal status msg => readdir_loop_mem dirname ents f = Stopped status msg
    | OutOfRange => readdir_loop_mem dirname ents f = Outside
    end.
Proof.
  induction ents as [|e ents IH]; intros f l calls Hst.
  - cbn [readdir_loop readdir_loop_mem]. exists f.
    split; [reflexivity|]. unfold subdir_calls. cbn [filter map].
    now rewrite app_nil_r.
  - cbn [readdir_loop readdir_loop_mem].
    pose proof (readdir_step_stored dirname e f l calls Hst) as Hstep.
    destruct (readdir_step dirname l e) as [l'|c msg|].
    + destruct Hstep as (f' & -> & Hst').
      specialize (IH f' l' _ Hst').
      change (e :: ents) with ([e] ++ ents).
      rewrite subdir_calls_app, app_assoc. exact IH.
    + now rewrite Hstep.
    + now rewrite Hstep.
Qed.

Lemma stored_start (m : junk) : stored (frame0 m) locals0 [].
Proof.
  unfold stored, frame0, locals0. simpl.
  repeat split; try reflexivity; intros [|k] c H; discriminate.
Qed.

(** The loop over [subfile] reads the names the readdir loop stored. *)
Lemma report_files_mem_spec (dirname : string) (f : frame)
      (names : list string) :
  (forall k n, nth_error names k = Some n -> f_subfile f (Z.of_nat k) = n) ->
  Z.of_nat (List.length names) < SUBFILENO ->
  forall rest done st,
    names = done ++ rest ->
    report_files_mem dirname f (List.length rest)
                     (Z.of_nat (List.length done)) st
    = Ret (fold_left (report_file dirname) rest st).
Proof.
  intros Hf Hcap.
  induction rest as [|n rest IH]; intros done st Hn; [reflexivity|].
  cbn [List.length report_files_mem fold_left].
  assert (Hlen : (List.length done < List.length names)%nat).
  { rewrite Hn, length_app. cbn [List.length]. lia. }
  rewrite fetch_in_range by lia.
  rewrite (Hf (List.length done) n)
    by (rewrite Hn, nth_error_app2, Nat.sub_diag by lia; reflexivity).
  replace (Z.of_nat (List.length done) + 1)
    with (Z.of_nat (List.length (done ++ [n])))
    by (rewrite length_app; cbn [List.length]; lia).
  apply IH. now rewrite <- app_assoc.
Qed.

(** The loop over [subdir] calls [gitree] on the directories the readdir
    loop stored. *)
Lemma subdirs_mem_spec
      (walk : string -> dir -> state -> option (result state)) (f : frame)
      (calls : list (string * dir)) :
  (forall k c, nth_error calls k = Some c -> f_subdir f (Z.of_nat k) = c) ->
  Z.of_nat (List.length calls) < SUBDIRNO ->
  (forall path d st,
      In (path, d) calls -> walk path d st = Some (gitree path d st)) ->
  forall rest done st,
    calls = done ++ rest ->
    subdirs_mem walk f (List.length rest) (Z.of_nat (List.length done)) st
    = Some (gitree_each rest st).
Proof.
  intros Hf Hcap Hwalk.
  induction rest as [|[path d] rest IH]; intros done st Hc; [reflexivity|].
  cbn [List.length subdirs_mem gitree_each].
  assert (Hlen : (List.length done < List.length calls)%nat).
  { rewrite Hc, length_app. cbn [List.length]. lia. }
  rewrite fetch_in_range by lia.
  rewrite (Hf (List.length done) (path, d))
    by (rewrite Hc, nth_error_app2, Nat.sub_diag by lia; reflexivity).
  rewrite Hwalk by (rewrite Hc; apply in_elt).
  destruct (gitree path d st) as [st'|c st'|]; try reflexivity.
  replace (Z.of_nat (List.length done) + 1)
    with (Z.of_nat (List.length (done ++ [(path, d)])))
    by (rewrite length_app; cbn [List.length]; lia).
  apply IH. now rewrite <- app_assoc.
Qed.

Lemma height_target (e : dirent) (ents : list dirent) :
  In e ents -> (height (target e) < height (Dir ents))%nat.
Proof.
  cbn [height].
  induction ents as [|[n t sub] ents IH]; [intros []|intros [<-|Hin]].
  - cbn [target]. lia.
  - specialize (IH Hin). lia.
Qed.

(** With fuel for every level of the tree, the walk over the arrays as it
    finds them is the walk of [gitree], whatever the arrays held. *)
Lemma gitree_mem_spec (fuel : nat) :
  forall d, (height d < fuel)%nat ->
  forall m dirname st,
    gitree_mem fuel m dirname d st = Some (gitree dirname d st).
Proof.
  induction fuel as [|fuel IH]; intros d Hh m dirname st; [lia|].
  destruct d as [|ents]; [reflexivity|].
  cbn [gitree_mem]. rewrite gitree_dir.
  pose proof (readdir_loop_stored dirname ents _ _ _
                (stored_start (m dirname st))) as Hloop.
  destruct (readdir_loop dirname ents locals0) as [l|c msg|].
  - destruct Hloop
      as (f & -> & Hi & Hj & Ho & Hr & Hd & Hil & Hib & Hjl & Hjb & Hp
            & Hsd & Hsf).
    cbn [app] in Hp, Hsd. rewrite Ho, Hr, Hd.
    destruct (has_dir_objects l && has_dir_refs l && has_file_HEAD l);
      [reflexivity|].
    rewrite Hj, Hjl, Nat2Z.id.
    rewrite (report_files_mem_spec dirname f (subfile l) Hsf
               ltac:(lia) (subfile l) [] _ eq_refl).
    assert (Hlen : List.length (subdir_calls dirname ents)
                   = List.length (subdir l))
      by (rewrite <- Hp; symmetry; apply length_map).
    rewrite Hi, Hil, <- Hlen, Nat2Z.id.
    assert (Hwalk : forall path d st',
               In (path, d) (subdir_calls dirname ents) ->
               gitree_mem fuel m path d st' = Some (gitree path d st')).
    { intros path d st' Hin. apply IH.
      unfold subdir_calls in Hin. apply in_map_iff in Hin.
      destruct Hin as (e & He & Hin). injection He as <- <-.
      apply filter_In in Hin. destruct Hin as [Hin _].
      pose proof (height_target e ents Hin). lia. }
    assert (Hcap : Z.of_nat (List.length (subdir_calls dirname ents))
                   < SUBDIRNO) by lia.
    exact (subdirs_mem_spec (gitree_mem fuel m) f (subdir_calls dirname ents)
             Hsd Hcap Hwalk (subdir_calls dirname ents) [] _ eq_refl).
  - now rewrite Hloop.
  - now rewrite Hloop.
Qed.

Lemma main_mem_spec (fuel : nat) (m : stack) (argv : list string)
      (root : dir) :
  (height root < fuel)%nat ->
  main_mem fuel m argv root = Some (main argv root).
Proof.
  intros Hh. unfold main_mem, main.
  destruct argv as [|prog [|arg [|? ?]]]; try reflexivity.
  destruct (strip_slashes arg (String.length arg)); [|reflexivity].
  rewrite (gitree_mem_spec fuel root Hh).
  now destruct (gitree s root state0).
Qed.

(** C9.  Two runs over the same tree end the same: with the same status,
    the same text in the same order and the same counters.  The runs may
    find anything in the arrays of their stack frames, which the code does
    not initialise ([m] and [m']), and the trees need to agree in nothing
    but their listings, which have the same names and types in the same
    order in every directory.  What both runs do is what [main] does over
    the slots the readdir loop has written. *)
Theorem same_tree_same_report (argv : list string) (root root' : dir)
        (m m' : stack) (fuel fuel' : nat) :
  same_listings root root
  /\ (same_listings root root' ->
      (height root < fuel)%nat -> (height root' < fuel')%nat ->
      exists r,
        main_mem fuel m argv root = Some r
        /\ main_mem fuel' m' argv root' = Some r
        /\ r = main argv root).
Proof.
  split; [apply same_listings_refl|].
  intros Hsame Hh Hh'. exists (main argv root).
  split; [now apply main_mem_spec|]. split; [|reflexivity].
  rewrite (main_mem_spec _ _ _ _ Hh'). f_equal. unfold main.
  destruct argv as [|prog [|arg [|? ?]]]; try reflexivity.
  destruct (strip_slashes arg (String.length arg)); [|reflexivity].
  now rewrite (same_listings_gitree _ _ Hsame).
Qed.

Lemma same_tree_same_report_witness :
  exists r,
    main_mem 3 (fun _ _ => mkJunk (fun _ => ("/tmp", Unreadable))
                                  (fun _ => "core"))
             ["gitree"; "/r"]
             (Dir [Dirent "notes" DT_REG Unreadable;
                   Dirent "link" DT_LNK (Dir [Dirent "a" DT_REG Unreadable]);
                   Dirent "sub" DT_DIR (Dir [Dirent "b" DT_REG Unreadable])])
    = Some r
    /\ main_mem 5 (fun path _ =>
                     mkJunk (fun k => (path, Dir [Dirent "x" DT_DIR (Dir [])]))
                            (fun _ => path))
                ["gitree"; "/r"]
                (Dir [Dirent "notes" DT_REG (Dir []);
                      Dirent "link" DT_LNK Unreadable;
                      Dirent "sub" DT_DIR (Dir [Dirent "b" DT_REG (Dir [])])])
       = Some r
    /\ r = Exit 0 (mkState 0 0 0 2
                     [Checking "/r"; NotInGit "/r" "notes";
                      Checking "/r/sub"; NotInGit "/r/sub" "b";
                      CheckResult 0 0 0 2]).
Proof.
  match goal with
  | |- exists r, main_mem ?n ?m ?argv ?root = _
                 /\ main_mem ?n' ?m' _ ?root' = _ /\ _ =>
      destruct (proj2 (same_tree_same_report argv root root' m m' n n'))
        as (r & H1 & H2 & Hr)
  end.
  - repeat (constructor; simpl; repeat split; try discriminate; intros).
  - simpl. lia.
  - simpl. lia.
  - exists r. split; [exact H1|]. split; [exact H2|].
    rewrite Hr. reflexivity.
Defined.
End V2_determinism.

Section V2_other_types.
Import V2.

Lemma other_type_kind (e : dirent) :
  d_type e <> DT_DIR -> d_type e <> DT_REG -> d_type e <> DT_UNKNOWN ->
  is_subdir e = false /\ is_subfile e = false /\ is_unknown e = false.
Proof.
  intros Hd Hr Hu. unfold is_subdir, is_subfile, is_unknown.
  apply Z.eqb_neq in Hd, Hr, Hu. rewrite Hd, Hr, Hu.
  now rewrite andb_false_r.
Qed.

Lemma readdir_loop_skip (dirname : string) (e : dirent)
      (pre post : list dirent) :
  is_subdir e = false -> is_subfile e = false -> is_unknown e = false ->
  forall l, readdir_loop dirname (pre ++ e :: post) l
            = readdir_loop dirname (pre ++ post) l.
Proof.
  intros Hd Hf Hu.
  induction pre as [|x pre IH]; intros l; cbn [app readdir_loop].
  - now rewrite readdir_step_kind, Hd, Hf, Hu.
  - destruct (readdir_step dirname l x); try reflexivity. apply IH.
Qed.

Lemma layout_warnings_app (dirname : string) (a b : list dirent) :
  layout_warnings dirname (a ++ b)
  = layout_warnings dirname a ++ layout_warnings dirname b.
Proof.
  unfold layout_warnings. now rewrite filter_app, map_app.
Qed.

(** C10.  An entry that is neither a directory, nor a regular file, nor of
    unknown type (a symbolic link, a FIFO) changes nothing in the readdir
    loop of [gitree]; in a directory that is no Git tree the walk is the
    walk without the entry, so the entry is not entered, not reported and
    does not stop the run.  In a Git tree the layout check goes by the
    name alone, and warns about the entry when its name is not in
    [git_files]. *)
Theorem other_types_skipped (dirname : string) (e : dirent)
        (pre post : list dirent) (st : state) :
  d_type e <> DT_DIR -> d_type e <> DT_REG -> d_type e <> DT_UNKNOWN ->
  readdir_loop dirname (pre ++ e :: post) locals0
  = readdir_loop dirname (pre ++ post) locals0
  /\ (scan_ok (pre ++ post) = true -> is_git_tree (pre ++ post) = false ->
      gitree dirname (Dir (pre ++ e :: post)) st
      = gitree dirname (Dir (pre ++ post)) st)
  /\ (scan_ok (pre ++ post) = true -> is_git_tree (pre ++ post) = true ->
      breaks_layout e = true ->
      exists st' evs,
        gitree dirname (Dir (pre ++ e :: post)) st = Ret st'
        /\ advances st st' evs
        /\ In (BreaksLayout dirname (d_name e)) evs).
Proof.
  intros Hd Hr Hu.
  destruct (other_type_kind e Hd Hr Hu) as (Ed & Ef & Eu).
  pose proof (readdir_loop_skip dirname e pre post Ed Ef Eu locals0) as Hloop.
  split; [exact Hloop|]. split.
  - intros Hs Hroot. rewrite !gitree_dir, Hloop.
    rewrite (readdir_loop_ok _ _ Hs).
    unfold is_git_tree in Hroot. unfold scanned at 1 2 3 5 6 7.
    cbn [has_dir_objects has_dir_refs has_file_HEAD]. rewrite Hroot.
    unfold subdir_calls. rewrite !filter_app. cbn [filter]. now rewrite Ed.
  - intros Hs Hroot Hb. rewrite gitree_dir, Hloop.
    rewrite (readdir_loop_ok _ _ Hs).
    unfold is_git_tree in Hroot. unfold scanned.
    cbn [has_dir_objects has_dir_refs has_file_HEAD]. rewrite Hroot.
    destruct (check_gitree_dir dirname (pre ++ e :: post)
                               (emit (Checking dirname) st))
      as (st' & Hc & Ha).
    exists st'. eexists. split; [exact Hc|]. split.
    + eapply advances_trans;
        [apply (advances_emit (Checking dirname)); reflexivity|exact Ha].
    + apply in_or_app. right. apply in_or_app. right.
      rewrite layout_warnings_app. apply in_or_app. right.
      unfold layout_warnings. cbn [filter]. rewrite Hb. now left.
Qed.

Lemma other_types_skipped_witness :
  gitree "/r" (Dir [Dirent "a" DT_REG Unreadable;
                    Dirent "link" DT_LNK (Dir [Dirent "x" DT_REG Unreadable]);
                    Dirent "sub" DT_DIR (Dir [])]) state0
  = gitree "/r" (Dir [Dirent "a" DT_REG Unreadable;
                      Dirent "sub" DT_DIR (Dir [])]) state0.
Proof.
  apply (other_types_skipped "/r"
           (Dirent "link" DT_LNK (Dir [Dirent "x" DT_REG Unreadable]))
           [Dirent "a" DT_REG Unreadable] [Dirent "sub" DT_DIR (Dir [])]);
    solve [discriminate | reflexivity].
Defined.
End V2_other_types.

(** * Facts about V1 *)

Section V1_walk.

Lemma has_entry_In (name : string) (type : Z) (ents : list dirent) :
  has_entry name type ents = true
  <-> exists e, In e ents /\ d_name e = name /\ d_type e = type.
Proof.
  unfold has_entry. rewrite existsb_exists.
  split; intros (e & Hin & H); exists e; (split; [exact Hin|]).
  - apply andb_true_iff in H. destruct H as [Hn Ht].
    apply String.eqb_eq in Hn. apply Z.eqb_eq in Ht. now split.
  - destruct H as [-> ->]. unfold strcmp0.
    now rewrite String.eqb_refl, Z.eqb_refl.
Qed.

(** [git[i]] is set for the names that end in ".git", ".git" among them. *)
Lemma git_flag_suffix (name : string) :
  V1.git_flag name = true <-> exists p, name = String.append p ".git".
Proof.
  unfold V1.git_flag, strlen. split.
  - destruct (Z.ltb_spec (Z.of_nat (String.length name)) 4) as [|Hlen];
      [discriminate|]. intros Hcmp.
    set (n := Z.to_nat (Z.of_nat (String.length name) - 4)) in *.
    assert (Hn : (n + 4 = String.length name)%nat) by (unfold n; lia).
    destruct (ptr_add_split n name) as [p [Hb Hp]]; [lia|].
    exists p. rewrite Hb at 1. f_equal.
    apply (strncmp0_eq 4); [|reflexivity|exact Hcmp].
    apply (f_equal String.length) in Hb. rewrite length_append in Hb. lia.
  - intros [p ->]. rewrite length_append. simpl String.length.
    destruct (Z.ltb_spec (Z.of_nat (String.length p + 4)) 4); [lia|].
    replace (Z.to_nat (Z.of_nat (String.length p + 4) - 4))
      with (String.length p) by lia.
    rewrite ptr_add_append. reflexivity.
Qed.

(** The flags of the readdir loop of V1, when it goes through. *)
Lemma v1_readdir_flags (dirname : string) (ents : list dirent) :
  forall l st l' st',
    V1.readdir_loop dirname ents (l, st) = Ret (l', st') ->
    V1.has_dir_objects l'
    = V1.has_dir_objects l || has_entry "objects" DT_DIR ents
    /\ V1.has_dir_refs l'
       = V1.has_dir_refs l || has_entry "refs" DT_DIR ents.
Proof.
  induction ents as [|e ents IH]; intros l st l' st' H.
  - simpl in H. injection H as <- <-. now rewrite !orb_false_r.
  - cbn [V1.readdir_loop] in H. unfold seq in H.
    destruct (V1.readdir_step dirname e (l, st)) as [[l1 st1]| |] eqn:Hstep;
      try discriminate.
    destruct (IH _ _ _ _ H) as [Ho Hr]. rewrite Ho, Hr. clear IH H Ho Hr.
    unfold has_entry. cbn [existsb]. fold (has_entry "objects" DT_DIR ents).
    fold (has_entry "refs" DT_DIR ents).
    unfold V1.readdir_step in Hstep.
    destruct (strcmp0 (d_name e) ".") eqn:E1.
    { injection Hstep as <- <-. apply String.eqb_eq in E1. rewrite E1.
      now split. }
    destruct (strcmp0 (d_name e) "..") eqn:E2.
    { injection Hstep as <- <-. apply String.eqb_eq in E2. rewrite E2.
      now split. }
    destruct (Z.eqb_spec (d_type e) DT_DIR) as [Hd|Hd].
    + destruct (array_store _ _ _ _); [|discriminate].
      destruct (array_store _ _ _ _); [|discriminate].
      destruct (array_store _ _ _ _); [|discriminate].
      destruct (V1.SUBDIRNO <=? V1.i l + 1); [discriminate|].
      injection Hstep as <- <-. cbn [V1.has_dir_objects V1.has_dir_refs].
      rewrite !andb_true_r.
      destruct (strcmp0 (d_name e) "objects"), (strcmp0 (d_name e) "refs"),
        (V1.has_dir_objects l), (V1.has_dir_refs l); now split.
    + assert (Hl : l1 = l).
      { destruct (d_type e =? DT_REG).
        - destruct (V1.stage3 st); [|congruence].
          destruct (V1.in_nonbare_exp_list dirname) as [[|]|];
            congruence.
        - destruct (d_type e =? DT_UNKNOWN); congruence. }
      subst l1. rewrite !andb_false_r. now split.
Qed.

(** [gitree] of V1 on a directory that opens. *)
Lemma v1_gitree_dir (dirname : string) (ents : list dirent) (st : V1.state) :
  V1.gitree dirname (Dir ents) st =
  match V1.readdir_loop dirname ents (V1.locals0, st) with
  | Undef => Undef
  | Exit status (_, st1) => Exit status st1
  | Ret (l, st1) =>
      if V1.has_dir_objects l && V1.has_dir_refs l then
        match V1.check_gitree dirname (Dir ents) st1 with
        | Ret st2 =>
            Ret (if V1.stage1 st2
                 then V1.incr_sum2 (V1.emit (V1.NameNotGit dirname) st2)
                 else st2)
        | stop => stop
        end
      else V1.visit_each dirname (filter is_subdir ents) st1
  end.
Proof.
  cbn [V1.gitree].
  destruct (V1.readdir_loop dirname ents (V1.locals0, st))
    as [[l st1]|c [l st1]|]; try reflexivity.
  destruct (V1.has_dir_objects l && V1.has_dir_refs l); [reflexivity|].
  clear. revert st1.
  induction ents as [|[n t sub] ents IH]; intros s; [reflexivity|].
  cbn [filter].
  destruct (is_subdir (Dirent n t sub));
    [|apply IH].
  cbn [V1.visit_each d_name target]. unfold V1.visit.
  destruct (V1.git_flag n); unfold seq.
  - destruct (V1.check_gitree (child_path dirname n) sub s) as [s1| |];
      try reflexivity.
    destruct ((if negb (V1.git_bare_flag n)
               then V1.check_gitree_nonbare dirname else Ret) s1);
      try reflexivity.
    apply IH.
  - destruct (V1.may_descend dirname s) as [[|]|]; try reflexivity.
    + destruct (V1.gitree (child_path dirname n) sub s); try reflexivity.
      apply IH.
    + apply IH.
Qed.
End V1_walk.

(** * Which directories are Git trees, and how the children are visited *)

Section detection.

Lemma gitree_each_trace (calls : list (string * dir)) :
  forall st st',
    V2.gitree_each calls st = Ret st' ->
    exists evs, V2.trace st' = V2.trace st ++ evs.
Proof.
  induction calls as [|[p d] calls IH]; intros st st' H.
  - injection H as <-. exists []. now rewrite app_nil_r.
  - cbn [V2.gitree_each] in H.
    pose proof (gitree_outcome d p st) as Ho.
    destruct (V2.gitree p d st) as [s1| |]; try discriminate.
    destruct Ho as (evs & (Ht & _) & _).
    destruct (IH _ _ H) as (evs' & Ht').
    exists (evs ++ evs'). now rewrite Ht', Ht, app_assoc.
Qed.

(** A call of [gitree] that returns has announced its directory. *)
Lemma gitree_checking (dirname : string) (d : dir) (st st' : V2.state) :
  V2.gitree dirname d st = Ret st' ->
  exists evs, V2.trace st' = V2.trace st ++ V2.Checking dirname :: evs.
Proof.
  intros H. destruct d as [|ents]; [discriminate|].
  destruct (V2.scan_ok ents) eqn:Hs.
  - destruct (V2.is_git_tree ents) eqn:Hr.
    + destruct (gitree_root_report dirname ents st Hs Hr)
        as (st2 & Hg & Ha & _).
      rewrite H in Hg. injection Hg as <-. eexists. exact Ha.
    + destruct (gitree_non_root_report dirname ents st Hs Hr)
        as (st2 & evs & Hg & (Ha & _) & _).
      destruct Hg as [Hg|[c Hg]]; rewrite H in Hg; [|discriminate].
      injection Hg as <-. eexists. exact Ha.
  - destruct (gitree_fatal dirname ents st Hs) as (c & msg & Hg & _).
    rewrite H in Hg. discriminate.
Qed.

Lemma gitree_each_checking (calls : list (string * dir)) :
  forall st st',
    V2.gitree_each calls st = Ret st' ->
    forall c, In c calls -> In (V2.Checking (fst c)) (V2.trace st').
Proof.
  induction calls as [|[p d] calls IH]; intros st st' H c Hin;
    [contradiction|].
  cbn [V2.gitree_each] in H.
  destruct (V2.gitree p d st) as [s1| |] eqn:Hg; try discriminate.
  destruct Hin as [<-|Hin]; [|exact (IH _ _ H c Hin)].
  destruct (gitree_checking _ _ _ _ Hg) as (evs & Ht).
  destruct (gitree_each_trace _ _ _ H) as (evs' & Ht').
  rewrite Ht', Ht. cbn [fst].
  apply in_or_app. left. apply in_or_app. right. now left.
Qed.
End detection.

Section claims_on_both.

(** C1, as the code has it.  [src/gitree.c] takes a directory for a Git
    tree when its listing has the directories "objects" and "refs" and the
    regular file "HEAD"; the staged checker asks for the two directories
    only.  Such a directory is checked by [check_gitree], and [gitree]
    returns without a call on any of its children: what it writes is the
    line for the directory itself, the warnings about the name and the
    warnings about the layout, all read off the names of the listing. *)
Theorem git_tree_detection (dirname : string) (ents : list dirent) :
  (exists e, In e ents /\ d_name e = "objects" /\ d_type e = DT_DIR) ->
  (exists e, In e ents /\ d_name e = "refs" /\ d_type e = DT_DIR) ->
  (forall st,
      V2.scan_ok ents = true ->
      (exists e, In e ents /\ d_name e = "HEAD" /\ d_type e = DT_REG) ->
      exists st',
        V2.gitree dirname (Dir ents) st = Ret st'
        /\ V2.gitree dirname (Dir ents) st
           = V2.check_gitree dirname (Dir ents)
                             (V2.emit (V2.Checking dirname) st)
        /\ V2.advances st st'
             ([V2.Checking dirname] ++ V2.name_warnings dirname
              ++ V2.layout_warnings dirname ents))
  /\ (forall st l st1,
         V1.readdir_loop dirname ents (V1.locals0, st) = Ret (l, st1) ->
         V1.gitree dirname (Dir ents) st
         = match V1.check_gitree dirname (Dir ents) st1 with
           | Ret st2 =>
               Ret (if V1.stage1 st2
                    then V1.incr_sum2 (V1.emit (V1.NameNotGit dirname) st2)
                    else st2)
           | stop => stop
           end).
Proof.
  intros Ho Hr. apply has_entry_In in Ho, Hr. split.
  - intros st Hs Hh. apply has_entry_In in Hh.
    assert (Hroot : V2.is_git_tree ents = true)
      by (unfold V2.is_git_tree; now rewrite Ho, Hr, Hh).
    destruct (gitree_root_report dirname ents st Hs Hroot) as (st' & Hg & Ha).
    exists st'. split; [exact Hg|]. split; [|exact Ha].
    now apply gitree_root.
  - intros st l st1 Hl. rewrite v1_gitree_dir, Hl.
    destruct (v1_readdir_flags _ _ _ _ _ _ Hl) as [-> ->].
    now rewrite Ho, Hr.
Qed.

Lemma git_tree_detection_witness :
  (exists st',
      V2.gitree "/x/bare.git"
                (Dir [Dirent "objects" DT_DIR
                        (Dir [Dirent "pack" DT_REG Unreadable]);
                      Dirent "refs" DT_DIR (Dir []);
                      Dirent "HEAD" DT_REG Unreadable]) V2.state0 = Ret st'
      /\ V2.trace st' = [V2.Checking "/x/bare.git"])
  /\ V1.gitree "/x/bare"
               (Dir [Dirent "objects" DT_DIR
                       (Dir [Dirent "pack" DT_REG Unreadable]);
                     Dirent "refs" DT_DIR (Dir []);
                     Dirent "HEAD" DT_REG Unreadable])
               (V1.state0 true false false)
     = Ret (V1.mkState true false false 0 1
              [V1.Checking "/x/bare"; V1.NameNotGit "/x/bare"]).
Proof.
  destruct (git_tree_detection "/x/bare.git"
              [Dirent "objects" DT_DIR (Dir [Dirent "pack" DT_REG Unreadable]);
               Dirent "refs" DT_DIR (Dir []);
               Dirent "HEAD" DT_REG Unreadable]) as [H2 _].
  { eexists. split; [left; reflexivity|now split]. }
  { eexists. split; [right; left; reflexivity|now split]. }
  destruct (git_tree_detection "/x/bare"
              [Dirent "objects" DT_DIR (Dir [Dirent "pack" DT_REG Unreadable]);
               Dirent "refs" DT_DIR (Dir []);
               Dirent "HEAD" DT_REG Unreadable]) as [_ H1].
  { eexists. split; [left; reflexivity|now split]. }
  { eexists. split; [right; left; reflexivity|now split]. }
  split.
  - destruct (H2 V2.state0) as (st' & Hg & _ & Ha); [reflexivity| |].
    { eexists. split; [right; right; left; reflexivity|now split]. }
    exists st'. split; [exact Hg|apply Ha].
  - rewrite (H1 (V1.state0 true false false) _ _ eq_refl). reflexivity.
Defined.

(** C1, as the claim has it, fails for [src/gitree.c]: the listing below
    has the directories "objects" and "refs" and no regular file "HEAD";
    [gitree] does not check it as a Git tree, and it walks into both
    directories. *)
Lemma objects_and_refs_without_head :
  let ents := [Dirent "objects" DT_DIR
                 (Dir [Dirent "pack" DT_REG Unreadable]);
               Dirent "refs" DT_DIR (Dir [])] in
  has_entry "objects" DT_DIR ents = true
  /\ has_entry "refs" DT_DIR ents = true
  /\ V2.scan_ok ents = true
  /\ V2.gitree "/srv/a" (Dir ents) V2.state0
     = Ret (V2.mkState 0 0 0 1
              [V2.Checking "/srv/a"; V2.Checking "/srv/a/objects";
               V2.NotInGit "/srv/a/objects" "pack";
               V2.Checking "/srv/a/refs"])
  /\ V2.gitree "/srv/a" (Dir ents) V2.state0
     <> V2.check_gitree "/srv/a" (Dir ents)
                        (V2.emit (V2.Checking "/srv/a") V2.state0).
Proof. repeat split. discriminate. Qed.
End claims_on_both.

Section children.

(** C2, as the code has it.  In a directory that is no Git tree,
    [src/gitree.c] calls [gitree] on every directory child, in the order of
    the listing and whatever the name of the child: a walk that returns has
    announced each of them.  The staged checker goes by the name: a child
    whose name ends in ".git" (".git" itself among them) is handed to
    [check_gitree] and not entered, and any other child is entered by
    [gitree], unless stage 3 runs and the last component of the parent's
    path is in the list of allowed non-bare trees. *)
Theorem children_visits (dirname : string) (ents : list dirent) :
  (forall st,
      V2.scan_ok ents = true -> V2.is_git_tree ents = false ->
      V2.gitree dirname (Dir ents) st
      = V2.gitree_each
          (map (fun e => (child_path dirname (d_name e), target e))
               (filter is_subdir ents))
          (fold_left (V2.report_file dirname)
                     (map d_name (filter is_subfile ents))
                     (V2.emit (V2.Checking dirname) st))
      /\ forall st',
           V2.gitree dirname (Dir ents) st = Ret st' ->
           forall e, In e ents -> is_subdir e = true ->
                     In (V2.Checking (child_path dirname (d_name e)))
                        (V2.trace st'))
  /\ (forall st l st1,
         V1.readdir_loop dirname ents (V1.locals0, st) = Ret (l, st1) ->
         has_entry "objects" DT_DIR ents && has_entry "refs" DT_DIR ents
         = false ->
         V1.gitree dirname (Dir ents) st
         = V1.visit_each dirname (filter is_subdir ents) st1)
  /\ (forall name sub,
         (V1.git_flag name = true
          <-> exists p, name = String.append p ".git")
         /\ (V1.git_flag name = true ->
             V1.visit dirname name sub
             = (V1.check_gitree (child_path dirname name) sub ;;
                (if negb (V1.git_bare_flag name)
                 then V1.check_gitree_nonbare dirname else Ret)))
         /\ (V1.git_flag name = false ->
             forall st,
               V1.visit dirname name sub st
               = match V1.may_descend dirname st with
                 | None => Undef
                 | Some true => V1.gitree (child_path dirname name) sub st
                 | Some false => Ret st
                 end)).
Proof.
  split; [|split].
  - intros st Hs Hr.
    pose proof (gitree_non_root dirname ents st Hs Hr) as Hg.
    split; [exact Hg|].
    intros st' Hret e Hin He. rewrite Hg in Hret.
    apply (gitree_each_checking _ _ _ Hret
             (child_path dirname (d_name e), target e)).
    unfold V2.subdir_calls.
    apply (in_map (fun e => (child_path dirname (d_name e), target e))).
    apply filter_In. now split.
  - intros st l st1 Hl Hroot. rewrite v1_gitree_dir, Hl.
    destruct (v1_readdir_flags _ _ _ _ _ _ Hl) as [-> ->].
    cbn [V1.locals0 V1.has_dir_objects V1.has_dir_refs orb].
    now rewrite Hroot.
  - intros name sub. split; [apply git_flag_suffix|].
    unfold V1.visit. split; intros ->; reflexivity.
Qed.

Lemma children_visits_witness :
  V2.gitree "/r" (Dir [Dirent "a.git" DT_DIR (Dir []);
                       Dirent "docs" DT_DIR (Dir []);
                       Dirent "README" DT_REG Unreadable]) V2.state0
  = V2.gitree_each [("/r/a.git", Dir []); ("/r/docs", Dir [])]
      (V2.mkState 0 0 0 1 [V2.Checking "/r"; V2.NotInGit "/r" "README"])
  /\ V1.gitree "/r" (Dir [Dirent "a.git" DT_DIR (Dir []);
                          Dirent "docs" DT_DIR (Dir []);
                          Dirent "README" DT_REG Unreadable])
               (V1.state0 true false false)
     = V1.visit_each "/r" [Dirent "a.git" DT_DIR (Dir []);
                           Dirent "docs" DT_DIR (Dir [])]
                     (V1.state0 true false false).
Proof.
  destruct (children_visits "/r"
              [Dirent "a.git" DT_DIR (Dir []);
               Dirent "docs" DT_DIR (Dir []);
               Dirent "README" DT_REG Unreadable]) as (H2 & H1 & _).
  split.
  - apply (H2 V2.state0); reflexivity.
  - apply (H1 (V1.state0 true false false) _ _ eq_refl). reflexivity.
Defined.

(** C2, as the claim has it, fails for [src/gitree.c]: "/r" is no Git
    tree and its child "a.git" has a name that ends in ".git" and is
    longer; [gitree] enters the child like any other directory (it
    announces it, reports its file and goes on into "sub"), and that is
    not what [check_gitree] on the child gives. *)
Lemma suffixed_child_is_entered :
  let child := Dir [Dirent "sub" DT_DIR (Dir []);
                    Dirent "f" DT_REG Unreadable] in
  let ents := [Dirent "a.git" DT_DIR child] in
  V2.scan_ok ents = true
  /\ V2.is_git_tree ents = false
  /\ V2.name_extends_git "/r/a.git" = true
  /\ V2.gitree "/r" (Dir ents) V2.state0
     = Ret (V2.mkState 0 0 0 1
              [V2.Checking "/r"; V2.Checking "/r/a.git";
               V2.NotInGit "/r/a.git" "f"; V2.Checking "/r/a.git/sub"])
  /\ V2.check_gitree "/r/a.git" child (V2.emit (V2.Checking "/r") V2.state0)
     = Ret (V2.mkState 2 0 0 0
              [V2.Checking "/r"; V2.BreaksLayout "/r/a.git" "sub";
               V2.BreaksLayout "/r/a.git" "f"])
  /\ V2.gitree "/r" (Dir ents) V2.state0
     <> V2.check_gitree "/r/a.git" child
                        (V2.emit (V2.Checking "/r") V2.state0).
Proof. repeat split. discriminate. Qed.
End children.

(** * Further facts: paths *)

Section path_theorems.

Lemma in_exception_list_prefix (dirname : string) :
  V2.in_exception_list dirname = true
  <-> exists x t, In x V2.exception_list /\ dirname = String.append x t.
Proof.
  unfold V2.in_exception_list, V2.exception_list_array_size.
  rewrite scan_until_all, negb_involutive, existsb_exists.
  split.
  - intros (x & Hin & Hx). apply strncmp0_prefix in Hx.
    destruct Hx as [t Ht]. now exists x, t.
  - intros (x & t & Hin & Hd). exists x. split; [exact Hin|].
    apply strncmp0_prefix. now exists t.
Qed.

Lemma in_exception_list_extends (dirname t : string) :
  V2.in_exception_list dirname = true ->
  V2.in_exception_list (String.append dirname t) = true.
Proof.
  intros H. apply in_exception_list_prefix in H.
  destruct H as (x & u & Hin & ->).
  apply in_exception_list_prefix. exists x, (String.append u t).
  split; [exact Hin|apply append_assoc].
Qed.

(** X1.  [in_exception_list] asks whether the path begins with an entry of
    [exception_list], so what it says of a path it says of every path that
    begins with it, the paths of the children among them. *)
Theorem exception_by_prefix (dirname : string) :
  (V2.in_exception_list dirname = true
   <-> exists x t, In x V2.exception_list /\ dirname = String.append x t)
  /\ (V2.in_exception_list dirname = true ->
      (forall t, V2.in_exception_list (String.append dirname t) = true)
      /\ forall name, V2.in_exception_list (child_path dirname name) = true).
Proof.
  split; [apply in_exception_list_prefix|].
  intros H. split.
  - intros t. now apply in_exception_list_extends.
  - intros name. now apply in_exception_list_extends.
Qed.

Lemma exception_by_prefix_witness :
  V2.in_exception_list (child_path "/git/android/.repo" "manifests") = true.
Proof.
  apply (proj2 (exception_by_prefix "/git/android/.repo")). reflexivity.
Defined.

(** X2.  The loop of [main] over the end of [argv[1]] cuts the slashes the
    path ends in and nothing else: what is left is not empty, does not end
    in a slash, and is left as it is by the loop.  The loop runs off the
    front of the string exactly when the argument is empty or made of
    slashes. *)
Theorem strip_slashes_spec (arg : string) :
  (forall dirname,
      V2.strip_slashes arg (String.length arg) = Some dirname ->
      (exists t, arg = String.append dirname t /\ only_slashes t = true)
      /\ dirname <> EmptyString
      /\ (forall p, dirname <> String.append p "/")
      /\ V2.strip_slashes dirname (String.length dirname) = Some dirname)
  /\ (V2.strip_slashes arg (String.length arg) = None
      <-> only_slashes arg = true).
Proof.
  pose proof (strip_slashes_end _ arg eq_refl) as H.
  assert (Hlast : forall d : string,
             d <> EmptyString -> (forall p, d <> String.append p "/") ->
             V2.strip_slashes d (String.length d) = Some d
             /\ only_slashes d = false).
  { intros d Hne Hend. destruct (String.length d) as [|m] eqn:Hlen.
    - destruct d; [congruence|discriminate].
    - destruct (string_last d m Hlen) as (c & Hget & Hs & _).
      cbn [V2.strip_slashes]. rewrite Hget.
      destruct (Ascii.eqb_spec c "/"%char) as [->|Hc].
      + exfalso. exact (Hend _ Hs).
      + split; [reflexivity|].
        rewrite Hs, only_slashes_append. simpl.
        apply Ascii.eqb_neq in Hc. rewrite Hc. apply andb_false_r. }
  split.
  - intros dirname Hd. rewrite Hd in H. destruct H as (Ht & Hne & Hend).
    repeat split; try assumption. now apply Hlast.
  - split; intros Hn.
    + now rewrite Hn in H.
    + destruct (V2.strip_slashes arg (String.length arg)) as [d|];
        [|reflexivity].
      destruct H as ((t & Ht & _) & Hne & Hend).
      destruct (Hlast d Hne Hend) as [_ Hd].
      rewrite Ht, only_slashes_append, Hd in Hn. discriminate.
Qed.

Lemma strip_slashes_spec_witness :
  (exists t, "/srv/git//" = String.append "/srv/git" t
             /\ only_slashes t = true)
  /\ V2.strip_slashes "/srv/git" (String.length "/srv/git") = Some "/srv/git".
Proof.
  destruct (proj1 (strip_slashes_spec "/srv/git//") "/srv/git" eq_refl)
    as (Ht & _ & _ & Hfix).
  split; [exact Ht|exact Hfix].
Defined.

(** X3.  The last component [check_gitree] tests has no slash and is the
    end of the path, after a slash when the path has one.  For a child the
    last component is the name of the entry, so the test on the name of a
    child does not depend on where the walk started. *)
Theorem last_dir_spec (dirname : string) :
  slash_free (V2.last_dir dirname) = true
  /\ (exists p, dirname = String.append p (V2.last_dir dirname)
                /\ (p = EmptyString \/ exists q, p = String.append q "/"))
  /\ (forall name,
         slash_free name = true ->
         V2.last_dir (child_path dirname name) = name
         /\ V2.dir_name_with_git (child_path dirname name)
            = V2.dir_name_with_git name).
Proof.
  split; [|split].
  - unfold V2.last_dir. destruct (strrchr dirname "/"%char) as [r|] eqn:E.
    + destruct (strrchr_some _ _ _ E) as (p & r' & _ & -> & Hn).
      simpl. now apply slash_free_strrchr.
    + now apply slash_free_strrchr.
  - unfold V2.last_dir. destruct (strrchr dirname "/"%char) as [r|] eqn:E.
    + destruct (strrchr_some _ _ _ E) as (p & r' & Hs & -> & _).
      exists (String.append p "/"). simpl ptr_add. split.
      * rewrite Hs at 1. now rewrite append_assoc.
      * right. now exists p.
    + exists EmptyString. split; [reflexivity|now left].
  - intros name Hn.
    assert (Hl : V2.last_dir (child_path dirname name) = name).
    { unfold V2.last_dir. now rewrite (strrchr_child _ _ Hn). }
    split; [exact Hl|].
    unfold V2.dir_name_with_git. rewrite Hl.
    unfold V2.last_dir. apply slash_free_strrchr in Hn. now rewrite Hn.
Qed.

Lemma last_dir_spec_witness :
  V2.last_dir (child_path "/srv/git" "linux.git") = "linux.git"
  /\ V2.dir_name_with_git (child_path "/srv/git" "linux.git")
     = V2.dir_name_with_git "linux.git".
Proof.
  apply (proj2 (proj2 (last_dir_spec "/srv/git"))). reflexivity.
Defined.
End path_theorems.

(** * Further facts: the report of [src/gitree.c] *)

Section V2_report.
Import V2.

Lemma check_entry_known (dirname : string) (st : state) (e : dirent) :
  breaks_layout e = false -> check_entry dirname st e = st.
Proof.
  unfold check_entry, git_files_array_size, breaks_layout, is_dot.
  rewrite scan_until_all, negb_involutive.
  change (strcmp0 (d_name e)) with (String.eqb (d_name e)). intros H.
  destruct (String.eqb (d_name e) "."); [reflexivity|].
  destruct (String.eqb (d_name e) ".."); [reflexivity|].
  cbn [orb negb andb] in H. apply negb_false_iff in H. now rewrite H.
Qed.

Lemma check_entries_known (dirname : string) (ents : list dirent) :
  (forall e, In e ents -> breaks_layout e = false) ->
  forall st, fold_left (check_entry dirname) ents st = st.
Proof.
  induction ents as [|e ents IH]; intros H st; [reflexivity|].
  cbn [fold_left]. rewrite check_entry_known by (apply H; now left).
  apply IH. intros x Hx. apply H. now right.
Qed.

(** X4.  A Git tree whose last path component is ".git" gets the warning
    "non-bare git tree" once, and one step of its counter, unless its path
    begins with an entry of the exception list; then it gets none.  It
    never gets the warning about the name. *)
Theorem non_bare_warning (dirname : string) (ents : list dirent)
        (st : state) :
  scan_ok ents = true -> is_git_tree ents = true ->
  last_dir dirname = ".git" ->
  exists st' evs,
    gitree dirname (Dir ents) st = Ret st'
    /\ advances st st' evs
    /\ filter is_non_bare evs
       = (if in_exception_list dirname then [] else [NonBare dirname])
    /\ sum_non_bare_git st'
       = sum_non_bare_git st + (if in_exception_list dirname then 0 else 1)
    /\ filter is_name evs = []
    /\ sum_dir_name_not_with_git st' = sum_dir_name_not_with_git st.
Proof.
  intros Hs Hr Hn. apply name_is_dot_git_eq in Hn.
  destruct (gitree_root_report dirname ents st Hs Hr) as (st' & Hg & Ha).
  assert (Hw : name_warnings dirname
               = if in_exception_list dirname then [] else [NonBare dirname]).
  { unfold name_warnings, name_without_git. rewrite Hn.
    unfold name_is_dot_git in Hn. apply andb_true_iff in Hn.
    destruct Hn as [-> _]. simpl.
    destruct (in_exception_list dirname); reflexivity. }
  assert (Hb : filter is_non_bare
                 ([Checking dirname] ++ name_warnings dirname
                  ++ layout_warnings dirname ents)
               = if in_exception_list dirname then [] else [NonBare dirname]).
  { rewrite !filter_app, filter_layout_warnings by reflexivity.
    rewrite Hw. now destruct (in_exception_list dirname). }
  assert (Hm : filter is_name
                 ([Checking dirname] ++ name_warnings dirname
                  ++ layout_warnings dirname ents) = []).
  { rewrite !filter_app, filter_layout_warnings by reflexivity.
    rewrite Hw. now destruct (in_exception_list dirname). }
  exists st'. eexists. split; [exact Hg|]. split; [exact Ha|].
  split; [exact Hb|].
  destruct Ha as (_ & _ & Hc2 & Hc3 & _).
  rewrite Hc2, Hc3. unfold count. rewrite Hb, Hm.
  destruct (in_exception_list dirname); repeat split; simpl; lia.
Qed.

Lemma non_bare_warning_witness :
  exists st' evs,
    gitree "/x/work/.git"
           (Dir [Dirent "objects" DT_DIR (Dir []);
                 Dirent "refs" DT_DIR (Dir []);
                 Dirent "HEAD" DT_REG Unreadable]) state0 = Ret st'
    /\ advances state0 st' evs
    /\ filter is_non_bare evs = [NonBare "/x/work/.git"]
    /\ sum_non_bare_git st' = 1.
Proof.
  destruct (non_bare_warning "/x/work/.git"
              [Dirent "objects" DT_DIR (Dir []);
               Dirent "refs" DT_DIR (Dir []);
               Dirent "HEAD" DT_REG Unreadable] state0)
    as (st' & evs & Hg & Ha & Hb & Hc & _); try reflexivity.
  exists st', evs. repeat split; try apply Ha; assumption.
Defined.

(** X5.  A Git tree whose last path component is longer than ".git" and
    ends in it, and whose entries all have names of [git_files] (or are "."
    and ".."), gets no warning: [gitree] writes the line for the directory
    and leaves the counters as they are. *)
Theorem clean_git_tree (dirname : string) (ents : list dirent)
        (st : state) :
  scan_ok ents = true -> is_git_tree ents = true ->
  (exists c p, last_dir dirname = String.append (String c p) ".git") ->
  (forall e, In e ents ->
             d_name e = "." \/ d_name e = ".." \/ In (d_name e) git_files) ->
  gitree dirname (Dir ents) st = Ret (emit (Checking dirname) st).
Proof.
  intros Hs Hr Hn Hall. apply name_extends_git_eq in Hn.
  rewrite gitree_root by assumption. unfold check_gitree. f_equal.
  rewrite check_entries_known.
  - unfold check_name. unfold name_extends_git in Hn.
    apply andb_true_iff in Hn. destruct Hn as [-> Hlen].
    apply negb_true_iff in Hlen. now rewrite Hlen.
  - intros e He.
    destruct (breaks_layout e) eqn:Hb; [|reflexivity].
    apply breaks_layout_spec in Hb. specialize (Hall e He). tauto.
Qed.

Lemma clean_git_tree_witness :
  gitree "/x/bare.git"
         (Dir [Dirent "." DT_DIR Unreadable;
               Dirent "objects" DT_DIR (Dir []);
               Dirent "refs" DT_DIR (Dir []);
               Dirent "HEAD" DT_REG Unreadable]) state0
  = Ret (emit (Checking "/x/bare.git") state0).
Proof.
  apply clean_git_tree; try reflexivity.
  - exists "b"%char, "are". reflexivity.
  - intros e [<-|[<-|[<-|[<-|[]]]]]; simpl; tauto.
Defined.

(** X6.  A run ends with status 0 only after a walk that returned, and the
    numbers of its last lines are the numbers of warnings of each kind
    that it has written before them. *)
Theorem summary_counts (argv : list string) (root : dir) (st : state) :
  main argv root = Exit 0 st ->
  exists evs,
    trace st
    = evs ++ [CheckResult (count is_layout evs) (count is_name evs)
                          (count is_non_bare evs) (count is_stray evs)]
    /\ sum_break_layout_rule st = count is_layout evs
    /\ sum_dir_name_not_with_git st = count is_name evs
    /\ sum_non_bare_git st = count is_non_bare evs
    /\ sum_not_in_git st = count is_stray evs.
Proof.
  unfold main, usage.
  destruct argv as [|prog [|arg [|? ?]]]; try discriminate.
  destruct (strip_slashes arg (String.length arg)) as [dirname|];
    [|discriminate].
  pose proof (gitree_outcome root dirname state0) as Ho.
  destruct (gitree dirname root state0) as [st1|c st1|]; [| |discriminate].
  - intros H. injection H as <-. simpl in Ho.
    destruct Ho as (evs & (Ht & Hl & Hn & Hb & Hs) & _).
    simpl in Ht, Hl, Hn, Hb, Hs. exists evs.
    cbn [emit trace sum_break_layout_rule sum_dir_name_not_with_git
         sum_non_bare_git sum_not_in_git].
    rewrite Ht, Hl, Hn, Hb, Hs. repeat split.
  - intros H. injection H as -> _. simpl in Ho.
    destruct Ho as (_ & msg & _ & _ & Hk). unfold fatal in Hk.
    destruct Hk as [[? _]|[[? _]|[[? _]|[? _]]]]; discriminate.
Qed.

Lemma summary_counts_witness :
  exists evs,
    [Checking "/r"; NotInGit "/r" "notes"; CheckResult 0 0 0 1]
    = evs ++ [CheckResult (count is_layout evs) (count is_name evs)
                          (count is_non_bare evs) (count is_stray evs)].
Proof.
  destruct (summary_counts ["gitree"; "/r/"]
              (Dir [Dirent "notes" DT_REG Unreadable])
              (mkState 0 0 0 1 [Checking "/r"; NotInGit "/r" "notes";
                                CheckResult 0 0 0 1]) eq_refl)
    as (evs & Ht & _).
  exists evs. exact Ht.
Defined.
End V2_report.

(** * Further facts: where a walk reports *)

Section V2_below.
Import V2.

Lemma below_refl (dirname : string) (ev : event) :
  event_dir ev = Some dirname \/ event_dir ev = None -> below dirname ev.
Proof.
  unfold below. intros [->| ->]; [|exact I].
  exists EmptyString. now rewrite append_nil_r.
Qed.

Lemma below_child (dirname name : string) (ev : event) :
  below (child_path dirname name) ev -> below dirname ev.
Proof.
  unfold below, child_path. destruct (event_dir ev) as [d|]; [|exact id].
  intros [t ->]. eexists. apply append_assoc.
Qed.

Lemma name_warnings_below (dirname : string) :
  Forall (below dirname) (name_warnings dirname).
Proof.
  unfold name_warnings.
  destruct (name_is_dot_git dirname && negb (in_exception_list dirname)),
           (name_without_git dirname);
    repeat constructor; apply below_refl; now left.
Qed.

Lemma layout_warnings_below (dirname : string) (ents : list dirent) :
  Forall (below dirname) (layout_warnings dirname ents).
Proof.
  unfold layout_warnings.
  induction (filter breaks_layout ents) as [|e l IH]; constructor;
    [apply below_refl; now left|exact IH].
Qed.

Lemma stray_warnings_below_top (dirname : string) (ents : list dirent) :
  Forall (below dirname) (stray_warnings dirname ents).
Proof.
  unfold stray_warnings. destruct (in_exception_list dirname); [constructor|].
  induction (filter is_subfile ents) as [|e l IH]; constructor;
    [apply below_refl; now left|exact IH].
Qed.

(** X8.  Whatever a walk writes about a directory, it writes about a
    directory whose path begins with the path the walk started at; and it
    returns, or stops the run with one of the four messages of [gitree],
    with each warning counted once. *)
Theorem reports_below (d : dir) :
  forall dirname st, outcome (below dirname) st (gitree dirname d st).
Proof.
  induction d as [|ents IH] using dir_ind; intros dirname st.
  - simpl. exists [], "gitree: opendir failed".
    split; [|split; [constructor|]].
    + apply advances_emit; reflexivity.
    + unfold fatal. tauto.
  - assert (Hchk : advances st (emit (Checking dirname) st)
                            [Checking dirname])
      by (apply advances_emit; reflexivity).
    assert (Hb : below dirname (Checking dirname))
      by (apply below_refl; now left).
    destruct (scan_ok ents) eqn:Hs.
    + destruct (is_git_tree ents) eqn:Hr.
      * destruct (gitree_root_report dirname ents st Hs Hr)
          as (st' & -> & Ha).
        simpl. eexists. split; [exact Ha|].
        apply Forall_app. split; [now repeat constructor|].
        apply Forall_app. split;
          [apply name_warnings_below|apply layout_warnings_below].
      * rewrite gitree_non_root by assumption.
        eapply outcome_after.
        -- eapply advances_trans; [exact Hchk|].
           apply (report_files_advances dirname
                    (subfile (scanned dirname ents))).
        -- rewrite stray_warnings_scanned. apply Forall_app. split;
             [now repeat constructor|apply stray_warnings_below_top].
        -- apply gitree_each_ok. unfold subdir_calls.
           apply Forall_forall. intros c Hc.
           apply in_map_iff in Hc. destruct Hc as (e & <- & He).
           apply filter_In in He. destruct He as [Hin _].
           cbn [fst snd]. intros s.
           eapply outcome_weaken;
             [|exact (proj1 (Forall_forall _ _) IH e Hin _ s)].
           intros ev. apply below_child.
    + destruct (gitree_fatal dirname ents st Hs) as (c & msg & -> & Hk).
      simpl. exists [Checking dirname], msg. split; [|split].
      * eapply advances_trans; [exact Hchk|].
        apply (advances_emit (Stderr msg)); reflexivity.
      * now repeat constructor.
      * unfold fatal. tauto.
Qed.

Lemma exempt_walk (d : dir) :
  forall dirname st,
    in_exception_list dirname = true ->
    outcome (fun ev => is_stray ev = false /\ is_non_bare ev = false) st
            (gitree dirname d st).
Proof.
  induction d as [|ents IH] using dir_ind; intros dirname st Hex.
  - simpl. exists [], "gitree: opendir failed".
    split; [|split; [constructor|]].
    + apply advances_emit; reflexivity.
    + unfold fatal. tauto.
  - assert (Hchk : advances st (emit (Checking dirname) st)
                            [Checking dirname])
      by (apply advances_emit; reflexivity).
    destruct (scan_ok ents) eqn:Hs.
    + destruct (is_git_tree ents) eqn:Hr.
      * destruct (gitree_root_report dirname ents st Hs Hr)
          as (st' & -> & Ha).
        simpl. eexists. split; [exact Ha|].
        apply Forall_app. split; [now repeat constructor|].
        apply Forall_app. split.
        -- unfold name_warnings. rewrite Hex, andb_false_r.
           destruct (name_without_git dirname); now repeat constructor.
        -- unfold layout_warnings.
           induction (filter breaks_layout ents) as [|e l IHl];
             now constructor.
      * rewrite gitree_non_root by assumption.
        eapply outcome_after.
        -- eapply advances_trans; [exact Hchk|].
           apply (report_files_advances dirname
                    (subfile (scanned dirname ents))).
        -- rewrite Hex. now repeat constructor.
        -- apply gitree_each_ok. unfold subdir_calls.
           apply Forall_forall. intros c Hc.
           apply in_map_iff in Hc. destruct Hc as (e & <- & He).
           apply filter_In in He. destruct He as [Hin _].
           cbn [fst snd]. intros s.
           apply (proj1 (Forall_forall _ _) IH e Hin).
           now apply in_exception_list_extends.
    + destruct (gitree_fatal dirname ents st Hs) as (c & msg & -> & Hk).
      simpl. exists [Checking dirname], msg. split; [|split].
      * eapply advances_trans; [exact Hchk|].
        apply (advances_emit (Stderr msg)); reflexivity.
      * now repeat constructor.
      * unfold fatal. tauto.
Qed.

Lemma filter_none (p : event -> bool) (evs : list event) :
  Forall (fun ev => p ev = false) evs -> filter p evs = [].
Proof.
  induction 1 as [|ev evs Hev _ IH]; [reflexivity|].
  cbn [filter]. now rewrite Hev.
Qed.

(** X9.  The exception list covers a whole subtree: a walk that starts at
    a path that begins with an entry of the list, however deep it goes and
    however it ends, writes no warning "not in a git tree" and no warning
    "non-bare git tree", and leaves both counters as they are. *)
Theorem exempt_subtree (dirname : string) (d : dir) (st st' : state) :
  in_exception_list dirname = true ->
  gitree dirname d st = Ret st'
  \/ (exists status, gitree dirname d st = Exit status st') ->
  exists evs,
    trace st' = trace st ++ evs
    /\ filter is_stray evs = [] /\ filter is_non_bare evs = []
    /\ sum_not_in_git st' = sum_not_in_git st
    /\ sum_non_bare_git st' = sum_non_bare_git st.
Proof.
  intros Hex Hg. pose proof (exempt_walk d dirname st Hex) as Ho.
  assert (Hsplit : forall evs,
             Forall (fun ev => is_stray ev = false
                               /\ is_non_bare ev = false) evs ->
             filter is_stray evs = [] /\ filter is_non_bare evs = []).
  { intros evs Hf. split; apply filter_none;
      (eapply Forall_impl; [|exact Hf]); simpl; tauto. }
  destruct Hg as [Hg|[c Hg]]; rewrite Hg in Ho; simpl in Ho.
  - destruct Ho as (evs & (Ht & _ & _ & Hb & Hs) & Hf).
    destruct (Hsplit _ Hf) as [H1 H2].
    exists evs. unfold count in *. rewrite H1 in Hs. rewrite H2 in Hb.
    simpl in *. repeat split; try assumption; lia.
  - destruct Ho as (evs & msg & (Ht & _ & _ & Hb & Hs) & Hf & _).
    destruct (Hsplit _ Hf) as [H1 H2].
    exists (evs ++ [Stderr msg]). unfold count in *.
    rewrite filter_app in Hs, Hb. rewrite H1 in Hs. rewrite H2 in Hb.
    rewrite !filter_app, H1, H2.
    simpl in *. repeat split; try assumption; lia.
Qed.

Lemma exempt_subtree_witness :
  exists evs,
    [Checking "/git/android/.repo"; Checking "/git/android/.repo/manifests";
     Checking "/git/android/.repo/manifests/.git"]
    = [] ++ evs
    /\ filter is_stray evs = [] /\ filter is_non_bare evs = [].
Proof.
  destruct (exempt_subtree "/git/android/.repo"
              (Dir [Dirent "manifest.xml" DT_REG Unreadable;
                    Dirent "manifests" DT_DIR
                      (Dir [Dirent "default.xml" DT_REG Unreadable;
                            Dirent ".git" DT_DIR
                              (Dir [Dirent "objects" DT_DIR (Dir []);
                                    Dirent "refs" DT_DIR (Dir []);
                                    Dirent "HEAD" DT_REG Unreadable])])])
              state0
              (mkState 0 0 0 0
                 [Checking "/git/android/.repo";
                  Checking "/git/android/.repo/manifests";
                  Checking "/git/android/.repo/manifests/.git"]))
    as (evs & Ht & Hs & Hb & _); [reflexivity|left; reflexivity|].
  exists evs. repeat split; assumption.
Defined.
End V2_below.

(** * Further facts: a walk and what came before it *)

Section V2_frame.
Import V2.

Lemma merge_state0 (st : state) : merge st state0 = st.
Proof.
  destruct st. unfold merge. simpl. rewrite app_nil_r, !Z.add_0_r.
  reflexivity.
Qed.

Lemma merge_assoc (a b c : state) :
  merge (merge a b) c = merge a (merge b c).
Proof.
  unfold merge. simpl. rewrite app_assoc, !Z.add_assoc. reflexivity.
Qed.

Lemma emit_merge (ev : event) (st s : state) :
  emit ev (merge st s) = merge st (emit ev s).
Proof. unfold emit, merge. simpl. now rewrite app_assoc. Qed.

Lemma check_name_merge (dirname : string) (st s : state) :
  check_name dirname (merge st s) = merge st (check_name dirname s).
Proof.
  unfold check_name.
  destruct (dir_name_with_git dirname),
           (strlen (last_dir dirname) =? 4),
           (in_exception_list dirname); simpl; try reflexivity;
    unfold emit, merge, incr_non_bare_git, incr_dir_name_not_with_git;
    simpl; rewrite app_assoc, ?Z.add_assoc; reflexivity.
Qed.

Lemma check_entries_merge (dirname : string) (ents : list dirent) :
  forall st s,
    fold_left (check_entry dirname) ents (merge st s)
    = merge st (fold_left (check_entry dirname) ents s).
Proof.
  induction ents as [|e ents IH]; intros st s; [reflexivity|].
  cbn [fold_left]. rewrite <- IH. f_equal.
  unfold check_entry.
  destruct (strcmp0 (d_name e) "."); [reflexivity|].
  destruct (strcmp0 (d_name e) ".."); [reflexivity|].
  destruct (negb _); [reflexivity|].
  unfold emit, merge, incr_break_layout_rule. simpl.
  rewrite app_assoc, Z.add_assoc. reflexivity.
Qed.

Lemma report_files_merge (dirname : string) (names : list string) :
  forall st s,
    fold_left (report_file dirname) names (merge st s)
    = merge st (fold_left (report_file dirname) names s).
Proof.
  induction names as [|n names IH]; intros st s; [reflexivity|].
  cbn [fold_left]. rewrite <- IH. f_equal.
  unfold report_file. destruct (negb _); [|reflexivity].
  unfold emit, merge, incr_not_in_git. simpl.
  rewrite app_assoc, Z.add_assoc. reflexivity.
Qed.

Lemma gitree_each_merge_from (calls : list (string * dir)) :
  Forall (fun c =>
            forall st s, gitree (fst c) (snd c) (merge st s)
                         = lift st (gitree (fst c) (snd c) s)) calls ->
  forall st s,
    gitree_each calls (merge st s) = lift st (gitree_each calls s).
Proof.
  induction 1 as [|[p d] calls Hc _ IH]; intros st s; [reflexivity|].
  cbn [gitree_each]. cbn [fst snd] in Hc. rewrite Hc.
  destruct (gitree p d s); simpl; try reflexivity. apply IH.
Qed.

(** What a walk does after [st] is what it does after [s], after [st]. *)
Lemma gitree_merge (d : dir) :
  forall dirname st s,
    gitree dirname d (merge st s) = lift st (gitree dirname d s).
Proof.
  induction d as [|ents IH] using dir_ind; intros dirname st s.
  - simpl. now rewrite emit_merge.
  - rewrite !gitree_dir.
    destruct (readdir_loop dirname ents locals0) as [l|c msg|].
    + destruct (has_dir_objects l && has_dir_refs l && has_file_HEAD l).
      * unfold check_gitree. simpl.
        now rewrite emit_merge, check_name_merge, check_entries_merge.
      * rewrite emit_merge, report_files_merge.
        apply gitree_each_merge_from. unfold subdir_calls.
        apply Forall_forall. intros c Hc.
        apply in_map_iff in Hc. destruct Hc as (e & <- & He).
        apply filter_In in He. destruct He as [Hin _]. cbn [fst snd].
        intros st0 s0. apply (proj1 (Forall_forall _ _) IH e Hin).
    + simpl. now rewrite !emit_merge.
    + reflexivity.
Qed.

Lemma gitree_each_merge (calls : list (string * dir)) (st s : state) :
  gitree_each calls (merge st s) = lift st (gitree_each calls s).
Proof.
  apply gitree_each_merge_from. apply Forall_forall.
  intros [p d] _ st0 s0. apply gitree_merge.
Qed.

(** X7.  A walk does not look at what was counted and written before it.
    Started in a state whose counters are not negative, and ending with
    every counter in the range of [int], it does what it does from the
    state of a fresh run, with the counters added to those it found and the
    text written after the text it found; it returns or stops the run in
    the one case as in the other.  The counters of the fresh run are not
    negative and in the range of [int] as well: a counter only grows, so
    none leaves the range of [int] on the way, in either run. *)
Theorem gitree_frame (dirname : string) (d : dir) (st : state) :
  counted st ->
  ends_in in_int (lift st (gitree dirname d state0)) ->
  gitree dirname d st = lift st (gitree dirname d state0)
  /\ ends_in counted (gitree dirname d state0)
  /\ ends_in in_int (gitree dirname d state0).
Proof.
  intros (C1 & C2 & C3 & C4) Hfit.
  split.
  { rewrite <- (merge_state0 st) at 1. apply gitree_merge. }
  pose proof (gitree_outcome d dirname state0) as Ho.
  assert (Hpos : forall p evs, 0 <= count p evs)
    by (intros p evs; unfold count; lia).
  assert (Hc : ends_in counted (gitree dirname d state0)).
  { destruct (gitree dirname d state0) as [s|c s|]; simpl in *; [| |exact I].
    - destruct Ho as (evs & (_ & L & N & B & S) & _).
      unfold counted. rewrite L, N, B, S. simpl.
      repeat split; apply Hpos.
    - destruct Ho as (evs & msg & (_ & L & N & B & S) & _).
      unfold counted. rewrite L, N, B, S. simpl.
      repeat split; apply Hpos. }
  split; [exact Hc|].
  destruct (gitree dirname d state0) as [s|c s|]; simpl in *; [| |exact I];
    unfold in_int, counted in *; simpl in *; lia.
Qed.

Lemma gitree_frame_witness :
  gitree "/r" (Dir [Dirent "f" DT_REG Unreadable;
                    Dirent "lost" DT_DIR Unreadable])
         (mkState 5 0 1 2 [Checking "/old"])
  = Exit (-1) (mkState 5 0 1 3
                 [Checking "/old"; Checking "/r"; NotInGit "/r" "f";
                  Stderr "gitree: opendir failed"]).
Proof.
  refine (proj1 (gitree_frame "/r" _ (mkState 5 0 1 2 [Checking "/old"])
                   _ _)).
  - unfold counted. simpl. lia.
  - unfold in_int, INT_MAX. simpl. lia.
Defined.
End V2_frame.

(** * Further facts: the order of a listing *)

Section V2_order.
Import V2.

Lemma filter_permutation {A : Type} (f : A -> bool) (l l' : list A) :
  Permutation l l' -> Permutation (filter f l) (filter f l').
Proof.
  induction 1 as [|x l l' _ IH|x y l|l l' l'' _ IH1 _ IH2]; cbn [filter].
  - constructor.
  - destruct (f x); [now constructor|exact IH].
  - destruct (f x), (f y); try apply Permutation_refl. constructor.
  - now transitivity (filter f l').
Qed.

Lemma existsb_permutation {A : Type} (f : A -> bool) (l l' : list A) :
  Permutation l l' -> existsb f l = existsb f l'.
Proof.
  induction 1 as [|x l l' _ IH|x y l|l l' l'' _ IH1 _ IH2]; cbn [existsb].
  - reflexivity.
  - now rewrite IH.
  - now rewrite !orb_assoc, (orb_comm (f y)).
  - congruence.
Qed.

Lemma scan_ok_permutation (ents ents' : list dirent) :
  Permutation ents ents' -> scan_ok ents = scan_ok ents'.
Proof.
  intros H. unfold scan_ok.
  rewrite (existsb_permutation _ _ _ H).
  rewrite (Permutation_length (filter_permutation is_subdir _ _ H)).
  now rewrite (Permutation_length (filter_permutation is_subfile _ _ H)).
Qed.

Lemma is_git_tree_permutation (ents ents' : list dirent) :
  Permutation ents ents' -> is_git_tree ents = is_git_tree ents'.
Proof.
  intros H. unfold is_git_tree, has_entry.
  now rewrite !(existsb_permutation _ _ _ H).
Qed.

Lemma count_permutation (p : event -> bool) (evs evs' : list event) :
  Permutation evs evs' -> count p evs = count p evs'.
Proof.
  intros H. unfold count.
  now rewrite (Permutation_length (filter_permutation p _ _ H)).
Qed.

Lemma advances_similar (st a b : state) (evs evs' : list event) :
  advances st a evs -> advances st b evs' -> Permutation evs evs' ->
  similar a b.
Proof.
  intros (Ta & La & Na & Ba & Sa) (Tb & Lb & Nb & Bb & Sb) H.
  unfold similar, counters. split.
  - rewrite La, Na, Ba, Sa, Lb, Nb, Bb, Sb.
    now rewrite !(count_permutation _ _ _ H).
  - rewrite Ta, Tb. now apply Permutation_app_head.
Qed.

Lemma similar_refl (a : state) : similar a a.
Proof. split; [reflexivity|apply Permutation_refl]. Qed.

Lemma similar_trans (a b c : state) :
  similar a b -> similar b c -> similar a c.
Proof.
  intros [C1 P1] [C2 P2]. split; [congruence|now transitivity (trace b)].
Qed.

Lemma similar_sym (a b : state) : similar a b -> similar b a.
Proof. intros [C P]. split; [congruence|now apply Permutation_sym]. Qed.

Lemma similar_merge (a a' b b' : state) :
  similar a a' -> similar b b' -> similar (merge a b) (merge a' b').
Proof.
  unfold similar, counters, merge. simpl. intros [Ca Pa] [Cb Pb].
  injection Ca as -> -> -> ->. injection Cb as -> -> -> ->.
  split; [reflexivity|now apply Permutation_app].
Qed.

Lemma similar_merge_swap (s x y : state) :
  similar (merge (merge s x) y) (merge (merge s y) x).
Proof.
  unfold similar, counters, merge. simpl. split.
  - repeat match goal with |- (_, _) = (_, _) => f_equal end; lia.
  - rewrite <- !app_assoc. apply Permutation_app_head.
    apply Permutation_app_comm.
Qed.

Lemma gitree_fresh (dirname : string) (d : dir) (st : state) :
  gitree dirname d st = lift st (gitree dirname d state0).
Proof. rewrite <- (merge_state0 st) at 1. apply gitree_merge. Qed.

Lemma gitree_each_fresh (calls : list (string * dir)) (st : state) :
  gitree_each calls st = lift st (gitree_each calls state0).
Proof. rewrite <- (merge_state0 st) at 1. apply gitree_each_merge. Qed.

Lemma lift_ret (st a : state) (r : result state) :
  lift st r = Ret a -> exists q, r = Ret q /\ a = merge st q.
Proof.
  destruct r as [q| |]; simpl; try discriminate.
  intros H. injection H as <-. now exists q.
Qed.

(** A call that returns from one state returns from a similar state, in a
    similar state. *)
Lemma gitree_similar (dirname : string) (d : dir) (s s' a : state) :
  similar s s' -> gitree dirname d s = Ret a ->
  exists a', gitree dirname d s' = Ret a' /\ similar a a'.
Proof.
  intros Hs Hg. rewrite gitree_fresh in Hg.
  destruct (lift_ret _ _ _ Hg) as (q & Hq & ->).
  exists (merge s' q). rewrite gitree_fresh, Hq. split; [reflexivity|].
  apply similar_merge; [exact Hs|apply similar_refl].
Qed.

Lemma gitree_each_similar (calls : list (string * dir)) (s s' a : state) :
  similar s s' -> gitree_each calls s = Ret a ->
  exists a', gitree_each calls s' = Ret a' /\ similar a a'.
Proof.
  intros Hs Hg. rewrite gitree_each_fresh in Hg.
  destruct (lift_ret _ _ _ Hg) as (q & Hq & ->).
  exists (merge s' q). rewrite gitree_each_fresh, Hq. split; [reflexivity|].
  apply similar_merge; [exact Hs|apply similar_refl].
Qed.

Lemma gitree_each_permutation (calls calls' : list (string * dir)) :
  Permutation calls calls' ->
  forall s a,
    gitree_each calls s = Ret a ->
    exists a', gitree_each calls' s = Ret a' /\ similar a a'.
Proof.
  induction 1 as [|[p d] l l' _ IH|[p d] [p' d'] l|l l' l'' _ IH1 _ IH2];
    intros s a Hg.
  - exists a. split; [exact Hg|apply similar_refl].
  - cbn [gitree_each] in *.
    destruct (gitree p d s) as [s1| |]; try discriminate. now apply IH.
  - cbn [gitree_each] in *.
    destruct (gitree p' d' s) as [s1| |] eqn:G1; try discriminate.
    destruct (gitree p d s1) as [s2| |] eqn:G2; try discriminate.
    rewrite gitree_fresh in G1, G2. rewrite gitree_each_fresh in Hg.
    destruct (lift_ret _ _ _ G1) as (y & Hy & ->).
    destruct (lift_ret _ _ _ G2) as (x & Hx & ->).
    destruct (lift_ret _ _ _ Hg) as (q & Hq & ->).
    rewrite (gitree_fresh p d s), Hx. simpl.
    rewrite (gitree_fresh p' d' (merge s x)), Hy. simpl.
    rewrite gitree_each_fresh, Hq. simpl.
    eexists. split; [reflexivity|].
    apply similar_merge; [apply similar_merge_swap|apply similar_refl].
  - destruct (IH1 _ _ Hg) as (a1 & Hg1 & Hs1).
    destruct (IH2 _ _ Hg1) as (a2 & Hg2 & Hs2).
    exists a2. split; [exact Hg2|]. now apply (similar_trans _ a1).
Qed.

Lemma ret_scan_ok (dirname : string) (ents : list dirent) (st a : state) :
  gitree dirname (Dir ents) st = Ret a -> scan_ok ents = true.
Proof.
  intros Hg. destruct (scan_ok ents) eqn:Hs; [reflexivity|].
  destruct (gitree_fatal dirname ents st Hs) as (c & msg & H & _).
  rewrite H in Hg. discriminate.
Qed.

(** One listing in another order. *)
Lemma gitree_permutation (dirname : string) (ents ents' : list dirent)
      (st a : state) :
  Permutation ents ents' ->
  gitree dirname (Dir ents) st = Ret a ->
  exists a', gitree dirname (Dir ents') st = Ret a' /\ similar a a'.
Proof.
  intros Hp Hg. pose proof (ret_scan_ok _ _ _ _ Hg) as Hs.
  pose proof Hs as Hs'. rewrite (scan_ok_permutation _ _ Hp) in Hs'.
  destruct (is_git_tree ents) eqn:Hr;
    pose proof Hr as Hr'; rewrite (is_git_tree_permutation _ _ Hp) in Hr'.
  - destruct (gitree_root_report dirname ents st Hs Hr) as (b & Hb & Ha).
    destruct (gitree_root_report dirname ents' st Hs' Hr')
      as (b' & Hb' & Ha').
    rewrite Hg in Hb. injection Hb as <-.
    exists b'. split; [exact Hb'|].
    apply (advances_similar _ _ _ _ _ Ha Ha').
    apply Permutation_app_head, Permutation_app_head.
    unfold layout_warnings. apply Permutation_map.
    now apply filter_permutation.
  - rewrite gitree_non_root in Hg by assumption.
    rewrite gitree_non_root by assumption.
    set (s := fold_left (report_file dirname)
                (subfile (scanned dirname ents))
                (emit (Checking dirname) st)) in *.
    set (s' := fold_left (report_file dirname)
                 (subfile (scanned dirname ents'))
                 (emit (Checking dirname) st)).
    assert (Hss : similar s s').
    { assert (Ha : forall es,
                 advances st
                   (fold_left (report_file dirname)
                      (subfile (scanned dirname es))
                      (emit (Checking dirname) st))
                   ([Checking dirname] ++ stray_warnings dirname es)).
      { intros es.
        eapply advances_trans; [apply advances_emit; reflexivity|].
        rewrite <- stray_warnings_scanned. apply report_files_advances. }
      apply (advances_similar _ _ _ _ _ (Ha ents) (Ha ents')).
      apply Permutation_app_head. unfold stray_warnings.
      destruct (in_exception_list dirname); [constructor|].
      apply Permutation_map. now apply filter_permutation. }
    destruct (gitree_each_similar _ _ _ _ Hss Hg) as (b & Hb & Hab).
    assert (Hc : Permutation (subdir_calls dirname ents)
                             (subdir_calls dirname ents')).
    { unfold subdir_calls. apply Permutation_map.
      now apply filter_permutation. }
    destruct (gitree_each_permutation _ _ Hc _ _ Hb) as (b' & Hb' & Hbb).
    exists b'. split; [exact Hb'|]. now apply (similar_trans _ b).
Qed.
End V2_order.

Section V2_reordered.
Import V2.

Lemma gitree_each_reordered (dirname : string) (es es1 : list dirent) :
  Forall (fun e =>
            forall d', reordered (target e) d' ->
            forall dirname st a,
              gitree dirname (target e) st = Ret a ->
              exists a', gitree dirname d' st = Ret a' /\ similar a a') es ->
  Forall2 (fun e e' =>
             d_name e = d_name e' /\ d_type e = d_type e'
             /\ (is_subdir e = true -> reordered (target e) (target e')))
          es es1 ->
  forall s a,
    gitree_each (subdir_calls dirname es) s = Ret a ->
    exists a', gitree_each (subdir_calls dirname es1) s = Ret a'
               /\ similar a a'.
Proof.
  intros IH Hall. unfold subdir_calls.
  induction Hall as [|e e1 es es1 (Hn & Ht & Hsub) _ IHall]; intros s a Hg.
  - exists a. split; [exact Hg|apply similar_refl].
  - inversion IH as [|? ? He IHes]; subst.
    assert (Hd : is_subdir e1 = is_subdir e)
      by (unfold is_subdir; now rewrite Hn, Ht).
    cbn [filter] in *. rewrite Hd.
    destruct (is_subdir e) eqn:E; [|now apply IHall].
    cbn [map gitree_each] in *. rewrite <- Hn.
    destruct (gitree (child_path dirname (d_name e)) (target e) s)
      as [s1| |] eqn:G; try discriminate.
    destruct (He _ (Hsub eq_refl) _ _ _ G) as (s1' & -> & Hs1).
    destruct (IHall IHes _ _ Hg) as (b & Hb & Hab).
    destruct (gitree_each_similar _ _ _ _ Hs1 Hb) as (b' & Hb' & Hbb).
    exists b'. split; [exact Hb'|]. now apply (similar_trans _ b).
Qed.

(** X10.  The order in which [readdir] gives the entries of the
    directories does not change what a run that goes through counts.  For
    two trees that differ in the order of their listings only, a walk
    that returns on the one returns on the other, with the same four
    counters and with the same lines written, up to their order. *)
Theorem listing_order (d : dir) :
  forall d', reordered d d' ->
  forall dirname st a,
    gitree dirname d st = Ret a ->
    exists a',
      gitree dirname d' st = Ret a'
      /\ counters a' = counters a
      /\ Permutation (trace a) (trace a').
Proof.
  assert (H : forall d' : dir, reordered d d' ->
              forall dirname st a,
                gitree dirname d st = Ret a ->
                exists a', gitree dirname d' st = Ret a' /\ similar a a').
  { induction d as [|es IH] using dir_ind; intros d' Hre dirname st a Hg;
      [discriminate|].
    inversion Hre as [|? es1 es2 Hall Hperm]; subst.
    assert (Hstep : exists a1, gitree dirname (Dir es1) st = Ret a1
                               /\ similar a a1).
    { assert (Hnames : Forall2 (fun e1 e2 => d_name e1 = d_name e2
                                             /\ d_type e1 = d_type e2)
                               es es1).
      { eapply Forall2_impl; [|exact Hall]. simpl. tauto. }
      rewrite gitree_dir in Hg. rewrite gitree_dir.
      rewrite <- (readdir_loop_names _ _ _ Hnames).
      destruct (readdir_loop dirname es locals0) as [l| |];
        try discriminate.
      destruct (has_dir_objects l && has_dir_refs l && has_file_HEAD l).
      - exists a. split; [|apply similar_refl].
        rewrite <- Hg. unfold check_gitree.
        now rewrite (check_entries_names _ _ _ Hnames).
      - now apply (gitree_each_reordered dirname es es1 IH Hall). }
    destruct Hstep as (a1 & Hg1 & Hs1).
    destruct (gitree_permutation _ _ _ _ _ Hperm Hg1) as (a2 & Hg2 & Hs2).
    exists a2. split; [exact Hg2|]. now apply (similar_trans _ a1). }
  intros d' Hre dirname st a Hg.
  destruct (H d' Hre dirname st a Hg) as (a' & Hg' & Hc & Hp).
  exists a'. repeat split; [exact Hg'|now symmetry|exact Hp].
Qed.

Lemma listing_order_witness :
  exists a',
    gitree "/r" (Dir [Dirent "b" DT_DIR (Dir [Dirent "y" DT_REG Unreadable;
                                              Dirent "x" DT_REG Unreadable]);
                      Dirent "f" DT_REG Unreadable;
                      Dirent "a" DT_DIR (Dir [])]) state0 = Ret a'
    /\ counters a' = (0, 0, 0, 3)
    /\ Permutation
         [Checking "/r"; NotInGit "/r" "f"; Checking "/r/a";
          Checking "/r/b"; NotInGit "/r/b" "x"; NotInGit "/r/b" "y"]
         (trace a').
Proof.
  assert (Hre : reordered
                  (Dir [Dirent "f" DT_REG Unreadable;
                        Dirent "a" DT_DIR (Dir []);
                        Dirent "b" DT_DIR
                          (Dir [Dirent "x" DT_REG Unreadable;
                                Dirent "y" DT_REG Unreadable])])
                  (Dir [Dirent "b" DT_DIR
                          (Dir [Dirent "y" DT_REG Unreadable;
                                Dirent "x" DT_REG Unreadable]);
                        Dirent "f" DT_REG Unreadable;
                        Dirent "a" DT_DIR (Dir [])])).
  { apply (reordered_dir _
             [Dirent "f" DT_REG Unreadable;
              Dirent "a" DT_DIR (Dir []);
              Dirent "b" DT_DIR (Dir [Dirent "y" DT_REG Unreadable;
                                      Dirent "x" DT_REG Unreadable])]).
    - constructor; [repeat split; intros _; constructor|].
      constructor;
        [repeat split; intros _; apply (reordered_dir _ []); constructor|].
      constructor; [|constructor].
      repeat split. intros _.
      apply (reordered_dir _ [Dirent "x" DT_REG Unreadable;
                              Dirent "y" DT_REG Unreadable]).
      + constructor; [repeat split; intros _; constructor|].
        constructor; [repeat split; intros _; constructor|constructor].
      + apply perm_swap.
    - apply Permutation_sym.
      apply (Permutation_cons_append
               [Dirent "f" DT_REG Unreadable; Dirent "a" DT_DIR (Dir [])]). }
  exact (listing_order _ _ Hre "/r" state0
           (mkState 0 0 0 3
              [Checking "/r"; NotInGit "/r" "f"; Checking "/r/a";
               Checking "/r/b"; NotInGit "/r/b" "x";
               NotInGit "/r/b" "y"]) eq_refl).
Defined.
End V2_reordered.

(** * Further facts: the staged checker *)

Section V1_outcome.
Import V1.

Lemma v1_count_app (p : event -> bool) (a b : list event) :
  count p (a ++ b) = count p a + count p b.
Proof. unfold count. rewrite filter_app, length_app. lia. Qed.

Lemma v1_advances_refl (st : state) : advances st st [].
Proof.
  unfold advances, count. simpl. rewrite app_nil_r.
  repeat split; try lia. constructor.
Qed.

Lemma v1_advances_trans (a b c : state) (e1 e2 : list event) :
  advances a b e1 -> advances b c e2 -> advances a c (e1 ++ e2).
Proof.
  unfold advances.
  intros (A1 & B1 & C1 & T1 & L1 & N1 & F1)
         (A2 & B2 & C2 & T2 & L2 & N2 & F2).
  rewrite !v1_count_app, T2, T1, app_assoc.
  repeat split; try congruence; try lia.
  apply Forall_app. split; [exact F1|].
  eapply Forall_impl; [|exact F2].
  intros ev. unfold in_stage. now rewrite A1, B1, C1.
Qed.

Lemma v1_advances_emit (ev : event) (st : state) :
  is_layout ev = false -> is_name ev = false -> in_stage st ev = true ->
  advances st (emit ev st) [ev].
Proof.
  intros H1 H2 H3. unfold advances, count. cbn [filter].
  rewrite H1, H2. simpl. repeat split; try lia. now repeat constructor.
Qed.

Lemma v1_safe_advances (dirname : string) (st st' : state)
      (evs : list event) :
  advances st st' evs -> safe dirname st' -> safe dirname st.
Proof.
  intros (_ & B & C & _) [H|[H2 H3]]; [now left|right]. split; congruence.
Qed.

(** The outcome of a call and of what follows it. *)
Lemma v1_outcome_seq (dirname : string) (st : state) (r : result state)
      (k : state -> result state) :
  outcome dirname st r ->
  (forall st1 evs, advances st st1 evs -> outcome dirname st1 (k st1)) ->
  outcome dirname st
    (match r with
     | Ret st1 => k st1
     | Exit status s => Exit status s
     | Undef => Undef
     end).
Proof.
  intros Hr Hk. destruct r as [st1|c s|]; [|exact Hr|exact Hr].
  destruct Hr as (evs & Ha). specialize (Hk st1 evs Ha).
  destruct (k st1) as [st2|c st2|]; simpl in *.
  - destruct Hk as (evs2 & Ha2). exists (evs ++ evs2).
    now apply (v1_advances_trans _ st1).
  - destruct Hk as (evs2 & msg & Ha2 & Hf). exists (evs ++ evs2), msg.
    split; [|exact Hf]. rewrite <- app_assoc.
    now apply (v1_advances_trans _ st1).
  - intros Hs. apply Hk.
    destruct Ha as (_ & B & C & _). destruct Hs as [H|[H2 H3]];
      [now left|right]. split; congruence.
Qed.

Lemma v1_check_entries_advances (ents : list dirent) :
  forall st,
    stage1 st = true ->
    exists evs, advances st (fold_left check_entry ents st) evs.
Proof.
  induction ents as [|e ents IH]; intros st Hst.
  - exists []. apply v1_advances_refl.
  - cbn [fold_left].
    assert (He : exists evs, advances st (check_entry st e) evs).
    { unfold check_entry.
      destruct (strcmp0 (d_name e) ".");
        [exists []; apply v1_advances_refl|].
      destruct (strcmp0 (d_name e) "..");
        [exists []; apply v1_advances_refl|].
      destruct (negb _); [exists []; apply v1_advances_refl|].
      exists [BreaksLayout (d_name e)].
      unfold advances, count. simpl. repeat split; try lia.
      now repeat constructor. }
    destruct He as (evs1 & H1).
    assert (Hst1 : stage1 (check_entry st e) = true)
      by (destruct H1 as (-> & _); exact Hst).
    destruct (IH (check_entry st e) Hst1) as (evs2 & H2).
    exists (evs1 ++ evs2). now apply (v1_advances_trans _ (check_entry st e)).
Qed.

Lemma v1_check_gitree_outcome (dirname path : string) (d : dir)
      (st : state) :
  outcome dirname st (check_gitree path d st).
Proof.
  unfold check_gitree.
  destruct (stage1 st) eqn:E1; simpl; [|exists []; apply v1_advances_refl].
  assert (Hc : advances st (emit (Checking path) st) [Checking path])
    by (apply v1_advances_emit; try reflexivity; exact E1).
  destruct d as [|ents]; simpl.
  - exists [Checking path], "check_gitree: opendir failed". split.
    + eapply v1_advances_trans; [exact Hc|].
      apply v1_advances_emit; reflexivity.
    + unfold fatal. tauto.
  - destruct (v1_check_entries_advances ents (emit (Checking path) st) E1)
      as (evs & Ha).
    exists ([Checking path] ++ evs).
    now apply (v1_advances_trans _ (emit (Checking path) st)).
Qed.

Lemma in_nonbare_exp_list_none (dirname : string) :
  in_nonbare_exp_list dirname = None <-> slash_free dirname = true.
Proof.
  unfold in_nonbare_exp_list. rewrite slash_free_strrchr.
  destruct (strrchr dirname "/"%char); split; congruence.
Qed.

Lemma v1_check_gitree_nonbare_outcome (dirname : string) (st : state) :
  outcome dirname st (check_gitree_nonbare dirname st).
Proof.
  unfold check_gitree_nonbare.
  destruct (stage2 st) eqn:E2; simpl;
    [|exists []; apply v1_advances_refl].
  destruct (in_nonbare_exp_list dirname) as [[|]|] eqn:E; simpl.
  - exists []. apply v1_advances_refl.
  - exists [NonBareTree dirname].
    apply v1_advances_emit; try reflexivity; exact E2.
  - apply in_nonbare_exp_list_none in E. intros [H|[H _]]; congruence.
Qed.

Lemma slash_free_child (dirname name : string) :
  slash_free (child_path dirname name) = false.
Proof.
  unfold child_path. induction dirname as [|c d IH]; simpl in *.
  - reflexivity.
  - rewrite IH. apply andb_false_r.
Qed.

Lemma v1_outcome_child (dirname name : string) (st : state)
      (r : result state) :
  outcome (child_path dirname name) st r -> outcome dirname st r.
Proof.
  destruct r; simpl; try exact id.
  intros H _. apply H. left. apply slash_free_child.
Qed.
End V1_outcome.

Section V1_walk_outcome.
Import V1.

Lemma v1_filled_store {A : Type} (a : list A) (l : locals) (v : A) :
  filled l -> List.length a = List.length (subdir l) ->
  array_store SUBDIRNO a (i l) v = Some (a ++ [v]).
Proof.
  intros (Hi & _ & _ & Hlt) Ha. rewrite Hi, <- Ha.
  apply array_store_next. rewrite Ha, <- Hi. exact Hlt.
Qed.

Lemma v1_readdir_step_outcome (dirname : string) (e : dirent) (l : locals)
      (st : state) :
  filled l ->
  match readdir_step dirname e (l, st) with
  | Ret (l', st') => filled l' /\ exists evs, advances st st' evs
  | Exit status (l', st') =>
      exists evs msg,
        advances st st' (evs ++ [Stderr msg]) /\ fatal status msg
  | Undef => ~ safe dirname st
  end.
Proof.
  intros Hl. pose proof Hl as (Hi & Hg & Hb & Hlt).
  assert (Hrefl : filled l /\ exists evs, advances st st evs)
    by (split; [exact Hl|exists []; apply v1_advances_refl]).
  unfold readdir_step.
  destruct (strcmp0 (d_name e) "."); [exact Hrefl|].
  destruct (strcmp0 (d_name e) ".."); [exact Hrefl|].
  destruct (d_type e =? DT_DIR).
  - rewrite (v1_filled_store (subdir l) l _ Hl eq_refl).
    rewrite (v1_filled_store (git l) l _ Hl Hg).
    rewrite (v1_filled_store (git_bare l) l _ Hl Hb).
    destruct (Z.leb_spec SUBDIRNO (i l + 1)).
    + exists [], "ERROR: gitree: reach max dir num". split.
      * apply v1_advances_emit; reflexivity.
      * unfold fatal. tauto.
    + split; [|exists []; apply v1_advances_refl].
      unfold filled. cbn [subdir git git_bare i].
      rewrite !length_app. cbn [List.length]. repeat split; lia.
  - destruct (d_type e =? DT_REG).
    + destruct (stage3 st) eqn:E3; [|exact Hrefl].
      destruct (in_nonbare_exp_list dirname) as [[|]|] eqn:E.
      * exact Hrefl.
      * split; [exact Hl|]. exists [FileLine dirname (d_name e)].
        apply v1_advances_emit; try reflexivity; exact E3.
      * apply in_nonbare_exp_list_none in E.
        intros [H|[_ H]]; congruence.
    + destruct (d_type e =? DT_UNKNOWN); [|exact Hrefl].
      exists [], "ERROR: gitree: unknown file type". split.
      * apply v1_advances_emit; reflexivity.
      * unfold fatal. tauto.
Qed.

Lemma v1_readdir_loop_outcome (dirname : string) (ents : list dirent) :
  forall l st,
    filled l ->
    match readdir_loop dirname ents (l, st) with
    | Ret (l', st') => filled l' /\ exists evs, advances st st' evs
    | Exit status (l', st') =>
        exists evs msg,
          advances st st' (evs ++ [Stderr msg]) /\ fatal status msg
    | Undef => ~ safe dirname st
    end.
Proof.
  induction ents as [|e ents IH]; intros l st Hl.
  - simpl. split; [exact Hl|exists []; apply v1_advances_refl].
  - cbn [readdir_loop]. unfold seq.
    pose proof (v1_readdir_step_outcome dirname e l st Hl) as Hstep.
    destruct (readdir_step dirname e (l, st)) as [[l1 st1]|c [l1 st1]|];
      [|exact Hstep|exact Hstep].
    destruct Hstep as (Hl1 & evs1 & Ha1). specialize (IH l1 st1 Hl1).
    destruct (readdir_loop dirname ents (l1, st1))
      as [[l2 st2]|c [l2 st2]|].
    + destruct IH as (Hl2 & evs2 & Ha2). split; [exact Hl2|].
      exists (evs1 ++ evs2). now apply (v1_advances_trans _ st1).
    + destruct IH as (evs2 & msg & Ha2 & Hf). exists (evs1 ++ evs2), msg.
      split; [|exact Hf]. rewrite <- app_assoc.
      now apply (v1_advances_trans _ st1).
    + intros Hs. apply IH. destruct Ha1 as (_ & B & C & _).
      destruct Hs as [H|[H2 H3]]; [now left|right]. split; congruence.
Qed.

Lemma filled_locals0 : filled locals0.
Proof. unfold filled, locals0, SUBDIRNO. simpl. repeat split; lia. Qed.

Lemma v1_visit_each_outcome (dirname : string) (es : list dirent) :
  Forall (fun e => forall path st,
              outcome path st (gitree path (target e) st)) es ->
  forall st, outcome dirname st (visit_each dirname es st).
Proof.
  induction 1 as [|e es He _ IH]; intros st.
  - exists []. apply v1_advances_refl.
  - cbn [visit_each]. unfold seq at 1.
    apply v1_outcome_seq; [|intros st1 _ _; apply IH].
    unfold visit. destruct (git_flag (d_name e)).
    + unfold seq. apply v1_outcome_seq.
      * apply v1_check_gitree_outcome.
      * intros st1 _ _. destruct (negb (git_bare_flag (d_name e))).
        -- apply v1_check_gitree_nonbare_outcome.
        -- exists []. apply v1_advances_refl.
    + unfold may_descend. destruct (stage3 st) eqn:E3; simpl.
      * destruct (in_nonbare_exp_list dirname) as [[|]|] eqn:E; simpl.
        -- exists []. apply v1_advances_refl.
        -- apply (v1_outcome_child dirname (d_name e)), He.
        -- apply in_nonbare_exp_list_none in E.
           intros [H|[_ H]]; congruence.
      * apply (v1_outcome_child dirname (d_name e)), He.
Qed.

(** A call of [gitree] of the staged checker. *)
Lemma v1_gitree_outcome (d : dir) :
  forall dirname st, outcome dirname st (gitree dirname d st).
Proof.
  induction d as [|ents IH] using dir_ind; intros dirname st.
  - simpl. exists [], "gitree: opendir failed". split.
    + apply v1_advances_emit; reflexivity.
    + unfold fatal. tauto.
  - rewrite v1_gitree_dir.
    pose proof (v1_readdir_loop_outcome dirname ents locals0 st
                  filled_locals0) as Hloop.
    destruct (readdir_loop dirname ents (locals0, st))
      as [[l st1]|c [l st1]|]; [|exact Hloop|exact Hloop].
    destruct Hloop as (_ & evs1 & Ha1).
    destruct (has_dir_objects l && has_dir_refs l).
    + apply (v1_outcome_seq dirname st (Ret st1)
               (fun s => match check_gitree dirname (Dir ents) s with
                         | Ret st2 =>
                             Ret (if stage1 st2
                                  then incr_sum2
                                         (emit (NameNotGit dirname) st2)
                                  else st2)
                         | Exit status s' => Exit status s'
                         | Undef => Undef
                         end)); [now exists evs1|].
      intros s _ _.
      apply (v1_outcome_seq dirname s (check_gitree dirname (Dir ents) s)
               (fun st2 => Ret (if stage1 st2
                                then incr_sum2
                                       (emit (NameNotGit dirname) st2)
                                else st2)));
        [apply v1_check_gitree_outcome|].
      intros st2 _ _. simpl. destruct (stage1 st2) eqn:E1.
      * exists [NameNotGit dirname].
        unfold advances, count. simpl. repeat split; try lia.
        now repeat constructor.
      * exists []. apply v1_advances_refl.
    + apply (v1_outcome_seq dirname st (Ret st1)
               (visit_each dirname (filter is_subdir ents)));
        [now exists evs1|].
      intros s _ _. apply v1_visit_each_outcome.
      apply Forall_forall. intros e He. apply filter_In in He.
      destruct He as [Hin _]. intros path s0.
      apply (proj1 (Forall_forall _ _) IH e Hin).
Qed.
End V1_walk_outcome.

Section V1_theorems.
Import V1.

(** X11.  A walk of the staged checker leaves the three stage flags as
    they are, counts each "breaks Git repo layout rule" in [sum] and each
    "name not terminated with .git" in [sum2], and writes only lines of the
    stage that runs.  It stops the run with status -1 or -2 and one of its
    four messages as the last line.  It is defined whenever the path has a
    slash or stage 1 runs; in stage 3, a path without a slash and a regular
    file as the first entry make [in_nonbare_exp_list] add one to the null
    pointer. *)
Theorem staged_walk (dirname : string) (d : dir) (st : state) :
  (safe dirname st -> gitree dirname d st <> Undef)
  /\ (forall st',
         gitree dirname d st = Ret st' -> exists evs, advances st st' evs)
  /\ (forall status st',
         gitree dirname d st = Exit status st' ->
         exists evs msg,
           advances st st' (evs ++ [Stderr msg]) /\ fatal status msg)
  /\ (forall name t rest,
         stage3 st = true -> slash_free dirname = true ->
         is_dot name = false ->
         gitree dirname (Dir (Dirent name DT_REG t :: rest)) st = Undef).
Proof.
  pose proof (v1_gitree_outcome d dirname st) as Ho.
  split; [|split; [|split]].
  - intros Hs Hg. rewrite Hg in Ho. exact (Ho Hs).
  - intros st' Hg. now rewrite Hg in Ho.
  - intros c st' Hg. now rewrite Hg in Ho.
  - intros name t rest H3 Hfree Hdot.
    rewrite v1_gitree_dir. cbn [readdir_loop]. unfold seq, readdir_step.
    cbn [d_name d_type]. apply is_dot_split in Hdot.
    destruct Hdot as [-> ->]. rewrite H3.
    apply in_nonbare_exp_list_none in Hfree. now rewrite Hfree.
Qed.

Lemma staged_walk_witness :
  gitree "/r" (Dir [Dirent "notes" DT_REG Unreadable])
         (state0 false false true) <> Undef
  /\ gitree "r" (Dir [Dirent "notes" DT_REG Unreadable])
            (state0 false false true) = Undef.
Proof.
  split.
  - apply (proj1 (staged_walk "/r" _ _)). left. reflexivity.
  - apply (proj2 (proj2 (proj2 (staged_walk "r" Unreadable
                                            (state0 false false true)))));
      reflexivity.
Defined.

Lemma v1_stage1_off (st : state) (evs : list event) :
  stage1 st = false -> Forall (fun ev => in_stage st ev = true) evs ->
  filter is_layout evs = [] /\ filter is_name evs = []
  /\ Forall (fun ev => match ev with
                       | Checking _ | CheckResult _ _ => False
                       | _ => True
                       end) evs.
Proof.
  intros H1. induction 1 as [|ev evs Hev _ IH]; [now repeat split|].
  destruct IH as (IL & IN & IC).
  destruct ev; simpl in Hev; try congruence; cbn [filter is_layout is_name];
    repeat split; try assumption; now constructor.
Qed.

(** X12.  Outside stage 1 the staged checker counts nothing and writes
    none of the lines of stage 1: a walk that returns or stops the run
    leaves [sum] and [sum2] as they are and writes no "Checking" line and
    no warning. *)
Theorem stage1_only_counts (dirname : string) (d : dir) (st st' : state) :
  stage1 st = false ->
  gitree dirname d st = Ret st'
  \/ (exists status, gitree dirname d st = Exit status st') ->
  sum st' = sum st /\ sum2 st' = sum2 st
  /\ exists evs,
       trace st' = trace st ++ evs
       /\ filter is_layout evs = [] /\ filter is_name evs = []
       /\ Forall (fun ev => match ev with
                            | Checking _ | CheckResult _ _ => False
                            | _ => True
                            end) evs.
Proof.
  intros H1 Hg. pose proof (v1_gitree_outcome d dirname st) as Ho.
  assert (Hmain : exists evs, advances st st' evs).
  { destruct Hg as [Hg|[c Hg]]; rewrite Hg in Ho; simpl in Ho.
    - exact Ho.
    - destruct Ho as (evs & msg & Ha & _). now exists (evs ++ [Stderr msg]). }
  destruct Hmain as (evs & _ & _ & _ & Ht & Hl & Hn & Hf).
  destruct (v1_stage1_off st evs H1 Hf) as (IL & IN & IC).
  unfold count in *. rewrite IL in Hl. rewrite IN in Hn. simpl in *.
  repeat split; try lia. exists evs. now repeat split.
Qed.

Lemma stage1_only_counts_witness :
  exists evs,
    [FileLine "/r/proj" "README.md"; FileLine "/r/proj/x" "y"] = [] ++ evs
    /\ filter is_layout evs = [] /\ filter is_name evs = [].
Proof.
  destruct (stage1_only_counts "/r/proj"
              (Dir [Dirent ".git" DT_DIR
                      (Dir [Dirent "junk.bin" DT_REG Unreadable]);
                    Dirent "README.md" DT_REG Unreadable;
                    Dirent "x" DT_DIR (Dir [Dirent "y" DT_REG Unreadable])])
              (state0 false false true)
              (mkState false false true 0 0
                 [FileLine "/r/proj" "README.md"; FileLine "/r/proj/x" "y"]))
    as (_ & _ & evs & Ht & Hl & Hn & _); [reflexivity|left; reflexivity|].
  exists evs. now repeat split.
Defined.

(** X13.  A run of the staged checker ends with status 0 only after a walk
    that returned; exactly one stage ran; [sum] and [sum2] are the numbers
    of the two warnings written; and the last lines give the two counters
    in stage 1 and are not written in the other stages. *)
Theorem staged_summary (argv : list string) (root : dir) (st : state) :
  main argv root = Exit 0 st ->
  ((stage1 st = true /\ stage2 st = false /\ stage3 st = false)
   \/ (stage1 st = false /\ stage2 st = true /\ stage3 st = false)
   \/ (stage1 st = false /\ stage2 st = false /\ stage3 st = true))
  /\ exists evs,
       trace st
       = evs ++ (if stage1 st then [CheckResult (sum st) (sum2 st)] else [])
       /\ sum st = count is_layout evs
       /\ sum2 st = count is_name evs.
Proof.
  unfold main, usage.
  destruct argv as [|prog [|opt [|path [|? ?]]]]; try discriminate.
  assert (Hrun : forall s1 s2 s3,
             match gitree path root (state0 s1 s2 s3) with
             | Ret st0 =>
                 Exit 0 (if stage1 st0
                         then emit (CheckResult (sum st0) (sum2 st0)) st0
                         else st0)
             | Exit status st0 => Exit status st0
             | Undef => Undef
             end = Exit 0 st ->
             (stage1 st = s1 /\ stage2 st = s2 /\ stage3 st = s3)
             /\ exists evs,
                  trace st
                  = evs ++ (if stage1 st
                            then [CheckResult (sum st) (sum2 st)] else [])
                  /\ sum st = count is_layout evs
                  /\ sum2 st = count is_name evs).
  { intros s1 s2 s3 H.
    pose proof (v1_gitree_outcome root path (state0 s1 s2 s3)) as Ho.
    destruct (gitree path root (state0 s1 s2 s3)) as [st0|c st0|];
      [| |discriminate].
    - injection H as <-. simpl in Ho.
      destruct Ho as (evs & A & B & C & Ht & Hl & Hn & _).
      simpl in A, B, C, Ht, Hl, Hn.
      destruct (stage1 st0) eqn:E1; simpl; rewrite ?E1;
        (split; [now repeat split|]); exists evs;
        rewrite Ht, ?app_nil_r; now repeat split.
    - injection H as -> _. simpl in Ho.
      destruct Ho as (_ & msg & _ & Hk). unfold fatal in Hk.
      destruct Hk as [[? _]|[[? _]|[[? _]|[? _]]]]; discriminate. }
  destruct (strncmp0 opt "-1" 2).
  { intros H. destruct (Hrun _ _ _ H) as ((A & B & C) & He).
    split; [tauto|exact He]. }
  destruct (strncmp0 opt "-2" 2).
  { intros H. destruct (Hrun _ _ _ H) as ((A & B & C) & He).
    split; [tauto|exact He]. }
  destruct (strncmp0 opt "-3" 2); [|discriminate].
  intros H. destruct (Hrun _ _ _ H) as ((A & B & C) & He).
  split; [tauto|exact He].
Qed.

Lemma staged_summary_witness :
  exists evs,
    [Checking "/r/a.git"; BreaksLayout "junk"; CheckResult 1 0]
    = evs ++ [CheckResult 1 0]
    /\ 1 = count is_layout evs.
Proof.
  destruct (staged_summary ["gitree"; "-1"; "/r"]
              (Dir [Dirent "a.git" DT_DIR
                      (Dir [Dirent "junk" DT_REG Unreadable])])
              (mkState true false false 1 0
                 [Checking "/r/a.git"; BreaksLayout "junk";
                  CheckResult 1 0]) eq_refl)
    as (_ & evs & Ht & Hl & _).
  exists evs. split; [exact Ht|exact Hl].
Defined.
End V1_theorems.

Section V1_stage3.
Import V1.

Lemma v1_readdir_files (dirname : string) (listed : bool)
      (ents : list dirent) :
  in_nonbare_exp_list dirname = Some listed ->
  forall l st l1 st1,
    stage3 st = true ->
    readdir_loop dirname ents (l, st) = Ret (l1, st1) ->
    stage1 st1 = stage1 st /\ stage2 st1 = stage2 st /\ stage3 st1 = true
    /\ sum st1 = sum st /\ sum2 st1 = sum2 st
    /\ trace st1
       = trace st
         ++ (if listed then []
             else map (fun e => FileLine dirname (d_name e))
                      (filter is_subfile ents)).
Proof.
  intros Hin.
  induction ents as [|e ents IH]; intros l st l1 st1 H3 H.
  - simpl in H. injection H as <- <-.
    destruct listed; simpl; rewrite app_nil_r; now repeat split.
  - cbn [readdir_loop] in H. unfold seq in H.
    destruct (readdir_step dirname e (l, st)) as [[l2 st2]|c [l2 st2]|]
      eqn:Hstep; try discriminate.
    assert (Hst2 : st2 = (if is_subfile e && negb listed
                          then emit (FileLine dirname (d_name e)) st
                          else st)).
    { unfold readdir_step in Hstep. unfold is_subfile, is_dot.
      destruct (strcmp0 (d_name e) "."); [simpl; congruence|].
      destruct (strcmp0 (d_name e) ".."); [simpl; congruence|]. simpl.
      destruct (Z.eqb_spec (d_type e) DT_DIR) as [Hd|Hd].
      - rewrite Hd. simpl.
        destruct (array_store _ _ _ _); [|discriminate].
        destruct (array_store _ _ _ _); [|discriminate].
        destruct (array_store _ _ _ _); [|discriminate].
        destruct (SUBDIRNO <=? i l + 1); [discriminate|]. congruence.
      - destruct (d_type e =? DT_REG).
        + rewrite H3, Hin in Hstep. destruct listed; simpl; congruence.
        + simpl. destruct (d_type e =? DT_UNKNOWN); congruence. }
    assert (H3' : stage3 st2 = true)
      by (rewrite Hst2; destruct (is_subfile e && negb listed); exact H3).
    destruct (IH _ _ _ _ H3' H) as (A & B & C & S1 & S2 & T).
    rewrite A, B, S1, S2, T, Hst2. cbn [filter].
    destruct (is_subfile e), listed; simpl;
      rewrite <- ?app_assoc; now repeat split.
Qed.

(** X14.  Stage 3 writes the regular files of a directory while it reads
    the listing, before it knows whether the directory is a Git tree: one
    line for each regular file, in the order of the listing, unless the
    last path component is in the list of allowed non-bare trees.  A
    directory with "objects" and "refs" has its files listed like any
    other, and the walk ends there. *)
Theorem stage3_file_lines (dirname : string) (ents : list dirent)
        (st st1 : state) (l : locals) :
  stage3 st = true ->
  in_nonbare_exp_list dirname = Some false ->
  readdir_loop dirname ents (locals0, st) = Ret (l, st1) ->
  trace st1
  = trace st ++ map (fun e => FileLine dirname (d_name e))
                    (filter is_subfile ents)
  /\ (stage1 st = false ->
      has_entry "objects" DT_DIR ents = true ->
      has_entry "refs" DT_DIR ents = true ->
      gitree dirname (Dir ents) st = Ret st1).
Proof.
  intros H3 Hin Hl.
  destruct (v1_readdir_files dirname false ents Hin _ _ _ _ H3 Hl)
    as (A & _ & _ & _ & _ & T).
  split; [exact T|]. intros H1 Ho Hr.
  rewrite v1_gitree_dir, Hl.
  destruct (v1_readdir_flags _ _ _ _ _ _ Hl) as [-> ->].
  rewrite Ho, Hr. cbn [locals0 has_dir_objects has_dir_refs orb andb].
  unfold check_gitree. rewrite A, H1. simpl. now rewrite A, H1.
Qed.

Lemma stage3_file_lines_witness :
  gitree "/srv/proj"
         (Dir [Dirent "objects" DT_DIR (Dir []);
               Dirent "HEAD" DT_REG Unreadable;
               Dirent "refs" DT_DIR (Dir []);
               Dirent "config" DT_REG Unreadable])
         (state0 false false true)
  = Ret (mkState false false true 0 0
           [FileLine "/srv/proj" "HEAD"; FileLine "/srv/proj" "config"]).
Proof.
  match goal with
  | |- gitree _ (Dir ?es) ?s = Ret ?s1 =>
      apply (proj2 (stage3_file_lines "/srv/proj" es s s1
                      (mkLocals ["/srv/proj/objects"; "/srv/proj/refs"] 2
                                [false; false] [false; false] true true)
                      eq_refl eq_refl eq_refl))
  end; reflexivity.
Defined.

Lemma v1_visit_each_skipped (dirname : string) (es : list dirent) :
  in_nonbare_exp_list dirname = Some true ->
  forall st,
    stage1 st = false -> stage3 st = true ->
    visit_each dirname es st = Ret st.
Proof.
  intros Hin st H1 H3.
  induction es as [|e es IH]; [reflexivity|].
  cbn [visit_each]. unfold seq at 1.
  assert (Hv : visit dirname (d_name e) (target e) st = Ret st).
  { unfold visit. destruct (git_flag (d_name e)).
    - unfold seq, check_gitree. rewrite H1. simpl.
      destruct (negb (git_bare_flag (d_name e))); [|reflexivity].
      unfold check_gitree_nonbare. rewrite Hin.
      now destruct (negb (stage2 st)).
    - unfold may_descend. now rewrite H3, Hin. }
  rewrite Hv. exact IH.
Qed.

(** X15.  In stage 3 a directory whose last path component is in the list
    of allowed non-bare trees ("manifests", "repo") is passed over with
    all that is below it: when its listing is read to the end, [gitree]
    returns and has written nothing, whatever the directory holds. *)
Theorem stage3_allowed_tree (dirname : string) (ents : list dirent)
        (st st1 : state) (l : locals) :
  stage1 st = false -> stage3 st = true ->
  in_nonbare_exp_list dirname = Some true ->
  readdir_loop dirname ents (locals0, st) = Ret (l, st1) ->
  gitree dirname (Dir ents) st = Ret st.
Proof.
  intros H1 H3 Hin Hl.
  destruct (v1_readdir_files dirname true ents Hin _ _ _ _ H3 Hl)
    as (A & B & C & S1 & S2 & T).
  assert (Hst : st1 = st).
  { rewrite app_nil_r in T. destruct st1, st. simpl in *. congruence. }
  subst st1. rewrite v1_gitree_dir, Hl.
  destruct (has_dir_objects l && has_dir_refs l).
  - unfold check_gitree. rewrite H1. simpl. now rewrite H1.
  - now apply v1_visit_each_skipped.
Qed.

Lemma stage3_allowed_tree_witness :
  gitree "/git/android/.repo/manifests"
         (Dir [Dirent "default.xml" DT_REG Unreadable;
               Dirent "sub" DT_DIR (Dir [Dirent "f" DT_REG Unreadable]);
               Dirent ".git" DT_DIR (Dir [])])
         (state0 false false true)
  = Ret (state0 false false true).
Proof.
  apply (stage3_allowed_tree "/git/android/.repo/manifests" _
           (state0 false false true) (state0 false false true)
           (mkLocals ["/git/android/.repo/manifests/sub";
                      "/git/android/.repo/manifests/.git"] 2
                     [false; true] [false; false] false false));
    reflexivity.
Defined.
End V1_stage3.

Section V1_tables.
Import V1.

(** X16.  [in_nonbare_exp_list] of the staged checker compares the last
    path component with the entries of [git_tree_nonbare], by [strcmp]:
    it needs a slash in the path, and for the path of a child it goes by
    the name of the entry alone, so that what holds for a directory does
    not hold for the directories below it. *)
Theorem nonbare_by_last_component (dirname : string) :
  (in_nonbare_exp_list dirname = None <-> slash_free dirname = true)
  /\ (forall listed,
         in_nonbare_exp_list dirname = Some listed ->
         (listed = true <-> In (V2.last_dir dirname) git_tree_nonbare))
  /\ (forall name,
         slash_free name = true ->
         in_nonbare_exp_list (child_path dirname name)
         = Some (existsb (String.eqb name) git_tree_nonbare)).
Proof.
  split; [apply in_nonbare_exp_list_none|]. split.
  - intros listed. unfold in_nonbare_exp_list, V2.last_dir.
    destruct (strrchr dirname "/"%char) as [r|]; [|discriminate].
    unfold git_tree_nonbare_array_size.
    rewrite scan_until_all, negb_involutive.
    change (strcmp0 (ptr_add r 1)) with (String.eqb (ptr_add r 1)).
    intros H.
    assert (E : listed = existsb (String.eqb (ptr_add r 1)) git_tree_nonbare)
      by congruence.
    rewrite E. apply existsb_eqb_In.
  - intros name Hn. unfold in_nonbare_exp_list.
    rewrite (strrchr_child _ _ Hn). unfold git_tree_nonbare_array_size.
    now rewrite scan_until_all, negb_involutive.
Qed.

Lemma nonbare_by_last_component_witness :
  in_nonbare_exp_list (child_path "/git/android/.repo/manifests" "sub")
  = Some false.
Proof.
  apply (proj2 (proj2 (nonbare_by_last_component
                         "/git/android/.repo/manifests")) "sub").
  reflexivity.
Defined.

Lemma v1_check_entries_report (ents : list dirent) :
  forall st,
    let st' := fold_left check_entry ents st in
    trace st'
    = trace st ++ map (fun e => BreaksLayout (d_name e))
                      (filter breaks_layout ents)
    /\ sum st' = sum st + Z.of_nat (List.length (filter breaks_layout ents))
    /\ sum2 st' = sum2 st.
Proof.
  induction ents as [|e ents IH]; intros st; simpl.
  - rewrite app_nil_r. repeat split; lia.
  - specialize (IH (check_entry st e)). simpl in IH.
    destruct IH as (T & S1 & S2). rewrite T, S1, S2.
    unfold check_entry, git_files_array_size, breaks_layout, is_dot.
    rewrite scan_until_all, negb_involutive.
    change (strcmp0 (d_name e)) with (String.eqb (d_name e)).
    destruct (String.eqb (d_name e) "."); cbn [orb negb andb];
      [repeat split; lia|].
    destruct (String.eqb (d_name e) ".."); cbn [orb negb andb];
      [repeat split; lia|].
    destruct (existsb (String.eqb (d_name e)) git_files); cbn [negb];
      [repeat split; lia|].
    cbn [emit incr_sum trace sum sum2 map List.length].
    rewrite <- app_assoc. repeat split; try reflexivity; lia.
Qed.

(** X17.  [check_gitree] of the staged checker does nothing outside stage
    1: it returns at once and does not open the directory, so that a
    directory that cannot be opened stops the run in stage 1 only.  In
    stage 1 it writes the line for the directory and, for each entry other
    than "." and ".." whose name is not in [git_files], one warning that
    gives the name of the entry without its path, and one step of [sum]. *)
Theorem staged_layout_check (path : string) (d : dir) (st : state) :
  (stage1 st = false -> check_gitree path d st = Ret st)
  /\ (stage1 st = true -> d = Unreadable ->
      check_gitree path d st
      = Exit (-1) (emit (Stderr "check_gitree: opendir failed")
                        (emit (Checking path) st)))
  /\ (stage1 st = true ->
      forall ents, d = Dir ents ->
      exists st',
        check_gitree path d st = Ret st'
        /\ trace st'
           = trace st ++ Checking path
                         :: map (fun e => BreaksLayout (d_name e))
                                (filter breaks_layout ents)
        /\ sum st'
           = sum st + Z.of_nat (List.length (filter breaks_layout ents))
        /\ sum2 st' = sum2 st)
  /\ (forall e, breaks_layout e = true
                <-> d_name e <> "." /\ d_name e <> ".."
                    /\ ~ In (d_name e) git_files).
Proof.
  unfold check_gitree. split; [intros ->; reflexivity|].
  split; [intros -> ->; reflexivity|]. split.
  - intros -> ents ->. simpl. eexists. split; [reflexivity|].
    destruct (v1_check_entries_report ents (emit (Checking path) st))
      as (T & S1 & S2).
    rewrite T, S1, S2. simpl. rewrite <- app_assoc. now repeat split.
  - intros e. unfold breaks_layout, is_dot, strcmp0.
    rewrite andb_true_iff, !negb_true_iff, orb_false_iff.
    rewrite !String.eqb_neq, <- existsb_eqb_In.
    destruct (existsb (String.eqb (d_name e)) git_files);
      intuition congruence.
Qed.

Lemma staged_layout_check_witness :
  check_gitree "/r/a.git" Unreadable (state0 false true false)
  = Ret (state0 false true false)
  /\ check_gitree "/r/a.git" Unreadable (state0 true false false)
     = Exit (-1) (emit (Stderr "check_gitree: opendir failed")
                       (emit (Checking "/r/a.git")
                             (state0 true false false))).
Proof.
  split.
  - apply (proj1 (staged_layout_check "/r/a.git" Unreadable
                    (state0 false true false))). reflexivity.
  - apply (proj1 (proj2 (staged_layout_check "/r/a.git" Unreadable
                           (state0 true false false)))); reflexivity.
Defined.
End V1_tables.

(** * Further facts: what the warnings are about *)

Section V2_sound.
Import V2.

Lemma warned_from_child (dirname : string) (ents : list dirent)
      (e : dirent) (ev : event) :
  scan_ok ents = true -> is_git_tree ents = false ->
  In e ents -> is_subdir e = true ->
  warned_from (child_path dirname (d_name e)) (target e) ev ->
  warned_from dirname (Dir ents) ev.
Proof.
  intros Hs Hr Hin He.
  destruct ev; simpl; try exact id.
  - intros (l & Hen). exists l. now apply (enters_child dirname ents e).
  - intros (l & Hen & Hrest). exists l.
    split; [now apply (enters_child dirname ents e)|exact Hrest].
  - intros (l & Hen & Hrest). exists l.
    split; [now apply (enters_child dirname ents e)|exact Hrest].
  - intros (l & Hen & Hrest). exists l.
    split; [now apply (enters_child dirname ents e)|exact Hrest].
Qed.

(** X18.  The report of a walk is sound.  Each "Checking" line names a
    directory the walk has entered.  Each warning of [check_gitree] is
    about a directory the walk has entered and found to be a Git tree: a
    warning about the layout names an entry of its listing whose name is
    not in [git_files]; a warning about the name is given for a last
    component that does not end in ".git"; the non-bare warning for a last
    component ".git" and a path outside the exception list. *)
Theorem report_sound (d : dir) :
  forall dirname st,
    outcome (warned_from dirname d) st (gitree dirname d st).
Proof.
  induction d as [|ents IH] using dir_ind; intros dirname st.
  - simpl. exists [], "gitree: opendir failed".
    split; [|split; [constructor|]].
    + apply advances_emit; reflexivity.
    + unfold fatal. tauto.
  - assert (Hchk : advances st (emit (Checking dirname) st)
                            [Checking dirname])
      by (apply advances_emit; reflexivity).
    assert (Hhere : warned_from dirname (Dir ents) (Checking dirname))
      by (exists ents; constructor).
    destruct (scan_ok ents) eqn:Hs.
    + destruct (is_git_tree ents) eqn:Hr.
      * destruct (gitree_root_report dirname ents st Hs Hr)
          as (st' & -> & Ha).
        simpl. eexists. split; [exact Ha|].
        apply Forall_app. split; [now repeat constructor|].
        apply Forall_app. split.
        -- unfold name_warnings.
           destruct (name_is_dot_git dirname) eqn:E1,
                    (in_exception_list dirname) eqn:E2,
                    (name_without_git dirname) eqn:E3; simpl;
             repeat constructor; exists ents;
             (split; [constructor|now repeat split]).
        -- unfold layout_warnings. apply Forall_forall. intros ev Hev.
           apply in_map_iff in Hev. destruct Hev as (e & <- & He).
           apply filter_In in He. destruct He as [Hin Hb].
           exists ents. split; [constructor|].
           split; [exact Hs|]. split; [exact Hr|]. now exists e.
      * rewrite gitree_non_root by assumption.
        eapply outcome_after.
        -- eapply advances_trans; [exact Hchk|].
           apply (report_files_advances dirname
                    (subfile (scanned dirname ents))).
        -- rewrite stray_warnings_scanned. apply Forall_app. split;
             [now repeat constructor|].
           unfold stray_warnings.
           destruct (in_exception_list dirname); [constructor|].
           apply Forall_forall. intros ev Hev.
           apply in_map_iff in Hev. destruct Hev as (e & <- & _). exact I.
        -- apply gitree_each_ok. unfold subdir_calls.
           apply Forall_forall. intros c Hc.
           apply in_map_iff in Hc. destruct Hc as (e & <- & He).
           apply filter_In in He. destruct He as [Hin He].
           cbn [fst snd]. intros s.
           eapply outcome_weaken;
             [|exact (proj1 (Forall_forall _ _) IH e Hin _ s)].
           intros ev. now apply warned_from_child.
    + destruct (gitree_fatal dirname ents st Hs) as (c & msg & -> & Hk).
      simpl. exists [Checking dirname], msg. split; [|split].
      * eapply advances_trans; [exact Hchk|].
        apply (advances_emit (Stderr msg)); reflexivity.
      * now repeat constructor.
      * unfold fatal. tauto.
Qed.
End V2_sound.

(** * Further facts: what stage 2 finds *)

Section V1_stage2.
Import V1.

Lemma writes_nothing (ok : event -> Prop) (st : state) :
  writes ok st (Ret st).
Proof. exists []. split; [now rewrite app_nil_r|constructor]. Qed.

Lemma writes_emit (ok : event -> Prop) (ev : event) (st : state) :
  ok ev -> writes ok st (Ret (emit ev st)).
Proof.
  intros H. exists [ev]. split; [reflexivity|now repeat constructor].
Qed.

Lemma writes_emit_exit (ok : event -> Prop) (ev : event) (st : state)
      (status : Z) :
  ok ev -> writes ok st (Exit status (emit ev st)).
Proof.
  intros H. exists [ev]. split; [reflexivity|now repeat constructor].
Qed.

Lemma writes_weaken (ok ok' : event -> Prop) (st : state)
      (r : result state) :
  (forall ev, ok ev -> ok' ev) -> writes ok st r -> writes ok' st r.
Proof.
  intros Himp. destruct r; simpl; try exact id;
    intros (evs & Ht & Hf); exists evs;
    (split; [exact Ht|eapply Forall_impl; [exact Himp|exact Hf]]).
Qed.

Lemma writes_seq (ok : event -> Prop) (st : state) (r : result state)
      (k : state -> result state) :
  writes ok st r -> (forall st1, writes ok st1 (k st1)) ->
  writes ok st
    (match r with
     | Ret st1 => k st1
     | Exit status s => Exit status s
     | Undef => Undef
     end).
Proof.
  intros Hr Hk. destruct r as [st1|c s|]; [|exact Hr|exact I].
  destruct Hr as (evs & Ht & Hf). specialize (Hk st1).
  destruct (k st1) as [st2|c st2|]; simpl in *; try exact I;
    destruct Hk as (evs2 & Ht2 & Hf2); exists (evs ++ evs2);
    (split; [now rewrite Ht2, Ht, app_assoc|now apply Forall_app]).
Qed.

Lemma v1_check_entries_writes (ok : event -> Prop) (ents : list dirent) :
  (forall name, ok (BreaksLayout name)) ->
  forall st, writes ok st (Ret (fold_left check_entry ents st)).
Proof.
  intros Hok. induction ents as [|e ents IH]; intros st;
    [apply writes_nothing|].
  cbn [fold_left].
  apply (writes_seq ok st (Ret (check_entry st e))
           (fun s => Ret (fold_left check_entry ents s))); [|exact IH].
  unfold check_entry.
  destruct (strcmp0 (d_name e) "."); [apply writes_nothing|].
  destruct (strcmp0 (d_name e) ".."); [apply writes_nothing|].
  destruct (negb _); [apply writes_nothing|].
  exists [BreaksLayout (d_name e)]. split; [reflexivity|].
  now repeat constructor.
Qed.

Lemma v1_check_gitree_writes (ok : event -> Prop) (path : string)
      (d : dir) (st : state) :
  (forall ev, is_non_bare_tree ev = false -> ok ev) ->
  writes ok st (check_gitree path d st).
Proof.
  intros Hok. unfold check_gitree.
  destruct (negb (stage1 st)); [apply writes_nothing|].
  apply (writes_seq ok st (Ret (emit (Checking path) st))
           (fun s => match d with
                     | Unreadable =>
                         Exit (-1)
                           (emit (Stderr "check_gitree: opendir failed") s)
                     | Dir ents => Ret (fold_left check_entry ents s)
                     end)).
  - apply writes_emit. now apply Hok.
  - intros s. destruct d as [|ents].
    + apply writes_emit_exit. now apply Hok.
    + apply v1_check_entries_writes. intros name. now apply Hok.
Qed.

Lemma v1_readdir_loop_writes (ok : event -> Prop) (dirname : string)
      (ents : list dirent) :
  (forall ev, is_non_bare_tree ev = false -> ok ev) ->
  forall l st,
    match readdir_loop dirname ents (l, st) with
    | Ret (_, st') | Exit _ (_, st') =>
        exists evs, trace st' = trace st ++ evs /\ Forall ok evs
    | Undef => True
    end.
Proof.
  intros Hok. induction ents as [|e ents IH]; intros l st.
  - simpl. exists []. split; [now rewrite app_nil_r|constructor].
  - cbn [readdir_loop]. unfold seq.
    assert (Hstep : match readdir_step dirname e (l, st) with
                    | Ret (_, st') | Exit _ (_, st') =>
                        exists evs, trace st' = trace st ++ evs
                                    /\ Forall ok evs
                    | Undef => True
                    end).
    { assert (Hnone : exists evs, trace st = trace st ++ evs
                                  /\ Forall ok evs)
        by (exists []; split; [now rewrite app_nil_r|constructor]).
      assert (Hone : forall ev, is_non_bare_tree ev = false ->
                 exists evs, trace (emit ev st) = trace st ++ evs
                             /\ Forall ok evs).
      { intros ev Hev. exists [ev]. split; [reflexivity|].
        repeat constructor. now apply Hok. }
      unfold readdir_step.
      destruct (strcmp0 (d_name e) "."); [exact Hnone|].
      destruct (strcmp0 (d_name e) ".."); [exact Hnone|].
      destruct (d_type e =? DT_DIR).
      - destruct (array_store _ _ _ _); [|exact I].
        destruct (array_store _ _ _ _); [|exact I].
        destruct (array_store _ _ _ _); [|exact I].
        destruct (SUBDIRNO <=? i l + 1); [now apply Hone|exact Hnone].
      - destruct (d_type e =? DT_REG).
        + destruct (stage3 st); [|exact Hnone].
          destruct (in_nonbare_exp_list dirname) as [[|]|];
            [exact Hnone|now apply Hone|exact I].
        + destruct (d_type e =? DT_UNKNOWN); [now apply Hone|exact Hnone]. }
    destruct (readdir_step dirname e (l, st)) as [[l1 st1]|c [l1 st1]|];
      [|exact Hstep|exact I].
    destruct Hstep as (evs1 & Ht1 & Hf1). specialize (IH l1 st1).
    destruct (readdir_loop dirname ents (l1, st1))
      as [[l2 st2]|c [l2 st2]|]; try exact I;
      destruct IH as (evs2 & Ht2 & Hf2); exists (evs1 ++ evs2);
      (split; [now rewrite Ht2, Ht1, app_assoc|now apply Forall_app]).
Qed.

Lemma git_flag_dot_git (name : string) :
  git_flag name = true -> git_bare_flag name = false -> name = ".git".
Proof.
  unfold git_bare_flag. intros Hg Hb. rewrite Hg in Hb. simpl in Hb.
  apply negb_false_iff, Z.eqb_eq in Hb.
  unfold git_flag in Hg. rewrite Hb in Hg. simpl in Hg.
  apply (strncmp0_eq 4); [|reflexivity|exact Hg].
  unfold strlen in Hb. lia.
Qed.

Lemma found_from_child (dirname : string) (ents : list dirent)
      (e : dirent) (ev : event) :
  In e ents -> is_subdir e = true ->
  found_from (child_path dirname (d_name e)) (target e) ev ->
  found_from dirname (Dir ents) ev.
Proof.
  intros Hin He. destruct ev; simpl; try exact id.
  intros (l & Hh & Hrest). exists l.
  split; [now apply (holds_child dirname ents e)|exact Hrest].
Qed.

Lemma v1_visit_each_writes (dirname : string) (ents es : list dirent) :
  has_entry "objects" DT_DIR ents && has_entry "refs" DT_DIR ents = false ->
  Forall (fun e =>
            In e ents /\ is_subdir e = true
            /\ forall path st,
                 writes (found_from path (target e)) st
                        (gitree path (target e) st)) es ->
  forall st,
    writes (found_from dirname (Dir ents)) st (visit_each dirname es st).
Proof.
  intros Hroot.
  assert (Hok : forall ev, is_non_bare_tree ev = false ->
                           found_from dirname (Dir ents) ev)
    by (intros []; simpl; try discriminate; intros _; exact I).
  induction 1 as [|e es (Hin & He & Hcall) _ IH]; intros st;
    [apply writes_nothing|].
  cbn [visit_each]. unfold seq at 1. apply writes_seq; [|exact IH].
  unfold visit. destruct (git_flag (d_name e)) eqn:Eg.
  - unfold seq. apply writes_seq;
      [now apply v1_check_gitree_writes|].
    intros st1. destruct (git_bare_flag (d_name e)) eqn:Eb; simpl;
      [apply writes_nothing|].
    unfold check_gitree_nonbare.
    destruct (negb (stage2 st1)); [apply writes_nothing|].
    destruct (in_nonbare_exp_list dirname) as [[|]|] eqn:E;
      [apply writes_nothing| |exact I].
    apply writes_emit. simpl. exists ents.
    split; [constructor|]. split; [|now split].
    apply has_entry_In. exists e. split; [exact Hin|].
    split; [now apply git_flag_dot_git|].
    unfold is_subdir in He. apply andb_true_iff in He.
    destruct He as [_ He]. now apply Z.eqb_eq in He.
  - destruct (may_descend dirname st) as [[|]|];
      [|apply writes_nothing|exact I].
    eapply writes_weaken; [|apply Hcall].
    intros ev. now apply found_from_child.
Qed.

(** X19.  What stage 2 finds is there: each path the staged checker
    writes in stage 2 is the path of a directory of the tree that has a
    directory entry ".git", does not itself hold both "objects" and
    "refs", and whose last path component is not in the list of allowed
    non-bare trees. *)
Theorem stage2_sound (d : dir) :
  forall dirname st,
    writes (found_from dirname d) st (gitree dirname d st).
Proof.
  induction d as [|ents IH] using dir_ind; intros dirname st.
  - simpl. exists [Stderr "gitree: opendir failed"].
    split; [reflexivity|now repeat constructor].
  - assert (Hok : forall ev, is_non_bare_tree ev = false ->
                             found_from dirname (Dir ents) ev)
      by (intros []; simpl; try discriminate; intros _; exact I).
    rewrite v1_gitree_dir.
    pose proof (v1_readdir_loop_writes _ dirname ents Hok locals0 st)
      as Hloop.
    destruct (readdir_loop dirname ents (locals0, st))
      as [[l st1]|c [l st1]|] eqn:Hl; [|exact Hloop|exact I].
    destruct (v1_readdir_flags _ _ _ _ _ _ Hl) as [Ho Hr].
    cbn [locals0 has_dir_objects has_dir_refs orb] in Ho, Hr.
    destruct (has_dir_objects l && has_dir_refs l) eqn:Eroot.
    + apply (writes_seq _ st (Ret st1)
               (fun s => match check_gitree dirname (Dir ents) s with
                         | Ret st2 =>
                             Ret (if stage1 st2
                                  then incr_sum2
                                         (emit (NameNotGit dirname) st2)
                                  else st2)
                         | Exit status s' => Exit status s'
                         | Undef => Undef
                         end)); [exact Hloop|].
      intros s.
      apply (writes_seq _ s (check_gitree dirname (Dir ents) s)
               (fun st2 => Ret (if stage1 st2
                                then incr_sum2
                                       (emit (NameNotGit dirname) st2)
                                else st2)));
        [now apply v1_check_gitree_writes|].
      intros st2. destruct (stage1 st2); [|apply writes_nothing].
      exists [NameNotGit dirname]. split; [reflexivity|].
      now repeat constructor.
    + apply (writes_seq _ st (Ret st1)
               (visit_each dirname (filter is_subdir ents)));
        [exact Hloop|].
      intros s. apply v1_visit_each_writes.
      * now rewrite <- Ho, <- Hr.
      * apply Forall_forall. intros e He. apply filter_In in He.
        destruct He as [Hin He]. split; [exact Hin|]. split; [exact He|].
        intros path s0. apply (proj1 (Forall_forall _ _) IH e Hin).
Qed.
End V1_stage2.
